(** * brain-score: the similarity-evaluation engine

    A shallow embedding of [mkgu/metrics/__init__.py] (alignment, adjacent
    decomposition, cross-validation, scores) and of the ceiling
    normalisation of [brainscore/benchmarks/rajalingham2018.py], with the
    properties of the engine stated and proved over it.

    Python exceptions are modelled by the [result] type; instance state
    ([self._target_neuroid_ids]) by explicit state passing; abstract
    methods ([apply_split], [fit_values], [predict_values], ...) and
    function arguments ([correlation]) by parameters. *)

From Stdlib Require Import List String ZArith Bool Arith Lia.
From Stdlib Require Import Sorted Permutation.
From Stdlib Require Import Reals Lra.
From Stdlib Require Import Setoid Morphisms.
Import ListNotations.

Set Implicit Arguments.

(** ** Exceptions *)

Inductive exn : Type :=
| AssertionError
| KeyError
| IndexError
| ValueError
| MergeError
| NotImplementedError.

Inductive result (A : Type) : Type :=
| Ok (a : A)
| Raise (e : exn).

Arguments Ok {A} a.
Arguments Raise {A} e.

Definition bind {A B : Type} (m : result A) (k : A -> result B) : result B :=
  match m with
  | Ok a => k a
  | Raise e => Raise e
  end.

Declare Scope result_scope.
Delimit Scope result_scope with result.
Notation "x <- m ;; k" := (bind m (fun x => k))
  (at level 61, m at next level, right associativity) : result_scope.
Notation "m ;;; k" := (bind m (fun _ => k))
  (at level 61, right associativity) : result_scope.
Open Scope result_scope.

(** Python's [assert cond]. *)
Definition assert (cond : bool) : result unit :=
  if cond then Ok tt else Raise AssertionError.

Definition mapM {A B : Type} (f : A -> result B) : list A -> result (list B) :=
  fix go (l : list A) : result (list B) :=
    match l with
    | [] => Ok []
    | x :: l' => y <- f x ;; ys <- go l' ;; Ok (y :: ys)
    end.

(** ** Coordinate labels *)

Inductive label : Type :=
| LInt (n : Z)
| LStr (s : string).

Definition label_eqb (a b : label) : bool :=
  match a, b with
  | LInt x, LInt y => Z.eqb x y
  | LStr x, LStr y => String.eqb x y
  | _, _ => false
  end.

(** The order numpy sorts a coordinate array by.  A numpy array is
    homogeneous; across the two kinds numbers are put first. *)
Definition label_leb (a b : label) : bool :=
  match a, b with
  | LInt x, LInt y => Z.leb x y
  | LStr x, LStr y => String.leb x y
  | LInt _, LStr _ => true
  | LStr _, LInt _ => false
  end.

(** [val in level_values] on a one-dimensional array. *)
Definition contains (values : list label) (val : label) : bool :=
  existsb (label_eqb val) values.

(** ** n-dimensional arrays *)

#[warnings="-register-all"]
Inductive ndarray (V : Type) : Type :=
| Scalar (v : V)
| Array (items : list (ndarray V)).

Arguments Scalar {V} v.
Arguments Array {V} items.

(** [np.where(indexer)[0]]: the positions that hold [True], ascending. *)
Fixpoint np_where_from (i : nat) (indexer : list bool) : list nat :=
  match indexer with
  | [] => []
  | b :: rest =>
      if b then i :: np_where_from (S i) rest else np_where_from (S i) rest
  end.

Definition np_where (indexer : list bool) : list nat := np_where_from 0 indexer.

(** Integer-array indexing of one axis; an index out of range raises. *)
Definition take {A : Type} (xs : list A) (idx : list nat) : result (list A) :=
  mapM (fun i => match nth_error xs i with
                 | Some x => Ok x
                 | None => Raise IndexError
                 end) idx.

Fixpoint take_axis {V : Type} (k : nat) (idx : list nat) (a : ndarray V)
  {struct a} : result (ndarray V) :=
  match a with
  | Scalar _ => Raise IndexError
  | Array items =>
      match k with
      | O => items' <- take items idx ;; Ok (Array items')
      | S k' => items' <- mapM (take_axis k' idx) items ;; Ok (Array items')
      end
  end.

(** Boolean-mask selection, the pure counterpart of [take (np_where m)]. *)
Fixpoint compress {A : Type} (mask : list bool) (xs : list A) : list A :=
  match mask, xs with
  | b :: mask', x :: xs' =>
      if b then x :: compress mask' xs' else compress mask' xs'
  | _, _ => []
  end.

Fixpoint compress_axis {V : Type} (k : nat) (mask : list bool) (a : ndarray V)
  {struct a} : ndarray V :=
  match a with
  | Scalar v => Scalar v
  | Array items =>
      match k with
      | O => Array (compress mask items)
      | S k' => Array (map (compress_axis k' mask) items)
      end
  end.

(** ** Labeled tensors *)

(** Modelled from the spec: the labeled tensor ([mkgu.assemblies.DataAssembly],
    an [xarray.DataArray]), whose class is not among the sources: an
    n-dimensional array plus, for each axis, named coordinate arrays (levels)
    that assign a label to every position along the axis. *)
Record level : Type := Level {
  level_name : string;
  level_values : list label
}.

Record axis : Type := Axis {
  dim_name : string;
  levels : list level
}.

(** A coordinate of a dimension that a scalar selection has collapsed: the
    dimension's name and the labels of the selected entry. *)
Definition scalar_coord : Type := (string * list label)%type.

Record Assembly (V : Type) : Type := MkAssembly {
  axes : list axis;
  scalar_coords : list scalar_coord;
  data : ndarray V
}.

Arguments MkAssembly {V} axes scalar_coords data.

Section AssemblyOps.
Context {V : Type}.

Definition dims (a : Assembly V) : list string := map dim_name (axes a).

Definition mem (s : string) (l : list string) : bool :=
  existsb (String.eqb s) l.

Definition find_axis (a : Assembly V) (dim : string) : option axis :=
  find (fun ax => String.eqb (dim_name ax) dim) (axes a).

Fixpoint index_of (s : string) (l : list string) : option nat :=
  match l with
  | [] => None
  | x :: l' => if String.eqb x s then Some 0
               else option_map S (index_of s l')
  end.

(** All coordinate arrays of the tensor, in axis order. *)
Definition all_levels (a : Assembly V) : list level :=
  flat_map levels (axes a).

Definition find_level (a : Assembly V) (name : string) : option level :=
  find (fun l => String.eqb (level_name l) name) (all_levels a).

(** The dimension a coordinate array lies along. *)
Definition level_dim (a : Assembly V) (name : string) : option string :=
  option_map dim_name
    (find (fun ax => existsb (fun l => String.eqb (level_name l) name)
                             (levels ax))
          (axes a)).

(** [hasattr(assembly, level)]. *)
Definition hasattr (a : Assembly V) (name : string) : bool :=
  match find_level a name with Some _ => true | None => false end.

(** [assembly[level].values]. *)
Definition coord_values (a : Assembly V) (name : string)
  : result (list label) :=
  match find_level a name with
  | Some l => Ok (level_values l)
  | None => Raise KeyError
  end.

(** [len(assembly[dim])]. *)
Definition axis_len (a : Assembly V) (dim : string) : nat :=
  match find_axis a dim with
  | Some ax =>
      match levels ax with
      | l :: _ => List.length (level_values l)
      | [] => 0
      end
  | None => 0
  end.

(** [assembly[dim].variable.level_names or [dim]]. *)
Definition level_names (a : Assembly V) (dim : string) : list string :=
  match find_axis a dim with
  | Some ax =>
      match map level_name (levels ax) with
      | [] => [dim]
      | names => names
      end
  | None => [dim]
  end.

Definition take_level (idx : list nat) (l : level) : result level :=
  vals <- take (level_values l) idx ;;
  Ok (Level (level_name l) vals).

Definition take_axis_levels (dim : string) (idx : list nat) (ax : axis)
  : result axis :=
  if String.eqb (dim_name ax) dim
  then ls <- mapM (take_level idx) (levels ax) ;; Ok (Axis (dim_name ax) ls)
  else Ok ax.

(** [assembly.isel] with [idx] for [dim] and [slice(None)] for every
    other dimension. *)
Definition isel (a : Assembly V) (dim : string) (idx : list nat)
  : result (Assembly V) :=
  axes' <- mapM (take_axis_levels dim idx) (axes a) ;;
  data' <- match index_of dim (dims a) with
           | Some k => take_axis k idx (data a)
           | None => Ok (data a)
           end ;;
  Ok (MkAssembly axes' (scalar_coords a) data').

(** The pure selection of the entries of [dim] that a mask keeps. *)
Definition compress_level (mask : list bool) (l : level) : level :=
  Level (level_name l) (compress mask (level_values l)).

Definition compress_axis_levels (dim : string) (mask : list bool) (ax : axis)
  : axis :=
  if String.eqb (dim_name ax) dim
  then Axis (dim_name ax) (map (compress_level mask) (levels ax))
  else ax.

Definition select_mask (a : Assembly V) (dim : string) (mask : list bool)
  : Assembly V :=
  MkAssembly (map (compress_axis_levels dim mask) (axes a))
             (scalar_coords a)
             (match index_of dim (dims a) with
              | Some k => compress_axis k mask (data a)
              | None => data a
              end).

End AssemblyOps.

(** ** [subset]

    The target only lends its coordinates, so its values may be of another
    type than the source's (a coordinate array holds labels). *)

Section Subset.
Context {V U : Type}.

(** The body of the loop over [levels]: one level-wise selection. *)
Definition subset_level (target : Assembly U) (dim : string)
           (source : Assembly V) (level : string) : result (Assembly V) :=
  if negb (hasattr source level) then Ok source
  else
    level_values <- coord_values target level ;;
    source_values <- coord_values source level ;;
    let indexer := map (contains level_values) source_values in
    isel source dim (np_where indexer).

Fixpoint subset_levels (target : Assembly U) (dim : string)
         (source : Assembly V) (lvls : list string) : result (Assembly V) :=
  match lvls with
  | [] => Ok source
  | level :: rest =>
      source' <- subset_level target dim source level ;;
      subset_levels target dim source' rest
  end.

(** The body of the loop over [subset_dims]. *)
Definition subset_dim (target : Assembly U) (source : Assembly V)
           (dim : string) : result (Assembly V) :=
  assert (mem dim (dims target)) ;;;
  assert (mem dim (dims source)) ;;;
  let lvls := level_names target dim in
  assert (existsb (hasattr source) lvls) ;;;
  source' <- subset_levels target dim source lvls ;;
  assert (Nat.eqb (axis_len target dim) (axis_len source' dim)) ;;;
  Ok source'.

Fixpoint subset_dims_loop (target : Assembly U) (source : Assembly V)
         (subset_dims : list string) : result (Assembly V) :=
  match subset_dims with
  | [] => Ok source
  | dim :: rest =>
      source' <- subset_dim target source dim ;;
      subset_dims_loop target source' rest
  end.

Definition subset (source : Assembly V) (target : Assembly U)
           (subset_dims : option (list string)) : result (Assembly V) :=
  let subset_dims :=
    match subset_dims with
    | None | Some [] => dims target
    | Some ds => ds
    end in
  subset_dims_loop target source subset_dims.

End Subset.

(** ** Sorting along a coordinate *)

Fixpoint insert_sorted {A : Type} (leb : A -> A -> bool) (x : A) (l : list A)
  : list A :=
  match l with
  | [] => [x]
  | y :: l' => if leb x y then x :: y :: l' else y :: insert_sorted leb x l'
  end.

(** A stable sort: an element goes in front of the equal ones already
    placed, and the elements are placed from the last to the first. *)
Definition stable_sort {A : Type} (leb : A -> A -> bool) (l : list A) : list A :=
  fold_right (insert_sorted leb) [] l.

(** [np.lexsort] on one key: the positions in ascending order of their keys,
    ties in ascending order of position. *)
Definition argsort (keys : list label) : list nat :=
  map snd (stable_sort (fun x y => label_leb (fst x) (fst y))
                       (combine keys (seq 0 (List.length keys)))).

Section SortBy.
Context {V : Type}.

(** [assembly.sortby(name)]. *)
Definition sortby (a : Assembly V) (name : string) : result (Assembly V) :=
  match find_level a name, level_dim a name with
  | Some l, Some dim => isel a dim (argsort (level_values l))
  | _, _ => Raise KeyError
  end.
End SortBy.

(** ** Numbers

    The arithmetic of the score values, as an interface: the properties that
    only concern which operations are applied to what hold for every
    instance; numeric examples are stated at the real numbers. *)

Class Numeric (C : Type) : Type := {
  nzero : C;
  nadd : C -> C -> C;
  nsub : C -> C -> C;
  nmul : C -> C -> C;
  ndiv : C -> C -> C;
  nsqrt : C -> C;
  nleb : C -> C -> bool;
  of_nat : nat -> C
}.

(** The real numbers, for the values that the floating-point arithmetic of
    numpy approximates. *)
#[export] Instance Numeric_R : Numeric R := {|
  nzero := 0%R;
  nadd := Rplus;
  nsub := Rminus;
  nmul := Rmult;
  ndiv := Rdiv;
  nsqrt := sqrt;
  nleb := fun x y => if Rle_dec x y then true else false;
  of_nat := INR
|}.

(** ** Scores *)

(** A tensor along the ['split'] dimension: one cell per split. *)
Record SplitAssembly (C : Type) : Type := MkSplitAssembly {
  split_coord : list nat;
  split_values : list C
}.

Arguments MkSplitAssembly {C} split_coord split_values.

Section Scores.
Context {C : Type} `{Numeric C}.

Definition nsum (xs : list C) : C := fold_left nadd xs nzero.

(** [np.mean]: the sum over the count. *)
Definition np_mean (xs : list C) : C :=
  ndiv (nsum xs) (of_nat (List.length xs)).

(** [np.std] with [ddof=0]: the square root of the mean squared deviation
    from the mean. *)
Definition np_std (xs : list C) : C :=
  let arrmean := np_mean xs in
  let dev := map (fun x => nsub x arrmean) xs in
  nsqrt (ndiv (nsum (map (fun x => nmul x x) dev))
              (of_nat (List.length xs))).

(** [np.median]: the middle of the sorted values, the mean of the two
    middle ones for an even count. *)
Definition np_median (xs : list C) : C :=
  let sorted := stable_sort nleb xs in
  let n := List.length sorted in
  if Nat.eqb n 0 then ndiv nzero nzero
  else if Nat.odd n then nth (n / 2) sorted nzero
  else ndiv (nadd (nth (n / 2 - 1) sorted nzero) (nth (n / 2) sorted nzero))
            (of_nat 2).

(** [values.mean(dim=dim)] and [values.std(dim)] of a split tensor. *)
Definition mean (values : SplitAssembly C) (dim : string) : result C :=
  if String.eqb dim "split" then Ok (np_mean (split_values values))
  else Raise ValueError.

Definition std (values : SplitAssembly C) (dim : string) : result C :=
  if String.eqb dim "split" then Ok (np_std (split_values values))
  else Raise ValueError.

Record Score : Type := MkScore {
  values : SplitAssembly C;
  center : C;
  error : C
}.

(** The overridable methods of the [Score] classes. *)
Record ScoreClass : Type := {
  get_center : SplitAssembly C -> string -> result C;
  get_error : SplitAssembly C -> string -> result C
}.

(** [Score.__init__]. *)
Definition Score_init (cls : ScoreClass) (values_assembly : SplitAssembly C)
           (split_dim : string) : result Score :=
  center <- get_center cls values_assembly split_dim ;;
  error <- get_error cls values_assembly split_dim ;;
  Ok (MkScore values_assembly center error).

Definition ScoreBase : ScoreClass := {|
  get_center := fun _ _ => Raise NotImplementedError;
  get_error := fun values dim => std values dim
|}.

Definition MeanScoreClass : ScoreClass := {|
  get_center := fun values dim => mean values dim;
  get_error := get_error ScoreBase
|}.

(** [MeanScore(values_assembly)]. *)
Definition MeanScore (values_assembly : SplitAssembly C) : result Score :=
  Score_init MeanScoreClass values_assembly "split".
End Scores.

Arguments Score C : clear implicits.
Arguments ScoreClass C : clear implicits.

(** ** The similarity protocol *)

(** The overridable methods of a [Similarity]. *)
Record Similarity (V Sim Sc : Type) : Type := {
  align : Assembly V -> Assembly V -> result (Assembly V);
  sort : Assembly V -> result (Assembly V);
  apply : Assembly V -> Assembly V -> result Sim;
  score : Sim -> result Sc
}.

Section SimilarityCall.
Context {V Sim Sc : Type}.

(** [Similarity.__call__]. *)
Definition Similarity_call (self : Similarity V Sim Sc)
           (source_assembly target_assembly : Assembly V) : result Sc :=
  source_assembly <- align self source_assembly target_assembly ;;
  source_assembly <- sort self source_assembly ;;
  target_assembly <- sort self target_assembly ;;
  similarity_assembly <- apply self source_assembly target_assembly ;;
  score self similarity_assembly.
End SimilarityCall.

Section SimilarityBase.
Context {V C : Type} `{Numeric C}.

Definition Similarity_align (source_assembly target_assembly : Assembly V)
  : result (Assembly V) :=
  subset source_assembly target_assembly (Some ["presentation"%string]).

Definition Similarity_sort (assembly : Assembly V) : result (Assembly V) :=
  sortby assembly "image_id".

Definition Similarity_score (similarity_assembly : SplitAssembly C)
  : result (Score C) :=
  MeanScore similarity_assembly.

(** The class [Similarity] with its own [align], [sort] and [score]; a
    subclass brings [apply], which the base class leaves unimplemented. *)
Definition SimilarityWith
           (apply : Assembly V -> Assembly V -> result (SplitAssembly C))
  : Similarity V (SplitAssembly C) (Score C) := {|
  align := Similarity_align;
  sort := Similarity_sort;
  apply := apply;
  score := Similarity_score
|}.

Definition SimilarityBase : Similarity V (SplitAssembly C) (Score C) :=
  SimilarityWith (fun _ _ => Raise NotImplementedError).
End SimilarityBase.

(** ** The parametric protocol: fit, predict, compare *)

(** [all(source == target for source, target in zip(xs, ys))]: [zip] stops
    at the end of the shorter array. *)
Fixpoint zip_all_equal (xs ys : list label) : bool :=
  match xs, ys with
  | x :: xs', y :: ys' => label_eqb x y && zip_all_equal xs' ys'
  | _, _ => true
  end.

Definition dims_eqb (ds1 ds2 : list string) : bool :=
  if list_eq_dec string_dec ds1 ds2 then true else false.

(** Does the array have [n] entries along axis [k], in every sub-array. *)
Fixpoint has_size {V : Type} (k n : nat) (a : ndarray V) {struct a} : bool :=
  match a with
  | Scalar _ => false
  | Array items =>
      match k with
      | O => Nat.eqb (List.length items) n
      | S k' => forallb (has_size k' n) items
      end
  end.

(** [ndarray.squeeze()]: the axes of length one are dropped. *)
Fixpoint squeeze {V : Type} (a : ndarray V) : ndarray V :=
  match a with
  | Scalar v => Scalar v
  | Array [x] => squeeze x
  | Array items => Array (map squeeze items)
  end.

Definition is_neuroid_id (l : level) : bool :=
  String.eqb (level_name l) "neuroid_id".

(** The positions of [val] in a coordinate array. *)
Definition positions_of (val : label) (values : list label) : list nat :=
  np_where (map (label_eqb val) values).

Section Parametric.
Context {V C W : Type} `{Numeric C}.

(** The instance state of a [ParametricCVSimilarity]: the neuroid ids that
    [fit] records, and whatever the subclass keeps of its regression. *)
Record ParametricCVSimilarity : Type := MkParametric {
  _target_neuroid_ids : option (list label);
  regression : W
}.

(** The abstract methods [fit_values] and [predict_values]. *)
Variable fit_values : Assembly V -> Assembly V -> W -> result W.
Variable predict_values : Assembly V -> W -> result (ndarray V).

(** [ParametricCVSimilarity.__init__]. *)
Definition ParametricCVSimilarity_init (w : W) : ParametricCVSimilarity :=
  MkParametric None w.

Definition presentation_neuroid : list string :=
  ["presentation"%string; "neuroid"%string].

(** The checks of [fit] that come before the assignment. *)
Definition fit_checks (train_source train_target : Assembly V)
  : result (list label) :=
  assert (dims_eqb (dims train_source) presentation_neuroid) ;;;
  assert (dims_eqb (dims train_target) presentation_neuroid) ;;;
  source_ids <- coord_values train_source "image_id" ;;
  target_ids <- coord_values train_target "image_id" ;;
  assert (zip_all_equal source_ids target_ids) ;;;
  coord_values train_target "neuroid_id".

(** [fit]: the outcome and the instance afterwards.  An exception raised
    after the assignment leaves the recorded ids in place. *)
Definition fit (self : ParametricCVSimilarity)
           (train_source train_target : Assembly V)
  : result unit * ParametricCVSimilarity :=
  match fit_checks train_source train_target with
  | Raise e => (Raise e, self)
  | Ok neuroid_ids =>
      let self := MkParametric (Some neuroid_ids) (regression self) in
      match fit_values train_source train_target (regression self) with
      | Raise e => (Raise e, self)
      | Ok w => (Ok tt, MkParametric (_target_neuroid_ids self) w)
      end
  end.

(** [modify_coord] on the value of one coordinate. *)
Definition modify_coord (self : ParametricCVSimilarity) (l : level)
  : result level :=
  if is_neuroid_id l
  then match _target_neuroid_ids self with
       | Some ids => Ok (Level (level_name l) ids)
       | None => Raise ValueError
       end
  else Ok l.

(** The constructor of an assembly: every coordinate must be as long as
    the values are along its dimension. *)
Fixpoint sizes_ok (k : nat) (axs : list axis) (values : ndarray V) : bool :=
  match axs with
  | [] => true
  | ax :: rest =>
      forallb (fun l => has_size k (List.length (level_values l)) values)
              (levels ax)
      && sizes_ok (S k) rest values
  end.

Definition NeuroidAssembly (values : ndarray V) (coords : list axis)
           (scalars : list scalar_coord) : result (Assembly V) :=
  if sizes_ok 0 coords values then Ok (MkAssembly coords scalars values)
  else Raise ValueError.

(** [result.stack(neuroid=['neuroid_id'])] after the dimension has been
    renamed: ['neuroid_id'] becomes a level of ['neuroid'], counting the
    positions when no coordinate of that name indexes the dimension. *)
Definition restack (ax : axis) : axis :=
  if String.eqb (dim_name ax) "neuroid"
  then
    if existsb is_neuroid_id (levels ax)
    then ax
    else
      let n := match levels ax with
               | l :: _ => List.length (level_values l)
               | [] => 0
               end in
      Axis (dim_name ax)
           (Level "neuroid_id" (map (fun i => LInt (Z.of_nat i)) (seq 0 n))
                  :: levels ax)
  else ax.

(** [predict]; it reads the instance and leaves it as it is. *)
Definition predict (self : ParametricCVSimilarity) (test_source : Assembly V)
  : result (Assembly V) :=
  assert (dims_eqb (dims test_source) presentation_neuroid) ;;;
  predicted_values <- predict_values test_source (regression self) ;;
  let neuroid_counter :=
    match find_axis test_source "neuroid" with
    | Some ax => List.length (levels ax)
    | None => 0
    end in
  coords <- mapM (fun ax =>
                    ls <- mapM (modify_coord self) (levels ax) ;;
                    Ok (Axis (dim_name ax) ls))
                 (axes test_source) ;;
  if Nat.eqb neuroid_counter 1
  then
    result <- NeuroidAssembly predicted_values coords
                              (scalar_coords test_source) ;;
    Ok (MkAssembly (map restack (axes result)) (scalar_coords result)
                   (data result))
  else NeuroidAssembly predicted_values coords (scalar_coords test_source).

(** [assembly.sel] on one label of a coordinate, squeezed: the values at
    the positions that carry the label. *)
Definition sel_squeeze (a : Assembly V) (axis_name : string) (i : label)
  : result (ndarray V) :=
  values <- coord_values a axis_name ;;
  match level_dim a axis_name with
  | None => Raise KeyError
  | Some dim =>
      match positions_of i values with
      | [] => Raise KeyError
      | idx =>
          selected <- match index_of dim (dims a) with
                      | Some k => take_axis k idx (data a)
                      | None => Raise KeyError
                      end ;;
          Ok (squeeze selected)
      end
  end.

(** [compare_prediction]; [correlation] returns the pair [(r, p)]. *)
Definition compare_prediction (prediction target : Assembly V)
           (axis_name : string)
           (correlation : ndarray V -> ndarray V -> result (C * C))
  : result C :=
  prediction_images <- coord_values prediction "image_id" ;;
  target_images <- coord_values target "image_id" ;;
  assert (zip_all_equal prediction_images target_images) ;;;
  prediction_ids <- coord_values prediction axis_name ;;
  target_ids <- coord_values target axis_name ;;
  assert (zip_all_equal prediction_ids target_ids) ;;;
  rs <- mapM (fun i =>
                target_activations <- sel_squeeze target axis_name i ;;
                prediction_activations <- sel_squeeze prediction axis_name i ;;
                rp <- correlation target_activations prediction_activations ;;
                Ok (fst rp))
             target_ids ;;
  Ok (np_median rs).

End Parametric.

Arguments ParametricCVSimilarity W : clear implicits.

(** ** Coordinate arrays and their comparison *)

(** The labels of one entry of a dimension, one per level. *)
Definition tuple : Type := list label.

Fixpoint tuple_eqb (t1 t2 : tuple) : bool :=
  match t1, t2 with
  | [], [] => true
  | x :: t1', y :: t2' => label_eqb x y && tuple_eqb t1' t2'
  | _, _ => false
  end.

Fixpoint tuple_leb (t1 t2 : tuple) : bool :=
  match t1, t2 with
  | [], _ => true
  | _ :: _, [] => false
  | x :: t1', y :: t2' =>
      if label_eqb x y then tuple_leb t1' t2' else label_leb x y
  end.

Fixpoint tuples_eqb (l1 l2 : list tuple) : bool :=
  match l1, l2 with
  | [], [] => true
  | x :: l1', y :: l2' => tuple_eqb x y && tuples_eqb l1' l2'
  | _, _ => false
  end.

Definition tuple_mem (t : tuple) (l : list tuple) : bool :=
  existsb (tuple_eqb t) l.

(** The values without repetition, the first occurrence kept. *)
Fixpoint dedup (l : list tuple) : list tuple :=
  match l with
  | [] => []
  | x :: l' => x :: filter (fun y => negb (tuple_eqb x y)) (dedup l')
  end.

(** [np.unique]: the sorted unique values. *)
Definition np_unique (l : list tuple) : list tuple :=
  stable_sort tuple_leb (dedup l).

Definition tuple_at (ax : axis) (i : nat) : tuple :=
  map (fun l => nth i (level_values l) (LInt 0)) (levels ax).

Definition axis_length (ax : axis) : nat :=
  match levels ax with
  | l :: _ => List.length (level_values l)
  | [] => 0
  end.

(** The index of a dimension: the tuple of labels of each entry. *)
Definition index_tuples (ax : axis) : list tuple :=
  map (tuple_at ax) (seq 0 (axis_length ax)).

(** A one-dimensional [DataArray] along an indexed dimension: what
    [assembly[name]] is for a dimension or for one of its levels. *)
Record DataArray : Type := MkDataArray {
  da_index : list tuple;
  da_values : list tuple
}.

Definition has_duplicates (l : list tuple) : bool :=
  negb (Nat.eqb (List.length (dedup l)) (List.length l)).

Fixpoint position (t : tuple) (l : list tuple) : option nat :=
  match l with
  | [] => None
  | x :: l' => if tuple_eqb t x then Some 0 else option_map S (position t l')
  end.

(** [array.reindex]: the values at the labels of the new index. *)
Definition reindex (a : DataArray) (joined : list tuple) : DataArray :=
  MkDataArray joined
    (flat_map (fun t => match position t (da_index a) with
                        | Some i => match nth_error (da_values a) i with
                                    | Some v => [v]
                                    | None => []
                                    end
                        | None => []
                        end) joined).

(** [xarray.align(a, b, join='inner')], which every binary operation of two
    [DataArray]s starts with: operands whose indexes are equal are left as
    they are; otherwise both are reindexed to the labels the two indexes
    have in common, which an index with repeated labels does not allow. *)
Definition xr_align_inner (a b : DataArray) : result (DataArray * DataArray) :=
  if tuples_eqb (da_index a) (da_index b) then Ok (a, b)
  else if has_duplicates (da_index a) || has_duplicates (da_index b)
  then Raise ValueError
  else
    let joined := filter (fun t => tuple_mem t (da_index b)) (da_index a) in
    Ok (reindex a joined, reindex b joined).

Fixpoint map2 {A B D : Type} (f : A -> B -> D) (xs : list A) (ys : list B)
  : list D :=
  match xs, ys with
  | x :: xs', y :: ys' => f x y :: map2 f xs' ys'
  | _, _ => []
  end.

(** [a == b] on two [DataArray]s: aligned first, then entry by entry. *)
Definition xr_equal (a b : DataArray) : result (list bool) :=
  ab <- xr_align_inner a b ;;
  Ok (map2 tuple_eqb (da_values (fst ab)) (da_values (snd ab))).

(** Python's [all]. *)
Definition py_all (l : list bool) : bool := forallb (fun b => b) l.

Section Getitem.
Context {V : Type}.

(** The axis that [assembly[name]] lies along, for the name of a dimension
    or of a level. *)
Definition axis_of (a : Assembly V) (name : string) : option axis :=
  match find_axis a name with
  | Some ax => Some ax
  | None => match level_dim a name with
            | Some dim => find_axis a dim
            | None => None
            end
  end.

(** [assembly[name]]. *)
Definition getitem (a : Assembly V) (name : string) : result DataArray :=
  match find_axis a name with
  | Some ax => Ok (MkDataArray (index_tuples ax) (index_tuples ax))
  | None =>
      match find_level a name, axis_of a name with
      | Some l, Some ax =>
          Ok (MkDataArray (index_tuples ax)
                          (map (fun v => [v]) (level_values l)))
      | _, _ => Raise KeyError
      end
  end.

(** [assembly[name]] as a tensor of its own, which [subset] can take as
    target: the one axis, the labels as values. *)
Definition coordinate_array (a : Assembly V) (name : string)
  : result (Assembly tuple) :=
  match axis_of a name with
  | Some ax => Ok (MkAssembly [ax] [] (Array (map Scalar (index_tuples ax))))
  | None => Raise KeyError
  end.

(** [assert all(source[name] == target[name])]. *)
Definition assert_all_equal (source target : Assembly V) (name : string)
  : result unit :=
  s <- getitem source name ;;
  t <- getitem target name ;;
  eq <- xr_equal s t ;;
  assert (py_all eq).
End Getitem.

(** ** Outer cross-validation *)

(** The value of a collected coordinate: a scalar (the labels of the entry
    a selection has fixed) or an array along a dimension. *)
Inductive coord_value : Type :=
| Coord0 (value : tuple)
| Coord1 (coord_dim : string) (values : list tuple).

Definition coords_dict : Type := list (string * coord_value).

(** [{**d1, **d2}]: a key of [d2] replaces the same key of [d1]. *)
Definition dict_update {A : Type} (d1 d2 : list (string * A))
  : list (string * A) :=
  filter (fun kv => negb (mem (fst kv) (map fst d2))) d1 ++ d2.

(** The tensor that [cross_apply] returns: one value per split along
    ['split'], and the coordinates collected from the two slices. *)
Record SimilarityAssembly (C : Type) : Type := MkSimilarityAssembly {
  sim_coords : coords_dict;
  sim_splits : SplitAssembly C
}.

Arguments MkSimilarityAssembly {C} sim_coords sim_splits.

(** [assembly.sel] of one entry of a dimension by its labels: the dimension
    goes and its labels stay as a scalar coordinate. *)
Fixpoint index_axis {V : Type} (k i : nat) (a : ndarray V) {struct a}
  : result (ndarray V) :=
  match a with
  | Scalar _ => Raise IndexError
  | Array items =>
      match k with
      | O => match nth_error items i with
             | Some x => Ok x
             | None => Raise IndexError
             end
      | S k' => items' <- mapM (index_axis k' i) items ;; Ok (Array items')
      end
  end.

Section Selections.
Context {V : Type}.

Definition sel_one (a : Assembly V) (dim : string) (value : tuple)
  : result (Assembly V) :=
  match find_axis a dim, index_of dim (dims a) with
  | Some ax, Some k =>
      match np_where (map (tuple_eqb value) (index_tuples ax)) with
      | [] => Raise KeyError
      | [i] =>
          data' <- index_axis k i (data a) ;;
          Ok (MkAssembly
                (filter (fun ax' => negb (String.eqb (dim_name ax') dim))
                        (axes a))
                (scalar_coords a ++ [(dim, value)])
                data')
      | idx => isel a dim idx
      end
  | _, _ => Raise KeyError
  end.

(** [assembly.sel] with one label for each of several dimensions. *)
Fixpoint sel (a : Assembly V) (selection : list (string * tuple))
  : result (Assembly V) :=
  match selection with
  | [] => Ok a
  | (dim, value) :: rest => a' <- sel_one a dim value ;; sel a' rest
  end.

(** [itertools.product] of the choices, each combination as a [dict]. *)
Fixpoint combinations (choices : list (string * list tuple))
  : list (list (string * tuple)) :=
  match choices with
  | [] => [[]]
  | (dim, values) :: rest =>
      flat_map (fun v => map (fun c => (dim, v) :: c) (combinations rest))
               values
  end.

(** [adjacent_selections] of [apply]. *)
Definition adjacent_selections (similarity_dims : list string)
           (assembly : Assembly V) : list (list (string * tuple)) :=
  let adjacent_dims :=
    filter (fun ax => negb (mem (dim_name ax) similarity_dims))
           (axes assembly) in
  let choices :=
    map (fun ax => (dim_name ax, np_unique (index_tuples ax)))
        adjacent_dims in
  combinations choices.

(** The names of the coordinates of a tensor. *)
Definition coord_names (a : Assembly V) : list string :=
  dims a ++ map fst (scalar_coords a).

(** Modelled from the spec: [collect_coords] of [mkgu/metrics/utils.py],
    which is not among the sources: the coordinates of the tensor that do
    not lie along an ignored dimension are kept, those of a name that
    source and target both use under a name of their side. *)
Definition collect_coords (ignore_dims rename_coords_list : list string)
           (assembly : Assembly V) (kind : string) : coords_dict :=
  let rename name :=
    if mem name rename_coords_list then (name ++ "-" ++ kind)%string
    else name in
  flat_map (fun ax =>
              if mem (dim_name ax) ignore_dims then []
              else map (fun l => (rename (level_name l),
                                  Coord1 (dim_name ax)
                                         (map (fun v => [v])
                                              (level_values l))))
                       (levels ax))
           (axes assembly)
  ++ map (fun sc => (rename (fst sc), Coord0 (snd sc)))
         (scalar_coords assembly).

(** [len(assembly[dim])], for a dimension or a coordinate. *)
Definition len_of (a : Assembly V) (name : string) : result nat :=
  match axis_of a name with
  | Some ax => Ok (axis_length ax)
  | None => Raise KeyError
  end.
End Selections.

Section OuterCrossValidation.
Context {V C Self : Type}.

(** [self._split_strategy.split(X, y)] for [X] of the given length: the
    train and test indices of each split. *)
Variable split_strategy :
  nat -> list tuple -> result (list (list nat * list nat)).

(** The abstract method [apply_split], which may use and change the
    instance [Self]. *)
Variable apply_split :
  Self -> Assembly V -> Assembly V -> Assembly V -> Assembly V -> result C * Self.

Definition cross_validation_dim : string := "presentation".
Definition stratification_coord : string := "object_name".

(** The four tensors of one split. *)
Definition split_tensors (source_assembly target_assembly : Assembly V)
           (cross_validation_values : Assembly tuple)
           (train_indices test_indices : list nat)
  : result (Assembly V * Assembly V * Assembly V * Assembly V) :=
  train_values <- isel cross_validation_values cross_validation_dim
                       train_indices ;;
  test_values <- isel cross_validation_values cross_validation_dim
                      test_indices ;;
  train_source <- subset source_assembly train_values None ;;
  train_target <- subset target_assembly train_values None ;;
  test_source <- subset source_assembly test_values None ;;
  test_target <- subset target_assembly test_values None ;;
  Ok (train_source, train_target, test_source, test_target).

(** The loop over the splits, from split number [split_iterator] on. *)
Fixpoint split_loop (self : Self) (source_assembly target_assembly : Assembly V)
         (cross_validation_values : Assembly tuple)
         (splits : list (list nat * list nat)) (split_iterator : nat)
  : result (list (nat * C)) * Self :=
  match splits with
  | [] => (Ok [], self)
  | (train_indices, test_indices) :: rest =>
      match split_tensors source_assembly target_assembly
                          cross_validation_values
                          train_indices test_indices with
      | Raise e => (Raise e, self)
      | Ok (train_source, train_target, test_source, test_target) =>
          match apply_split self train_source train_target
                            test_source test_target with
          | (Raise e, self) => (Raise e, self)
          | (Ok split_score, self) =>
              match split_loop self source_assembly target_assembly
                               cross_validation_values rest
                               (S split_iterator) with
              | (Raise e, self) => (Raise e, self)
              | (Ok split_scores, self) =>
                  (Ok ((split_iterator, split_score) :: split_scores), self)
              end
          end
      end
  end.

(** The two assertions that [cross_apply] starts with. *)
Definition cross_apply_checks (source_assembly target_assembly : Assembly V)
  : result unit :=
  assert_all_equal source_assembly target_assembly cross_validation_dim ;;;
  assert_all_equal source_assembly target_assembly stratification_coord.

(** What [cross_apply] prepares for the loop: the labels to split and the
    splits. *)
Definition cross_apply_splits (source_assembly target_assembly : Assembly V)
  : result (Assembly tuple * list (list nat * list nat)) :=
  cross_validation_values <-
    coordinate_array target_assembly cross_validation_dim ;;
  source_values <- getitem source_assembly cross_validation_dim ;;
  stratification <- getitem source_assembly stratification_coord ;;
  splits <- split_strategy (List.length (np_unique (da_values source_values)))
                           (da_values stratification) ;;
  Ok (cross_validation_values, splits).

(** The coordinates of the result. *)
Definition cross_apply_coords (source_assembly target_assembly : Assembly V)
           (split_scores : list (nat * C)) : result coords_dict :=
  let source_multi :=
    filter (fun dim => Nat.ltb 1 (axis_len source_assembly dim))
           (dims source_assembly) in
  target_lens <- mapM (fun dim => n <- len_of target_assembly dim ;;
                                  Ok (dim, n))
                      (dims source_assembly) ;;
  let target_multi :=
    map fst (filter (fun dn => Nat.ltb 1 (snd dn)) target_lens) in
  let multi_dimensional_dims := source_multi ++ target_multi in
  let coords := (coord_names source_assembly
                 ++ coord_names target_assembly)%list in
  let duplicate_coords :=
    filter (fun coord => Nat.ltb 1 (count_occ string_dec coords coord))
           coords in
  let collected :=
    dict_update
      (dict_update
         (collect_coords multi_dimensional_dims duplicate_coords
                         source_assembly "left")
         (collect_coords multi_dimensional_dims duplicate_coords
                         target_assembly "right"))
      [("split"%string,
        Coord1 "split" (map (fun kv => [LInt (Z.of_nat (fst kv))])
                            split_scores))] in
  (* every coordinate of the result has to lie along ['split'] *)
  if forallb (fun kv => match snd kv with
                        | Coord0 _ => true
                        | Coord1 dim _ => String.eqb dim "split"
                        end) collected
  then Ok collected
  else Raise ValueError.

(** [OuterCrossValidationSimilarity.cross_apply]. *)
Definition cross_apply (self : Self) (source_assembly target_assembly : Assembly V)
  : result (SimilarityAssembly C) * Self :=
  match cross_apply_checks source_assembly target_assembly ;;;
        cross_apply_splits source_assembly target_assembly with
  | Raise e => (Raise e, self)
  | Ok (cross_validation_values, splits) =>
      match split_loop self source_assembly target_assembly
                       cross_validation_values splits 0 with
      | (Raise e, self) => (Raise e, self)
      | (Ok split_scores, self) =>
          (coords <- cross_apply_coords source_assembly target_assembly
                                        split_scores ;;
           Ok (MkSimilarityAssembly
                 coords
                 (MkSplitAssembly (map fst split_scores)
                                  (map snd split_scores))),
           self)
      end
  end.
End OuterCrossValidation.

(** ** Adjacent decomposition: [apply], [expand] and the merge *)

(** A similarity with the adjacent coordinates turned into dimensions of
    length one: [position] gives the label along each of them. *)
Record ExpandedAssembly (C : Type) : Type := MkExpandedAssembly {
  ex_dims : list string;
  ex_position : list (string * tuple);
  ex_coords : coords_dict;
  ex_splits : SplitAssembly C
}.

Arguments MkExpandedAssembly {C} ex_dims ex_position ex_coords ex_splits.

(** The merged tensor: its dimensions, the labels along each adjacent
    dimension, the splits, and the value that each result has written at a
    position (the labels along the adjacent dimensions, and the split). *)
Record MergedAssembly (C : Type) : Type := MkMergedAssembly {
  mg_dims : list string;
  mg_index : list (string * list tuple);
  mg_splits : list nat;
  mg_entries : list ((list (option tuple) * nat) * C)
}.

Arguments MkMergedAssembly {C} mg_dims mg_index mg_splits mg_entries.

Fixpoint lookup {A : Type} (key : string) (d : list (string * A)) : option A :=
  match d with
  | [] => None
  | (k, v) :: d' => if String.eqb k key then Some v else lookup key d'
  end.

Definition option_tuple_eqb (o1 o2 : option tuple) : bool :=
  match o1, o2 with
  | Some t1, Some t2 => tuple_eqb t1 t2
  | None, None => true
  | _, _ => false
  end.

Fixpoint key_eqb (k1 k2 : list (option tuple)) : bool :=
  match k1, k2 with
  | [], [] => true
  | x :: k1', y :: k2' => option_tuple_eqb x y && key_eqb k1' k2'
  | _, _ => false
  end.

Definition coord_value_eqb (v1 v2 : coord_value) : bool :=
  match v1, v2 with
  | Coord0 t1, Coord0 t2 => tuple_eqb t1 t2
  | Coord1 d1 l1, Coord1 d2 l2 => String.eqb d1 d2 && tuples_eqb l1 l2
  | _, _ => false
  end.

Section Expand.
Context {C : Type}.

(** [expand]: a scalar coordinate named like one of [target_dims] becomes
    a dimension of length one; the dimensions of the result are the
    coordinates named in [target_dims], in the order of the coordinates. *)
Definition expand (assembly : SimilarityAssembly C) (target_dims : list string)
  : ExpandedAssembly C :=
  let in_dims := filter (fun kv => mem (fst kv) target_dims)
                        (sim_coords assembly) in
  MkExpandedAssembly
    (map fst in_dims)
    (flat_map (fun kv => match snd kv with
                         | Coord0 t => [(fst kv, t)]
                         | Coord1 _ _ => []
                         end) in_dims)
    (map (fun kv => match snd kv with
                    | Coord0 t =>
                        if mem (fst kv) target_dims
                        then (fst kv, Coord1 (fst kv) [t])
                        else kv
                    | Coord1 _ _ => kv
                    end) (sim_coords assembly))
    (sim_splits assembly).

(** The scalar coordinates that stay scalar. *)
Definition scalars_of (e : ExpandedAssembly C) : coords_dict :=
  filter (fun kv => match snd kv with
                    | Coord0 _ => true
                    | Coord1 _ _ => false
                    end) (ex_coords e).

(** The position of a result along the adjacent dimensions [dims]. *)
Definition key_of (dims : list string) (e : ExpandedAssembly C)
  : list (option tuple) :=
  map (fun d => lookup d (ex_position e)) dims.

(** What a result writes: its value at each of its splits. *)
Definition entries_of (dims : list string) (e : ExpandedAssembly C)
  : list ((list (option tuple) * nat) * C) :=
  map (fun kc => ((key_of dims e, fst kc), snd kc))
      (combine (split_coord (ex_splits e)) (split_values (ex_splits e))).

Variable cell_eqb : C -> C -> bool.

(** Two values for one position that differ, or two values of a scalar
    coordinate that differ, are a conflict. *)
Definition entries_agree
           (e1 e2 : (list (option tuple) * nat) * C) : bool :=
  if key_eqb (fst (fst e1)) (fst (fst e2))
     && Nat.eqb (snd (fst e1)) (snd (fst e2))
  then cell_eqb (snd e1) (snd e2)
  else true.

Definition scalars_agree (e1 e2 : ExpandedAssembly C) : bool :=
  forallb (fun kv => match lookup (fst kv) (scalars_of e2) with
                     | Some v => coord_value_eqb (snd kv) v
                     | None => true
                     end) (scalars_of e1).

Fixpoint all_pairs {A : Type} (agree : A -> A -> bool) (l : list A) : bool :=
  match l with
  | [] => true
  | x :: l' => forallb (agree x) l' && all_pairs agree l'
  end.

Definition same_dims (dims : list string) (e : ExpandedAssembly C) : bool :=
  forallb (fun d => mem d (ex_dims e)) dims
  && forallb (fun d => mem d dims) (ex_dims e).

(** [xr.merge] of the results (each renamed ['z']) and [['z']] of it: the
    indexes are joined (outer join), every result contributes the values
    it has, and values that disagree are a [MergeError].  The results of
    one [apply] have the same dimensions. *)
Definition merge (similarities : list (ExpandedAssembly C))
  : result (MergedAssembly C) :=
  match similarities with
  | [] => Raise KeyError
  | first :: _ =>
      let dims := ex_dims first in
      let adjacent := filter (fun d => negb (String.eqb d "split")) dims in
      if negb (forallb (same_dims dims) similarities)
      then Raise MergeError
      else if negb (all_pairs scalars_agree similarities)
      then Raise MergeError
      else
        let entries := flat_map (entries_of adjacent) similarities in
        if negb (all_pairs entries_agree entries) then Raise MergeError
        else
          Ok (MkMergedAssembly
                dims
                (map (fun d =>
                        (d, dedup (flat_map
                                     (fun e => match lookup d (ex_position e) with
                                               | Some t => [t]
                                               | None => []
                                               end) similarities)))
                     adjacent)
                (nodup Nat.eq_dec
                       (flat_map (fun e => split_coord (ex_splits e))
                                 similarities))
                entries)
  end.
End Expand.

Section Apply.
Context {V C Self : Type}.

(** The method [cross_apply]. *)
Variable cross_apply_method :
  Self -> Assembly V -> Assembly V -> result (SimilarityAssembly C) * Self.
Variable cell_eqb : C -> C -> bool.

Definition similarity_dims : list string :=
  ["presentation"%string; "neuroid"%string].

(** One element of the list comprehension of [apply]. *)
Definition cross_apply_pair (self : Self)
           (source_assembly target_assembly : Assembly V)
           (adj : list (string * tuple) * list (string * tuple))
  : result (SimilarityAssembly C) * Self :=
  match (source <- sel source_assembly (fst adj) ;;
         target <- sel target_assembly (snd adj) ;;
         Ok (source, target)) with
  | Raise e => (Raise e, self)
  | Ok (source, target) => cross_apply_method self source target
  end.

Fixpoint cross_apply_pairs (self : Self)
         (source_assembly target_assembly : Assembly V)
         (pairs : list (list (string * tuple) * list (string * tuple)))
  : result (list (SimilarityAssembly C)) * Self :=
  match pairs with
  | [] => (Ok [], self)
  | adj :: rest =>
      match cross_apply_pair self source_assembly target_assembly adj with
      | (Raise e, self) => (Raise e, self)
      | (Ok similarity, self) =>
          match cross_apply_pairs self source_assembly target_assembly rest
          with
          | (Raise e, self) => (Raise e, self)
          | (Ok similarities, self) => (Ok (similarity :: similarities), self)
          end
      end
  end.

Definition shape (similarity : SimilarityAssembly C) : nat :=
  List.length (split_values (sim_splits similarity)).

(** [OuterCrossValidationSimilarity.apply]. *)
Definition OuterCrossValidationSimilarity_apply (self : Self)
           (source_assembly target_assembly : Assembly V)
  : result (MergedAssembly C) * Self :=
  let adjacents1 := adjacent_selections similarity_dims source_assembly in
  let adjacents2 := adjacent_selections similarity_dims target_assembly in
  match cross_apply_pairs self source_assembly target_assembly
                          (list_prod adjacents1 adjacents2) with
  | (Raise e, self) => (Raise e, self)
  | (Ok similarities, self) =>
      (assert (match similarities with
               | [] => true
               | first :: rest =>
                   forallb (fun similarity =>
                              Nat.eqb (shape similarity) (shape first)) rest
               end) ;;;
       let assembly_dims := (dims source_assembly ++ dims target_assembly
                             ++ ["split"%string])%list in
       let similarities :=
         map (fun similarity => expand similarity assembly_dims)
             similarities in
       merge cell_eqb similarities,
       self)
  end.
End Apply.

(** *** What [apply] is to achieve *)

Section ApplySpec.
Context {V C Self : Type}.
Variable cross_apply_method :
  Self -> Assembly V -> Assembly V -> result (SimilarityAssembly C) * Self.

(** The names of the adjacent dimensions of a tensor. *)
Definition adjacent_names (assembly : Assembly V) : list string :=
  map dim_name
      (filter (fun ax => negb (mem (dim_name ax) similarity_dims))
              (axes assembly)).


(** The result of a pair carries the labels of the pair's two selections,
    under the names of their dimensions, as the coordinates that [expand]
    turns into dimensions, and a value for each of the splits [0 .. n-1]. *)
Definition labelled (assembly_dims : list string) (n : nat)
           (adj : list (string * tuple) * list (string * tuple))
           (similarity : SimilarityAssembly C) : Prop :=
  let e := expand similarity assembly_dims in
  ex_position e = (fst adj ++ snd adj)%list
  /\ ex_dims e = (map fst (fst adj ++ snd adj) ++ ["split"%string])%list
  /\ split_coord (sim_splits similarity) = seq 0 n
  /\ List.length (split_values (sim_splits similarity)) = n.


End ApplySpec.

(** ** Ceiling normalisation ([brainscore/benchmarks/rajalingham2018.py]) *)

Module Brainscore.

(** Modelled from the spec: the score of [brainscore.metrics], whose class
    is not among the sources: a tensor along one dimension (['split'] for
    per-split values) that carries auxiliary attributes, among them the
    raw values ([Score.RAW_VALUES_KEY]) and the ceiling. *)
#[warnings="-register-all"]
Inductive Score (C : Type) : Type :=
  MkScore (dim : string) (coord : list label) (cells : list C)
          (attrs : list (string * Score C)).

Arguments MkScore {C} dim coord cells attrs.

Section CeilScore.
Context {C : Type} `{Numeric C}.

Definition dim (s : Score C) : string :=
  match s with MkScore d _ _ _ => d end.
Definition coord (s : Score C) : list label :=
  match s with MkScore _ c _ _ => c end.
Definition cells (s : Score C) : list C :=
  match s with MkScore _ _ v _ => v end.
Definition attrs (s : Score C) : list (string * Score C) :=
  match s with MkScore _ _ _ a => a end.

Definition RAW_VALUES_KEY : string := "raw".

Definition get_attr (s : Score C) (key : string) : option (Score C) :=
  option_map snd (find (fun kv => String.eqb (fst kv) key) (attrs s)).

(** [score.attrs[key] = value]. *)
Definition set_attr (s : Score C) (key : string) (value : Score C)
  : Score C :=
  MkScore (dim s) (coord s) (cells s)
          ((key, value)
             :: filter (fun kv => negb (String.eqb (fst kv) key)) (attrs s)).

(** [score.raw]. *)
Definition raw (s : Score C) : result (Score C) :=
  match get_attr s RAW_VALUES_KEY with
  | Some r => Ok r
  | None => Raise KeyError
  end.

(** [score['split'].values]. *)
Definition split_values_of (s : Score C) : result (list label) :=
  if String.eqb (dim s) "split" then Ok (coord s) else Raise KeyError.

(** [set(xs) == set(ys)]. *)
Definition set_eqb (xs ys : list label) : bool :=
  forallb (contains ys) xs && forallb (contains xs) ys.

(** [score.sel(split=split)] followed by [expand_dims('split')]: the
    cell of the one entry that carries the label; the selection keeps
    the dimension when several entries do, and expanding then fails. *)
Definition sel_split (s : Score C) (split : label) : result C :=
  splits <- split_values_of s ;;
  match positions_of split splits with
  | [] => Raise KeyError
  | [i] => match nth_error (cells s) i with
           | Some c => Ok c
           | None => Raise IndexError
           end
  | _ => Raise ValueError
  end.

(** The cell that a per-split score holds for a split. *)
Fixpoint lookup_cell (split : label) (splits : list label) (cs : list C)
  : option C :=
  match splits, cs with
  | x :: splits', c :: cs' =>
      if label_eqb split x then Some c else lookup_cell split splits' cs'
  | _, _ => None
  end.

(** Modelled from the spec: [Score.merge], not among the sources: the
    one-split tensors put together along ['split']. *)
Definition merge (split_scores : list (label * C)) : Score C :=
  MkScore "split" (map fst split_scores) (map snd split_scores) [].

(** Modelled from the spec: [apply_aggregate] of
    [brainscore.metrics.transformations], not among the sources: the
    aggregation applied to the values, which it keeps as raw values. *)
Definition apply_aggregate (aggregate : Score C -> result (Score C))
           (values : Score C) : result (Score C) :=
  score <- aggregate values ;;
  Ok (set_attr score RAW_VALUES_KEY values).

(** The body of the loop of [ceil_score]. *)
Definition ceil_split (score_raw ceiling_raw : Score C) (split : label)
  : result (label * C) :=
  split_score <- sel_split score_raw split ;;
  split_ceiling <- sel_split ceiling_raw split ;;
  let ceiled_split_score := ndiv split_score (nsqrt split_ceiling) in
  Ok (split, ceiled_split_score).

(** [DicarloRajalingham2018I2n.ceil_score]; [aggregate] is
    [self._metric.aggregate]. *)
Definition ceil_score (aggregate : Score C -> result (Score C))
           (score ceiling : Score C) : result (Score C) :=
  score_raw <- raw score ;;
  score_splits <- split_values_of score_raw ;;
  ceiling_raw <- raw ceiling ;;
  ceiling_splits <- split_values_of ceiling_raw ;;
  assert (set_eqb score_splits ceiling_splits) ;;;
  split_scores <- mapM (ceil_split score_raw ceiling_raw) ceiling_splits ;;
  let split_scores := merge split_scores in
  split_scores <- apply_aggregate aggregate split_scores ;;
  let split_scores := set_attr split_scores RAW_VALUES_KEY score in
  let split_scores := set_attr split_scores "ceiling" ceiling in
  Ok split_scores.
End CeilScore.

End Brainscore.

(** ** Membership masks

    The per-level masks of [subset] as one computes them on the original
    source, to compare with the level-by-level selection of the code. *)

(** [np.logical_and] of two masks. *)
Fixpoint mask_and (m1 m2 : list bool) : list bool :=
  match m1, m2 with
  | b1 :: m1', b2 :: m2' => (b1 && b2) :: mask_and m1' m2'
  | _, _ => []
  end.

Definition intersect_masks (masks : list (list bool)) : list bool :=
  match masks with
  | [] => []
  | m :: rest => fold_left mask_and rest m
  end.

(** The mask that selecting by [inner] after selecting by [outer] amounts to. *)
Fixpoint mask_compose (outer inner : list bool) : list bool :=
  match outer with
  | [] => []
  | true :: outer' =>
      match inner with
      | [] => []
      | b :: inner' => b :: mask_compose outer' inner'
      end
  | false :: outer' => false :: mask_compose outer' inner
  end.

Section Masks.
Context {V U : Type}.

(** For a level that source and target both have: does each source
    entry's label appear among the target's label values of the level. *)
Definition membership_mask (source : Assembly V) (target : Assembly U)
           (level : string)
  : list (list bool) :=
  match find_level source level, find_level target level with
  | Some sl, Some tl => [map (contains (level_values tl)) (level_values sl)]
  | _, _ => []
  end.

Definition present_masks (source : Assembly V) (target : Assembly U)
           (lvls : list string)
  : list (list bool) :=
  flat_map (membership_mask source target) lvls.

(** Entry [i] of the source carries, for every level of [lvls] that
    source and target both have, a label that occurs in the target. *)
Definition entry_in_target (source : Assembly V) (target : Assembly U)
           (lvls : list string) (i : nat) : Prop :=
  forall (name : string) (sl tl : level),
    In name lvls ->
    find_level source name = Some sl ->
    find_level target name = Some tl ->
    exists v, nth_error (level_values sl) i = Some v
              /\ In v (level_values tl).
End Masks.

(** ** Only removing entries *)

(** [l1] is [l2] with some elements left out: order kept, nothing repeated. *)
Inductive subseq {A : Type} : list A -> list A -> Prop :=
| subseq_nil : subseq [] []
| subseq_skip (x : A) (l1 l2 : list A) : subseq l1 l2 -> subseq l1 (x :: l2)
| subseq_keep (x : A) (l1 l2 : list A) : subseq l1 l2 -> subseq (x :: l1) (x :: l2).

(** An array that is another one with entries left out, at some depth. *)
#[warnings="-register-all"]
Inductive nd_sub {V : Type} : ndarray V -> ndarray V -> Prop :=
| nd_sub_scalar (v : V) : nd_sub (Scalar v) (Scalar v)
| nd_sub_array (xs kept ys : list (ndarray V)) :
    subseq kept ys -> Forall2 nd_sub xs kept -> nd_sub (Array xs) (Array ys).

Definition level_sub (lr ls : level) : Prop :=
  level_name lr = level_name ls
  /\ subseq (level_values lr) (level_values ls).

Definition axis_sub (ar ax : axis) : Prop :=
  dim_name ar = dim_name ax /\ Forall2 level_sub (levels ar) (levels ax).

(** [r] is [a] with entries removed: the same dimensions and coordinate
    names, every coordinate array and the data a sub-sequence of the
    original. *)
Definition removes {V : Type} (r a : Assembly V) : Prop :=
  Forall2 axis_sub (axes r) (axes a)
  /\ scalar_coords r = scalar_coords a
  /\ nd_sub (data r) (data a).

Section SubsetDims.
Context {V : Type}.

(** [subset_dims or target_assembly.dims]. *)
Definition effective_dims {U : Type} (target : Assembly U)
           (subset_dims : option (list string)) : list string :=
  match subset_dims with
  | None | Some [] => dims target
  | Some ds => ds
  end.

Definition select_masks (a : Assembly V) (steps : list (string * list bool))
  : Assembly V :=
  fold_left (fun a st => select_mask a (fst st) (snd st)) steps a.
End SubsetDims.

(** ** Well-formed tensors *)

(** The tensors that the functions are made for: a name is used for one
    dimension and for one coordinate only, every dimension is indexed by
    at least one coordinate, and the coordinates of a dimension are as
    long as the data is along it (what the constructor of a labeled tensor
    checks). *)
Fixpoint distinct (names : list string) : bool :=
  match names with
  | [] => true
  | x :: names' => negb (mem x names') && distinct names'
  end.

Definition level_lengths_ok (ax : axis) : bool :=
  negb (Nat.eqb (List.length (levels ax)) 0)
  && forallb (fun l => Nat.eqb (List.length (level_values l)) (axis_length ax))
             (levels ax).

Definition well_formed {V : Type} (a : Assembly V) : bool :=
  distinct (dims a)
  && distinct (map level_name (all_levels a))
  && forallb level_lengths_ok (axes a)
  && sizes_ok 0 (axes a) (data a).

(** ** The subclasses' [apply_split] *)

Section ApplySplit.
Context {V C Self : Type}.

(** [OuterCrossValidationSimilarity.apply_split], left unimplemented. *)
Definition OuterCrossValidationSimilarity_apply_split (self : Self)
           (train_source train_target test_source test_target : Assembly V)
  : result C * Self :=
  (Raise NotImplementedError, self).

(** The abstract method [compute], which may use and change the instance. *)
Variable compute : Self -> Assembly V -> Assembly V -> result C * Self.

(** [NonparametricCVSimilarity.apply_split]: the test tensors are ignored. *)
Definition NonparametricCVSimilarity_apply_split (self : Self)
           (train_source train_target test_source test_target : Assembly V)
  : result C * Self :=
  compute self train_source train_target.
End ApplySplit.

(** ** Example tensors *)

Module Examples.
Local Open Scope string_scope.
Local Open Scope Z_scope.

Definition ints (l : list Z) : list label := map LInt l.
Definition strs (l : list string) : list label := map LStr l.

Definition matrix (rows : list (list Z)) : ndarray Z :=
  Array (map (fun row => Array (map Scalar row)) rows).

(** Three presentations of two neuroids. *)
Definition source3 : Assembly Z :=
  MkAssembly
    [Axis "presentation" [Level "image_id" (ints [1; 2; 3]);
                          Level "object_name" (strs ["a"; "b"; "a"])];
     Axis "neuroid" [Level "neuroid_id" (ints [10; 20])]]
    []
    (matrix [[11; 12]; [21; 22]; [31; 32]]).

(** A target over two of these presentations. *)
Definition target2 : Assembly Z :=
  MkAssembly
    [Axis "presentation" [Level "image_id" (ints [3; 1]);
                          Level "object_name" (strs ["a"; "a"])];
     Axis "neuroid" [Level "neuroid_id" (ints [7])]]
    []
    (matrix [[5]; [6]]).

(** A target with a presentation that the source lacks. *)
Definition target_uncovered : Assembly Z :=
  MkAssembly
    [Axis "presentation" [Level "image_id" (ints [1; 4]);
                          Level "object_name" (strs ["a"; "b"])];
     Axis "neuroid" [Level "neuroid_id" (ints [7])]]
    []
    (matrix [[5]; [6]]).

(** [source3] restricted to the presentations of [target2]. *)
Definition source3_aligned : Assembly Z :=
  MkAssembly
    [Axis "presentation" [Level "image_id" (ints [1; 3]);
                          Level "object_name" (strs ["a"; "a"])];
     Axis "neuroid" [Level "neuroid_id" (ints [10; 20])]]
    []
    (matrix [[11; 12]; [31; 32]]).

(** [source3] restricted to the presentations of [target_uncovered]. *)
Definition source3_covered : Assembly Z :=
  MkAssembly
    [Axis "presentation" [Level "image_id" (ints [1]);
                          Level "object_name" (strs ["a"])];
     Axis "neuroid" [Level "neuroid_id" (ints [10; 20])]]
    []
    (matrix [[11; 12]]).

(** A target over the presentations of [source3], of two other neuroids. *)
Definition target3 : Assembly Z :=
  MkAssembly
    [Axis "presentation" [Level "image_id" (ints [1; 2; 3]);
                          Level "object_name" (strs ["a"; "b"; "a"])];
     Axis "neuroid" [Level "neuroid_id" (ints [7; 8])]]
    []
    (matrix [[1; 2]; [3; 4]; [5; 6]]).

(** A regression that keeps nothing and predicts the source values. *)
Definition fit_nothing (train_source train_target : Assembly Z) (w : unit)
  : result unit := Ok w.
Definition predict_source (test_source : Assembly Z) (w : unit)
  : result (ndarray Z) := Ok (data test_source).

(** A prediction for three neuroids and a target that holds the first two
    of them. *)
Definition prediction23 : Assembly Z :=
  MkAssembly
    [Axis "presentation" [Level "image_id" (ints [1; 2])];
     Axis "neuroid" [Level "neuroid_id" (ints [1; 2; 3])]]
    []
    (matrix [[1; 2; 3]; [4; 5; 6]]).

Definition target22 : Assembly Z :=
  MkAssembly
    [Axis "presentation" [Level "image_id" (ints [1; 2])];
     Axis "neuroid" [Level "neuroid_id" (ints [1; 2])]]
    []
    (matrix [[1; 2]; [4; 5]]).

(** A raw score and a ceiling over the splits 0 and 1, and the aggregation
    of per-split values into their mean and standard deviation. *)
Definition raw_scores : Brainscore.Score R :=
  Brainscore.MkScore "split" (ints [0; 1]) [1 / 2; 1 / 4]%R [].

Definition raw_ceilings : Brainscore.Score R :=
  Brainscore.MkScore "split" (ints [1; 0]) [4; 9]%R [].

Definition mean_aggregate (values : Brainscore.Score R)
  : result (Brainscore.Score R) :=
  Ok (Brainscore.MkScore "aggregation" (strs ["center"; "error"])
        [np_mean (Brainscore.cells values); np_std (Brainscore.cells values)]
        []).

Definition example_score : Brainscore.Score R :=
  Brainscore.MkScore "aggregation" (strs ["center"; "error"])
    [3 / 8; 1 / 8]%R [("raw", raw_scores)].

Definition example_ceiling : Brainscore.Score R :=
  Brainscore.MkScore "aggregation" (strs ["center"; "error"])
    [13 / 2; 5 / 2]%R [("raw", raw_ceilings)].

(** Two slices over the same two presentations, in opposite orders. *)
Definition source_ordered : Assembly Z :=
  MkAssembly
    [Axis "presentation" [Level "image_id" (ints [1; 2]);
                          Level "object_name" (strs ["a"; "b"])];
     Axis "neuroid" [Level "neuroid_id" (ints [10; 20])]]
    []
    (matrix [[11; 12]; [21; 22]]).

Definition target_reversed : Assembly Z :=
  MkAssembly
    [Axis "presentation" [Level "image_id" (ints [2; 1]);
                          Level "object_name" (strs ["b"; "a"])];
     Axis "neuroid" [Level "neuroid_id" (ints [10; 20])]]
    []
    (matrix [[21; 22]; [11; 12]]).

(** A split strategy of one split, training on the first entry and testing
    on the second, and a per-split evaluation that does not look at the
    tensors. *)
Definition one_split (n : nat) (stratification : list tuple)
  : result (list (list nat * list nat)) :=
  Ok [([0%nat], [1%nat])].

Definition constant_split (self : unit)
           (train_source train_target test_source test_target : Assembly Z)
  : result Z * unit := (Ok 1, self).

Definition cube (planes : list (list (list Z))) : ndarray Z :=
  Array (map (fun rows => Array (map (fun row => Array (map Scalar row)) rows))
             planes).

(** A source with an adjacent dimension ['layer'] and a target with an
    adjacent dimension ['time_bin'], two values each. *)
Definition source_layers : Assembly Z :=
  MkAssembly
    [Axis "presentation" [Level "image_id" (ints [1; 2]);
                          Level "object_name" (strs ["a"; "b"])];
     Axis "neuroid" [Level "neuroid_id" (ints [10; 20])];
     Axis "layer" [Level "layer" (strs ["IT"; "V4"])]]
    []
    (cube [[[1; 2]; [3; 4]]; [[5; 6]; [7; 8]]]).

Definition target_bins : Assembly Z :=
  MkAssembly
    [Axis "presentation" [Level "image_id" (ints [1; 2]);
                          Level "object_name" (strs ["a"; "b"])];
     Axis "neuroid" [Level "neuroid_id" (ints [10; 20])];
     Axis "time_bin" [Level "time_bin" (ints [0; 1])]]
    []
    (cube [[[1; 2]; [3; 4]]; [[5; 6]; [7; 8]]]).


(** A per-split evaluation whose value tells the tensors apart: ten times
    the first training value of the source plus that of the target. *)
Fixpoint first_scalar (a : ndarray Z) : Z :=
  match a with
  | Scalar v => v
  | Array (x :: _) => first_scalar x
  | Array [] => 0
  end.

Definition first_values_split (self : unit)
           (train_source train_target test_source test_target : Assembly Z)
  : result Z * unit :=
  (Ok (10 * first_scalar (data train_source)
       + first_scalar (data train_target)), self).

(** [cross_apply] with the one split and this evaluation. *)
Definition cross_apply_once (self : unit) (source target : Assembly Z)
  : result (SimilarityAssembly Z) * unit :=
  cross_apply one_split first_values_split self source target.




(** A source without entries along its adjacent dimension ['layer']. *)
Definition source_no_layers : Assembly Z :=
  MkAssembly
    [Axis "presentation" [Level "image_id" (ints [1; 2]);
                          Level "object_name" (strs ["a"; "b"])];
     Axis "neuroid" [Level "neuroid_id" (ints [10; 20])];
     Axis "layer" [Level "layer" []]]
    []
    (cube [[[]; []]; [[]; []]]).

(** A cross-validation that makes one split more for each time bin of the
    target slice. *)
Definition cross_apply_uneven (self : unit) (source target : Assembly Z)
  : result (SimilarityAssembly Z) * unit :=
  let n := match scalar_coords target with
           | (_, [LInt k]) :: _ => S (Z.to_nat k)
           | _ => 1%nat
           end in
  (Ok (MkSimilarityAssembly [] (MkSplitAssembly (seq 0%nat n) (repeat 0 n))),
   self).

(** The [compute] of a nonparametric similarity: ten times the first
    value of the source plus that of the target. *)
Definition first_values_compute (self : unit) (source target : Assembly Z)
  : result Z * unit :=
  (Ok (10 * first_scalar (data source) + first_scalar (data target)), self).


(** A ceiling over the splits 0 and 2. *)
Definition raw_ceilings_other : Brainscore.Score R :=
  Brainscore.MkScore "split" (ints [0; 2]) [4; 9]%R [].

Definition ceiling_other : Brainscore.Score R :=
  Brainscore.MkScore "aggregation" (strs ["center"; "error"])
    [13 / 2; 5 / 2]%R [("raw", raw_ceilings_other)].
End Examples.

(** * Properties *)

Unset Implicit Arguments.

(** ** The result monad *)

Lemma bind_ok_inv {A B : Type} (m : result A) (k : A -> result B) (b : B) :
  bind m k = Ok b -> exists a, m = Ok a /\ k a = Ok b.
Proof.
  destruct m as [a|e]; simpl; intros H; [eauto | discriminate].
Qed.



Lemma assert_ok_inv (c : bool) (u : unit) : assert c = Ok u -> c = true.
Proof. destruct c; simpl; [reflexivity | discriminate]. Qed.

Lemma mapM_ok_inv {A B : Type} (f : A -> result B) (l : list A) (ys : list B) :
  mapM f l = Ok ys -> Forall2 (fun x y => f x = Ok y) l ys.
Proof.
  revert ys. induction l as [|x l IH]; simpl; intros ys H.
  - injection H as <-. constructor.
  - apply bind_ok_inv in H as (y & Hy & H).
    apply bind_ok_inv in H as (ys' & Hys & H).
    injection H as <-. constructor; auto.
Qed.

Ltac inv_ok H :=
  repeat match type of H with
  | bind _ _ = Ok _ =>
      let x := fresh "x" in
      let Hx := fresh "Hx" in
      apply bind_ok_inv in H as (x & Hx & H)
  end.

(** ** Arrays: masks and integer indexing *)

Section NdarrayInd.
Variable V : Type.
Variable P : ndarray V -> Prop.
Hypothesis HScalar : forall v, P (Scalar v).
Hypothesis HArray : forall items, Forall P items -> P (Array items).

Fixpoint ndarray_nested_ind (a : ndarray V) : P a :=
  match a with
  | Scalar v => HScalar v
  | Array items =>
      HArray items ((fix all (l : list (ndarray V)) : Forall P l :=
                 match l with
                 | [] => Forall_nil P
                 | x :: l' => Forall_cons x (ndarray_nested_ind x) (all l')
                 end) items)
  end.
End NdarrayInd.

Lemma np_where_from_lt (m : list bool) (i : nat) :
  Forall (fun j => i <= j < i + List.length m) (np_where_from i m).
Proof.
  revert i. induction m as [|b m IH]; intros i; simpl; [constructor|].
  assert (H : Forall (fun j => i <= j < i + S (List.length m))
                     (np_where_from (S i) m)).
  { eapply Forall_impl; [|apply IH]. simpl. intros; lia. }
  destruct b; [constructor; [lia | exact H] | exact H].
Qed.

Lemma np_where_from_sorted (m : list bool) (i : nat) :
  StronglySorted lt (np_where_from i m).
Proof.
  revert i. induction m as [|b m IH]; intros i; simpl; [constructor|].
  destruct b; [|apply IH].
  constructor; [apply IH|].
  eapply Forall_impl; [|apply np_where_from_lt]. simpl. intros; lia.
Qed.

(** [np.where] lists positions in ascending order, each once, all in range. *)
Lemma np_where_sorted (m : list bool) : StronglySorted lt (np_where m).
Proof. apply np_where_from_sorted. Qed.

Lemma np_where_in_range (m : list bool) :
  Forall (fun j => j < List.length m) (np_where m).
Proof.
  eapply Forall_impl; [|apply (np_where_from_lt m 0)]. simpl. intros; lia.
Qed.

Lemma compress_nil_r {A : Type} (m : list bool) : compress m (@nil A) = [].
Proof. destruct m as [|[] m]; reflexivity. Qed.

Lemma skipn_nth_error {A : Type} (l : list A) (i : nat) :
  skipn i l = match nth_error l i with
              | Some x => x :: skipn (S i) l
              | None => []
              end.
Proof.
  revert i. induction l as [|x l IH]; intros [|i]; simpl; try reflexivity.
  apply IH.
Qed.

Lemma take_np_where_from {A : Type} (l : list A) (m : list bool) (i : nat) ys :
  take l (np_where_from i m) = Ok ys -> ys = compress m (skipn i l).
Proof.
  revert i ys. induction m as [|b m IH]; intros i ys; simpl.
  - unfold take; simpl. intros H; injection H as <-. reflexivity.
  - rewrite (skipn_nth_error l i). destruct b.
    + unfold take; simpl. destruct (nth_error l i) as [x|]; simpl; [|discriminate].
      intros H. apply bind_ok_inv in H as (ys' & Hys & H). injection H as <-.
      f_equal. exact (IH (S i) ys' Hys).
    + intros H. apply (IH (S i)) in H. subst ys.
      destruct (nth_error l i) as [x|] eqn:E; [reflexivity|].
      rewrite (skipn_nth_error l (S i)).
      rewrite (proj2 (nth_error_None l (S i))).
      * apply compress_nil_r.
      * apply nth_error_None in E. lia.
Qed.

(** Indexing with [np.where] of a mask keeps what the mask keeps. *)
Lemma take_np_where {A : Type} (l : list A) (m : list bool) ys :
  take l (np_where m) = Ok ys -> ys = compress m l.
Proof. apply (take_np_where_from l m 0). Qed.

Lemma take_axis_np_where {V : Type} (a : ndarray V) :
  forall (k : nat) (m : list bool) (a' : ndarray V),
    take_axis k (np_where m) a = Ok a' -> a' = compress_axis k m a.
Proof.
  induction a as [v|items IH] using ndarray_nested_ind; intros k m a' H.
  - simpl in H. discriminate.
  - destruct k as [|k]; simpl in H; inv_ok H; injection H as <-; simpl; f_equal.
    + apply take_np_where. exact Hx.
    + apply mapM_ok_inv in Hx. clear -Hx IH.
      induction Hx as [|y y' l l' Hy _ IHl]; simpl; [reflexivity|].
      inversion IH as [|? ? Hhead Htail]; subst. f_equal; auto.
Qed.

Lemma compress_compress {A : Type} (m1 m2 : list bool) (xs : list A) :
  compress (compress m1 m2) (compress m1 xs) = compress (mask_and m1 m2) xs.
Proof.
  revert m2 xs. induction m1 as [|b m1 IH]; intros m2 xs; [reflexivity|].
  destruct m2 as [|c m2]; [destruct b, xs; reflexivity|].
  destruct xs as [|x xs].
  - simpl. destruct b; simpl; rewrite ?compress_nil_r; destruct c; reflexivity.
  - destruct b; simpl; [destruct c; simpl; [f_equal|]|]; apply IH.
Qed.

Lemma compress_mask_compose {A : Type} (outer inner : list bool) (xs : list A) :
  compress inner (compress outer xs) = compress (mask_compose outer inner) xs.
Proof.
  revert inner xs. induction outer as [|b outer IH]; intros inner xs.
  - simpl. apply compress_nil_r.
  - destruct xs as [|x xs].
    + simpl. rewrite !compress_nil_r. destruct b; reflexivity.
    + destruct b; simpl.
      * destruct inner as [|c inner]; [reflexivity|].
        simpl. destruct c; [f_equal|]; apply IH.
      * apply IH.
Qed.

Lemma map_compress {A B : Type} (f : A -> B) (m : list bool) (xs : list A) :
  map f (compress m xs) = compress m (map f xs).
Proof.
  revert xs. induction m as [|b m IH]; intros [|x xs]; simpl; try reflexivity.
  destruct b; simpl; [f_equal|]; apply IH.
Qed.

Lemma compress_axis_compress {V : Type} (a : ndarray V) :
  forall (k : nat) (m1 m2 : list bool),
    compress_axis k (compress m1 m2) (compress_axis k m1 a)
    = compress_axis k (mask_and m1 m2) a.
Proof.
  induction a as [v|items IH] using ndarray_nested_ind; intros k m1 m2.
  - reflexivity.
  - destruct k as [|k]; simpl; f_equal.
    + apply compress_compress.
    + rewrite map_map. apply map_ext_Forall.
      eapply Forall_impl; [|exact IH]. intros a Ha. apply Ha.
Qed.

Lemma compress_axis_mask_compose {V : Type} (a : ndarray V) :
  forall (k : nat) (outer inner : list bool),
    compress_axis k inner (compress_axis k outer a)
    = compress_axis k (mask_compose outer inner) a.
Proof.
  induction a as [v|items IH] using ndarray_nested_ind; intros k outer inner.
  - reflexivity.
  - destruct k as [|k]; simpl; f_equal.
    + apply compress_mask_compose.
    + rewrite map_map. apply map_ext_Forall.
      eapply Forall_impl; [|exact IH]. intros a Ha. apply Ha.
Qed.

(** ** Selecting along one dimension of a labeled tensor *)

Section SelectProps.
Context {V : Type}.
Implicit Types (a source target : Assembly V) (dim : string).

Lemma take_level_np_where (m : list bool) (l l' : level) :
  take_level (np_where m) l = Ok l' -> l' = compress_level m l.
Proof.
  unfold take_level, compress_level. intros H. inv_ok H.
  injection H as <-. f_equal. apply take_np_where. exact Hx.
Qed.

Lemma take_axis_levels_np_where dim (m : list bool) (ax ax' : axis) :
  take_axis_levels dim (np_where m) ax = Ok ax' ->
  ax' = compress_axis_levels dim m ax.
Proof.
  unfold take_axis_levels, compress_axis_levels.
  destruct (String.eqb (dim_name ax) dim); intros H.
  - inv_ok H. injection H as <-. f_equal.
    apply mapM_ok_inv in Hx.
    induction Hx as [|l l' ls ls' Hl _ IH]; simpl; [reflexivity|].
    f_equal; [apply take_level_np_where; exact Hl | exact IH].
  - injection H as <-. reflexivity.
Qed.

(** Whenever the integer selection of the code returns, it returns the
    mask selection. *)
Lemma isel_np_where a dim (m : list bool) a' :
  isel a dim (np_where m) = Ok a' -> a' = select_mask a dim m.
Proof.
  unfold isel, select_mask. intros H. inv_ok H. injection H as <-.
  f_equal.
  - apply mapM_ok_inv in Hx.
    induction Hx as [|ax ax' l l' Hax _ IH]; simpl; [reflexivity|].
    f_equal; [apply take_axis_levels_np_where; exact Hax | exact IH].
  - destruct (index_of dim (dims a)) as [k|].
    + apply take_axis_np_where. exact Hx0.
    + injection Hx0 as <-. reflexivity.
Qed.

Lemma dim_name_compress_axis_levels dim (m : list bool) (ax : axis) :
  dim_name (compress_axis_levels dim m ax) = dim_name ax.
Proof.
  unfold compress_axis_levels.
  destruct (String.eqb (dim_name ax) dim); reflexivity.
Qed.

Lemma dims_select_mask a dim (m : list bool) :
  dims (select_mask a dim m) = dims a.
Proof.
  unfold dims, select_mask. simpl. rewrite map_map.
  apply map_ext. intros ax. apply dim_name_compress_axis_levels.
Qed.

Lemma compress_level_and (m1 m2 : list bool) (l : level) :
  compress_level (compress m1 m2) (compress_level m1 l)
  = compress_level (mask_and m1 m2) l.
Proof.
  unfold compress_level. simpl. f_equal. apply compress_compress.
Qed.

Lemma compress_level_compose (outer inner : list bool) (l : level) :
  compress_level inner (compress_level outer l)
  = compress_level (mask_compose outer inner) l.
Proof.
  unfold compress_level. simpl. f_equal. apply compress_mask_compose.
Qed.

Lemma select_mask_and a dim (m1 m2 : list bool) :
  select_mask (select_mask a dim m1) dim (compress m1 m2)
  = select_mask a dim (mask_and m1 m2).
Proof.
  unfold select_mask at 1. rewrite dims_select_mask.
  unfold select_mask. simpl. f_equal.
  - rewrite map_map. apply map_ext. intros ax.
    unfold compress_axis_levels.
    destruct (String.eqb (dim_name ax) dim) eqn:E; simpl; rewrite E;
      [|reflexivity].
    f_equal. rewrite map_map. apply map_ext. apply compress_level_and.
  - destruct (index_of dim (dims a)); [|reflexivity].
    apply compress_axis_compress.
Qed.

Lemma select_mask_compose a dim (outer inner : list bool) :
  select_mask (select_mask a dim outer) dim inner
  = select_mask a dim (mask_compose outer inner).
Proof.
  unfold select_mask at 1. rewrite dims_select_mask.
  unfold select_mask. simpl. f_equal.
  - rewrite map_map. apply map_ext. intros ax.
    unfold compress_axis_levels.
    destruct (String.eqb (dim_name ax) dim) eqn:E; simpl; rewrite E;
      [|reflexivity].
    f_equal. rewrite map_map. apply map_ext. apply compress_level_compose.
  - destruct (index_of dim (dims a)); [|reflexivity].
    apply compress_axis_mask_compose.
Qed.

Lemma find_app_level (f : level -> bool) (l1 l2 : list level) :
  find f (l1 ++ l2) = match find f l1 with
                      | Some x => Some x
                      | None => find f l2
                      end.
Proof.
  induction l1 as [|x l1 IH]; simpl; [reflexivity|].
  destruct (f x); [reflexivity | exact IH].
Qed.

Lemma find_map_compress_level (name : string) (m : list bool)
      (ls : list level) :
  find (fun l => String.eqb (level_name l) name) (map (compress_level m) ls)
  = option_map (compress_level m)
      (find (fun l => String.eqb (level_name l) name) ls).
Proof.
  induction ls as [|l ls IH]; simpl; [reflexivity|].
  destruct (String.eqb (level_name l) name); [reflexivity | exact IH].
Qed.

Lemma find_existsb_none (name : string) (ls : list level) :
  existsb (fun l => String.eqb (level_name l) name) ls = false ->
  find (fun l => String.eqb (level_name l) name) ls = None.
Proof.
  induction ls as [|l ls IH]; simpl; [reflexivity|].
  destruct (String.eqb (level_name l) name); simpl; [discriminate | exact IH].
Qed.

Lemma find_existsb_some (name : string) (ls : list level) :
  existsb (fun l => String.eqb (level_name l) name) ls = true ->
  exists l, find (fun l => String.eqb (level_name l) name) ls = Some l.
Proof.
  induction ls as [|l ls IH]; simpl; [discriminate|].
  destruct (String.eqb (level_name l) name); simpl; eauto.
Qed.

(** A level keeps its name and its place among the coordinates. *)
Lemma hasattr_select_mask a dim (m : list bool) (name : string) :
  hasattr (select_mask a dim m) name = hasattr a name.
Proof.
  unfold hasattr, find_level, all_levels, select_mask. simpl.
  induction (axes a) as [|ax l IH]; simpl; [reflexivity|].
  rewrite !find_app_level.
  assert (E : match find (fun l0 => String.eqb (level_name l0) name)
                        (levels (compress_axis_levels dim m ax)) with
              | Some _ => true | None => false end
              = match find (fun l0 => String.eqb (level_name l0) name)
                           (levels ax) with
                | Some _ => true | None => false end).
  { unfold compress_axis_levels.
    destruct (String.eqb (dim_name ax) dim); [|reflexivity].
    simpl. rewrite find_map_compress_level.
    destruct (find _ (levels ax)); reflexivity. }
  destruct (find _ (levels (compress_axis_levels dim m ax)));
    destruct (find _ (levels ax)); try discriminate; auto.
Qed.

(** A level that lies along [dim] is filtered by the mask. *)
Lemma find_level_select_mask a dim (m : list bool) (name : string) :
  level_dim a name = Some dim ->
  find_level (select_mask a dim m) name
  = option_map (compress_level m) (find_level a name).
Proof.
  unfold level_dim, find_level, all_levels, select_mask. simpl.
  induction (axes a) as [|ax l IH]; simpl; [reflexivity|].
  rewrite !find_app_level.
  destruct (existsb (fun l0 => String.eqb (level_name l0) name) (levels ax))
    eqn:E.
  - simpl. intros H. injection H as H.
    apply find_existsb_some in E as [l0 E].
    unfold compress_axis_levels. rewrite H, String.eqb_refl. simpl.
    rewrite find_map_compress_level, E. reflexivity.
  - intros H. apply find_existsb_none in E.
    assert (E' : find (fun l0 => String.eqb (level_name l0) name)
                      (levels (compress_axis_levels dim m ax)) = None).
    { unfold compress_axis_levels.
      destruct (String.eqb (dim_name ax) dim); [|exact E].
      simpl. rewrite find_map_compress_level, E. reflexivity. }
    rewrite E, E'. apply IH. exact H.
Qed.

End SelectProps.

(** ** Masks, pointwise *)

Lemma label_eqb_eq (a b : label) : label_eqb a b = true <-> a = b.
Proof.
  destruct a as [x|x], b as [y|y]; simpl; split; intros H;
    try discriminate; try (injection H as ->).
  - apply Z.eqb_eq in H. congruence.
  - apply Z.eqb_refl.
  - apply String.eqb_eq in H. congruence.
  - apply String.eqb_refl.
Qed.

Lemma contains_In (values : list label) (val : label) :
  contains values val = true <-> In val values.
Proof.
  unfold contains. rewrite existsb_exists. split.
  - intros (w & Hw & E). apply label_eqb_eq in E. subst. exact Hw.
  - intros H. exists val. split; [exact H | apply label_eqb_eq; reflexivity].
Qed.

Lemma nth_error_membership (tv sv : list label) (i : nat) :
  nth_error (map (contains tv) sv) i = Some true
  <-> exists v, nth_error sv i = Some v /\ In v tv.
Proof.
  rewrite nth_error_map. destruct (nth_error sv i) as [v|]; simpl; split.
  - intros H. injection H as H. apply contains_In in H. eauto.
  - intros (w & E & H). injection E as ->. f_equal. apply contains_In, H.
  - discriminate.
  - intros (w & E & _). discriminate.
Qed.

Lemma nth_error_mask_and (m1 m2 : list bool) (i : nat) :
  nth_error (mask_and m1 m2) i = Some true
  <-> nth_error m1 i = Some true /\ nth_error m2 i = Some true.
Proof.
  revert m2 i. induction m1 as [|b m1 IH]; intros m2 i.
  - simpl. destruct i; simpl; split; [discriminate | tauto | discriminate | tauto].
  - destruct m2 as [|c m2].
    + simpl. destruct i; simpl; split; try discriminate; intros [_ H]; discriminate.
    + destruct i as [|i]; simpl; [|apply IH].
      destruct b, c; simpl; split; try tauto; try discriminate;
        intros [H1 H2]; discriminate.
Qed.

Lemma nth_error_fold_mask_and (ms : list (list bool)) (m : list bool) (i : nat) :
  nth_error (fold_left mask_and ms m) i = Some true
  <-> nth_error m i = Some true
      /\ forall m', In m' ms -> nth_error m' i = Some true.
Proof.
  revert m. induction ms as [|m1 ms IH]; intros m; simpl.
  - split; [intros H; split; [exact H | intros ? []] | tauto].
  - rewrite IH, nth_error_mask_and. split.
    + intros [[H1 H2] H3]. split; [exact H1|].
      intros m' [<-|H]; auto.
    + intros [H1 H2]. repeat split; auto.
Qed.

(** The intersection keeps a position exactly when every mask keeps it. *)
Lemma nth_error_intersect_masks (ms : list (list bool)) (i : nat) :
  ms <> [] ->
  (nth_error (intersect_masks ms) i = Some true
   <-> forall m, In m ms -> nth_error m i = Some true).
Proof.
  destruct ms as [|m ms]; [congruence|]. intros _. simpl.
  rewrite nth_error_fold_mask_and. split.
  - intros [H1 H2] m' [<-|H]; auto.
  - intros H. split; auto.
Qed.

Section SubsetProps.
Context {V U : Type}.
Implicit Types (source r : Assembly V) (target : Assembly U) (dim : string).

Lemma In_present_masks source target (lvls : list string) (m : list bool) :
  In m (present_masks source target lvls)
  <-> exists level sl tl,
        In level lvls /\ find_level source level = Some sl
        /\ find_level target level = Some tl
        /\ m = map (contains (level_values tl)) (level_values sl).
Proof.
  unfold present_masks. rewrite in_flat_map. unfold membership_mask. split.
  - intros (level & Hin & H).
    destruct (find_level source level) as [sl|] eqn:Hs; [|destruct H].
    destruct (find_level target level) as [tl|] eqn:Ht; [|destruct H].
    destruct H as [<-|[]]. exists level, sl, tl. repeat split; auto.
  - intros (level & sl & tl & Hin & Hs & Ht & ->).
    exists level. split; [exact Hin|]. rewrite Hs, Ht. left. reflexivity.
Qed.

(** The intersected masks keep entry [i] exactly when its label occurs in
    the target for every level that both tensors have. *)
Lemma intersect_present_masks source target (lvls : list string) (i : nat) :
  present_masks source target lvls <> [] ->
  (nth_error (intersect_masks (present_masks source target lvls)) i
     = Some true
   <-> entry_in_target source target lvls i).
Proof.
  intros Hne. rewrite (nth_error_intersect_masks _ i Hne).
  unfold entry_in_target. split.
  - intros H level sl tl Hin Hs Ht.
    apply nth_error_membership. apply H.
    apply In_present_masks. exists level, sl, tl. repeat split; auto.
  - intros H m Hm. apply In_present_masks in Hm
      as (level & sl & tl & Hin & Hs & Ht & ->).
    apply nth_error_membership. eapply H; eauto.
Qed.

Lemma hasattr_find_level source (name : string) :
  hasattr source name = true -> exists l, find_level source name = Some l.
Proof.
  unfold hasattr. destruct (find_level source name); [eauto | discriminate].
Qed.

Lemma hasattr_false_find_level source (name : string) :
  hasattr source name = false -> find_level source name = None.
Proof.
  unfold hasattr. destruct (find_level source name); [discriminate | auto].
Qed.

(** The level loop, started from a source already filtered by [m]. *)
Lemma subset_levels_masked source target dim (lvls : list string) :
  (forall level, In level lvls -> hasattr source level = true ->
                 level_dim source level = Some dim) ->
  forall (m : list bool) r,
    subset_levels target dim (select_mask source dim m) lvls = Ok r ->
    r = select_mask source dim
          (fold_left mask_and (present_masks source target lvls) m).
Proof.
  induction lvls as [|level lvls IH]; intros Hon m r H.
  - simpl in H. injection H as <-. reflexivity.
  - simpl in H. apply bind_ok_inv in H as (cur & Hcur & H).
    assert (Hon' : forall l, In l lvls -> hasattr source l = true ->
                             level_dim source l = Some dim)
      by (intros; apply Hon; simpl; auto).
    unfold subset_level in Hcur. rewrite hasattr_select_mask in Hcur.
    unfold present_masks. simpl. rewrite fold_left_app.
    fold (present_masks source target lvls).
    unfold membership_mask.
    destruct (hasattr source level) eqn:Ehas; simpl in Hcur.
    + pose proof (Hon level (or_introl eq_refl) Ehas) as Hdim.
      apply hasattr_find_level in Ehas as [sl Hsl].
      unfold coord_values in Hcur.
      rewrite (find_level_select_mask _ _ m _ Hdim), Hsl in Hcur.
      rewrite Hsl.
      destruct (find_level target level) as [tl|]; simpl in Hcur;
        [|discriminate].
      rewrite map_compress in Hcur. apply isel_np_where in Hcur.
      rewrite select_mask_and in Hcur. subst cur.
      simpl. apply IH; assumption.
    + injection Hcur as <-.
      rewrite (hasattr_false_find_level _ _ Ehas). simpl.
      apply IH; assumption.
Qed.

(** The level loop from the unfiltered source: nothing is selected while
    no level is found in the source; from the first one on, the masks
    accumulate. *)
Lemma subset_levels_masks source target dim (lvls : list string) r :
  (forall level, In level lvls -> hasattr source level = true ->
                 level_dim source level = Some dim) ->
  subset_levels target dim source lvls = Ok r ->
  (existsb (hasattr source) lvls = false /\ r = source)
  \/ (present_masks source target lvls <> []
      /\ r = select_mask source dim
               (intersect_masks (present_masks source target lvls))).
Proof.
  induction lvls as [|level lvls IH]; intros Hon H.
  - simpl in H. injection H as <-. left. auto.
  - simpl in H. apply bind_ok_inv in H as (cur & Hcur & H).
    assert (Hon' : forall l, In l lvls -> hasattr source l = true ->
                             level_dim source l = Some dim)
      by (intros; apply Hon; simpl; auto).
    unfold subset_level in Hcur. simpl.
    unfold present_masks. simpl. fold (present_masks source target lvls).
    unfold membership_mask.
    destruct (hasattr source level) eqn:Ehas; simpl in Hcur.
    + right. apply hasattr_find_level in Ehas as [sl Hsl].
      unfold coord_values in Hcur. rewrite Hsl in Hcur. rewrite Hsl.
      destruct (find_level target level) as [tl|]; simpl in Hcur;
        [|discriminate].
      apply isel_np_where in Hcur. subst cur.
      split; [discriminate|]. simpl.
      apply subset_levels_masked; assumption.
    + injection Hcur as <-.
      rewrite (hasattr_false_find_level _ _ Ehas). simpl.
      apply IH; assumption.
Qed.

End SubsetProps.

(** ** [subset] *)

Lemma subseq_refl {A : Type} (l : list A) : subseq l l.
Proof. induction l; constructor; assumption. Qed.

Lemma subseq_nil_l {A : Type} (l : list A) : subseq [] l.
Proof. induction l; constructor; assumption. Qed.

(** A mask only leaves elements out. *)
Lemma compress_subseq {A : Type} (m : list bool) (xs : list A) :
  subseq (compress m xs) xs.
Proof.
  revert xs. induction m as [|b m IH]; intros [|x xs]; simpl;
    try apply subseq_nil_l.
  destruct b; constructor; apply IH.
Qed.

Lemma nd_sub_refl {V : Type} (a : ndarray V) : nd_sub a a.
Proof.
  induction a as [v|items IH] using ndarray_nested_ind; [constructor|].
  apply nd_sub_array with (kept := items); [apply subseq_refl|].
  induction IH; constructor; assumption.
Qed.

Lemma compress_axis_nd_sub {V : Type} (a : ndarray V) :
  forall (k : nat) (m : list bool), nd_sub (compress_axis k m a) a.
Proof.
  induction a as [v|items IH] using ndarray_nested_ind; intros k m.
  - constructor.
  - destruct k as [|k]; simpl.
    + apply nd_sub_array with (kept := compress m items);
        [apply compress_subseq|].
      induction (compress m items); constructor; [apply nd_sub_refl | assumption].
    + apply nd_sub_array with (kept := items); [apply subseq_refl|].
      induction IH; simpl; constructor; auto.
Qed.

Lemma subseq_trans {A : Type} (l1 l2 l3 : list A) :
  subseq l1 l2 -> subseq l2 l3 -> subseq l1 l3.
Proof.
  intros H12 H23. revert l1 H12.
  induction H23 as [|x l2 l3 _ IH|x l2 l3 _ IH]; intros l1 H12.
  - exact H12.
  - constructor. apply IH. exact H12.
  - inversion H12; subst; constructor; apply IH; assumption.
Qed.

Lemma Forall_subseq {A : Type} (P : A -> Prop) (l1 l2 : list A) :
  subseq l1 l2 -> Forall P l2 -> Forall P l1.
Proof.
  induction 1 as [|x l1 l2 _ IH|x l1 l2 _ IH]; intros H;
    inversion H; subst; auto.
Qed.

Lemma Forall2_restrict {A B : Type} (R : A -> B -> Prop)
      (kept ys : list A) (zs : list B) :
  subseq kept ys -> Forall2 R ys zs ->
  exists zs', subseq zs' zs /\ Forall2 R kept zs'.
Proof.
  intros Hsub. revert zs.
  induction Hsub as [|y kept ys _ IH|y kept ys _ IH]; intros zs H.
  - inversion H; subst. exists []. split; constructor.
  - inversion H as [|? z ? zs0 _ Hrest]; subst.
    destruct (IH _ Hrest) as (zs' & Hs & Hf).
    exists zs'. split; [constructor|]; assumption.
  - inversion H as [|? z ? zs0 Hyz Hrest]; subst.
    destruct (IH _ Hrest) as (zs' & Hs & Hf).
    exists (z :: zs'). split; constructor; assumption.
Qed.

Lemma Forall2_trans_on {A : Type} (R : A -> A -> Prop) (P : A -> Prop)
      (xs ys zs : list A) :
  (forall x y z, P z -> R x y -> R y z -> R x z) ->
  Forall P zs -> Forall2 R xs ys -> Forall2 R ys zs -> Forall2 R xs zs.
Proof.
  intros Htrans HP H12. revert zs HP.
  induction H12 as [|x y xs ys Hxy _ IH]; intros zs HP H23;
    inversion H23; subst; constructor; inversion HP; subst; eauto.
Qed.

Lemma nd_sub_trans {V : Type} (c : ndarray V) :
  forall a b, nd_sub a b -> nd_sub b c -> nd_sub a c.
Proof.
  induction c as [v|ws IH] using ndarray_nested_ind; intros a b Hab Hbc.
  - inversion Hbc; subst. exact Hab.
  - inversion Hbc as [|ys kept2 ws' Hsub2 Hf2]; subst.
    inversion Hab as [|xs kept1 ys' Hsub1 Hf1]; subst.
    destruct (Forall2_restrict _ _ _ _ Hsub1 Hf2) as (kept3 & Hsub3 & Hf3).
    apply nd_sub_array with (kept := kept3).
    + eapply subseq_trans; eassumption.
    + apply Forall2_trans_on with (P := fun c => forall a b,
                 nd_sub a b -> nd_sub b c -> nd_sub a c) (ys := kept1).
      * intros x y z Hz Hxy Hyz. eapply Hz; eassumption.
      * eapply Forall_subseq; [|exact IH].
        eapply subseq_trans; eassumption.
      * exact Hf1.
      * exact Hf3.
Qed.

Lemma level_sub_trans (l1 l2 l3 : level) :
  level_sub l1 l2 -> level_sub l2 l3 -> level_sub l1 l3.
Proof.
  intros [H1 H2] [H3 H4]. split; [congruence|].
  eapply subseq_trans; eassumption.
Qed.

Lemma Forall2_trans {A : Type} (R : A -> A -> Prop) (xs ys zs : list A) :
  (forall x y z, R x y -> R y z -> R x z) ->
  Forall2 R xs ys -> Forall2 R ys zs -> Forall2 R xs zs.
Proof.
  intros Htrans H12. revert zs.
  induction H12; intros zs H23; inversion H23; subst; constructor; eauto.
Qed.

Lemma axis_sub_trans (a1 a2 a3 : axis) :
  axis_sub a1 a2 -> axis_sub a2 a3 -> axis_sub a1 a3.
Proof.
  intros [H1 H2] [H3 H4]. split; [congruence|].
  eapply Forall2_trans; [apply level_sub_trans| |]; eassumption.
Qed.

Lemma removes_refl {V : Type} (a : Assembly V) : removes a a.
Proof.
  unfold removes. repeat split; [|apply nd_sub_refl].
  induction (axes a) as [|ax l IH]; constructor; [|exact IH].
  split; [reflexivity|].
  induction (levels ax) as [|lv ls IHl]; constructor; [|exact IHl].
  split; [reflexivity | apply subseq_refl].
Qed.

Lemma removes_trans {V : Type} (a b c : Assembly V) :
  removes a b -> removes b c -> removes a c.
Proof.
  intros (H1 & H2 & H3) (H4 & H5 & H6). repeat split.
  - eapply Forall2_trans; [apply axis_sub_trans| |]; eassumption.
  - congruence.
  - eapply nd_sub_trans; eassumption.
Qed.

(** A failure of the alignment is the failure of the whole call. *)
Lemma Similarity_call_align_raises {V Sim Sc : Type}
      (self : Similarity V Sim Sc) (source target : Assembly V) (e : exn) :
  align self source target = Raise e ->
  Similarity_call self source target = Raise e.
Proof. unfold Similarity_call. intros ->. reflexivity. Qed.

Section SubsetTheorems.
Context {V U : Type}.
Implicit Types (source r : Assembly V) (target : Assembly U) (dim : string).

(** The mask selection only removes entries. *)
Lemma select_mask_removes source dim (m : list bool) :
  removes (select_mask source dim m) source.
Proof.
  unfold removes, select_mask. simpl. repeat split.
  - induction (axes source) as [|ax l IH]; simpl; constructor; [|exact IH].
    unfold axis_sub, compress_axis_levels.
    destruct (String.eqb (dim_name ax) dim); simpl; split; try reflexivity.
    + induction (levels ax) as [|lv ls IHl]; simpl; constructor; [|exact IHl].
      split; [reflexivity | apply compress_subseq].
    + induction (levels ax) as [|lv ls IHl]; constructor; [|exact IHl].
      split; [reflexivity | apply subseq_refl].
  - destruct (index_of dim (dims source));
      [apply compress_axis_nd_sub | apply nd_sub_refl].
Qed.

(** The level loop selects by some mask, whatever the levels are. *)
Lemma subset_levels_some_mask target dim (lvls : list string) :
  forall source r,
    subset_levels target dim source lvls = Ok r ->
    r = source \/ exists m, r = select_mask source dim m.
Proof.
  induction lvls as [|level lvls IH]; intros source r H; simpl in H.
  - injection H as <-. left. reflexivity.
  - apply bind_ok_inv in H as (cur & Hcur & H).
    apply IH in H. unfold subset_level in Hcur.
    destruct (hasattr source level); simpl in Hcur.
    + inv_ok Hcur. apply isel_np_where in Hcur. subst cur.
      right. destruct H as [->|[m ->]]; [eauto|].
      rewrite select_mask_compose. eauto.
    + injection Hcur as <-. exact H.
Qed.

Lemma subset_dim_some_mask target source dim r :
  subset_dim target source dim = Ok r ->
  r = source \/ exists m, r = select_mask source dim m.
Proof.
  unfold subset_dim. intros H. inv_ok H. injection H as <-.
  eapply subset_levels_some_mask; eassumption.
Qed.

Lemma subset_dims_loop_removes target (ds : list string) :
  forall source r,
    subset_dims_loop target source ds = Ok r ->
    removes r source
    /\ exists steps, subseq (map fst steps) ds
                     /\ r = select_masks source steps.
Proof.
  induction ds as [|dim ds IH]; intros source r H; simpl in H.
  - injection H as <-. split; [apply removes_refl|].
    exists []. split; [constructor | reflexivity].
  - apply bind_ok_inv in H as (cur & Hcur & H).
    apply IH in H as (Hrem & steps & Hsub & ->).
    apply subset_dim_some_mask in Hcur as [->|[m ->]].
    + split; [exact Hrem|]. exists steps. split; [constructor|]; auto.
    + split.
      * eapply removes_trans; [exact Hrem | apply select_mask_removes].
      * exists ((dim, m) :: steps). split; [constructor; exact Hsub|].
        reflexivity.
Qed.

(** C10.  [subset] only removes entries: for every source, target and
    list of subsetted dimensions, a result that [subset] returns is the
    source with entries left out (same dimensions and coordinate names,
    every coordinate array and the data a sub-sequence of the source's, so
    order is kept and nothing is repeated, changed or added), reached by
    one boolean-mask selection along each subsetted dimension at most. *)
Theorem subset_only_removes source target
        (subset_dims : option (list string)) r :
  subset source target subset_dims = Ok r ->
  removes r source
  /\ exists steps : list (string * list bool),
       subseq (map fst steps) (effective_dims target subset_dims)
       /\ r = select_masks source steps.
Proof.
  unfold subset. intros H.
  apply subset_dims_loop_removes in H. exact H.
Qed.

Lemma subset_dims_loop_app target (pre rest : list string) :
  forall source,
    subset_dims_loop target source (pre ++ rest)
    = (s1 <- subset_dims_loop target source pre ;;
       subset_dims_loop target s1 rest).
Proof.
  induction pre as [|d pre IH]; intros source; simpl; [reflexivity|].
  destruct (subset_dim target source d) as [cur|e]; simpl;
    [apply IH | reflexivity].
Qed.

Lemma subset_dim_length_mismatch target source dim s2 :
  subset_levels target dim source (level_names target dim) = Ok s2 ->
  axis_len target dim <> axis_len s2 dim ->
  subset_dim target source dim = Raise AssertionError.
Proof.
  intros Hlv Hlen. unfold subset_dim.
  destruct (mem dim (dims target)); simpl; [|reflexivity].
  destruct (mem dim (dims source)); simpl; [|reflexivity].
  destruct (existsb (hasattr source) (level_names target dim)); simpl;
    [|reflexivity].
  rewrite Hlv. simpl.
  apply Nat.eqb_neq in Hlen. rewrite Hlen. reflexivity.
Qed.

(** C1 (amended).  When [subset] on one dimension returns, the length of
    the result along that dimension equals the target's, and the result
    is the source restricted to the entries that the intersection of the
    per-level membership masks keeps: the entries whose label, for every
    level of the target's dimension that the source has too, occurs among
    the target's label values of that level.  The levels concerned lie
    along the subsetted dimension in the source. *)
Theorem subset_aligns_to_target source target dim r :
  (forall name, In name (level_names target dim) ->
                hasattr source name = true ->
                level_dim source name = Some dim) ->
  subset source target (Some [dim]) = Ok r ->
  let masks := present_masks source target (level_names target dim) in
  axis_len r dim = axis_len target dim
  /\ masks <> []
  /\ r = select_mask source dim (intersect_masks masks)
  /\ forall i, nth_error (intersect_masks masks) i = Some true
               <-> entry_in_target source target (level_names target dim) i.
Proof.
  intros Hon H masks. unfold subset in H. simpl in H.
  apply bind_ok_inv in H as (r' & H & Hr). injection Hr as ->.
  unfold subset_dim in H. inv_ok H. injection H as ->.
  apply assert_ok_inv in Hx1, Hx3.
  apply Nat.eqb_eq in Hx3.
  apply subset_levels_masks in Hx2; [|exact Hon].
  destruct Hx2 as [[Hnone _]|[Hne Hr]]; [congruence|].
  repeat split.
  - symmetry. exact Hx3.
  - exact Hne.
  - exact Hr.
  - apply intersect_present_masks. exact Hne.
  - apply intersect_present_masks. exact Hne.
Qed.

End SubsetTheorems.

(** C8.  Whenever, after the level-wise selection for a subsetted
    dimension, the length of the filtered source along it differs from the
    target's, [subset] raises (the failed [assert], an [AssertionError])
    and returns no tensor; [Similarity.__call__], which aligns with
    [subset] on ['presentation'] first, then raises it too, whatever
    [apply] is. *)
Theorem subset_length_mismatch_raises {V : Type}
        (source target : Assembly V) (pre post : list string) (dim : string)
        (s1 s2 : Assembly V) :
  subset_dims_loop target source pre = Ok s1 ->
  subset_levels target dim s1 (level_names target dim) = Ok s2 ->
  axis_len target dim <> axis_len s2 dim ->
  subset source target (Some (pre ++ dim :: post)) = Raise AssertionError
  /\ (pre = [] -> post = [] -> dim = "presentation"%string ->
      forall (C : Type) (N : Numeric C)
             (apply : Assembly V -> Assembly V -> result (SplitAssembly C)),
        Similarity_call (SimilarityWith apply) source target
        = Raise AssertionError).
Proof.
  intros Hpre Hlv Hlen.
  assert (Hloop : subset_dims_loop target source (pre ++ dim :: post)
                  = Raise AssertionError).
  { rewrite subset_dims_loop_app, Hpre. simpl.
    rewrite (subset_dim_length_mismatch _ _ _ _ Hlv Hlen). reflexivity. }
  split.
  - unfold subset. destruct pre; exact Hloop.
  - intros -> -> -> C N apply.
    apply Similarity_call_align_raises. exact Hloop.
Qed.


(** *** The theorems at example tensors *)

Lemma subset_only_removes_witness :
  removes Examples.source3_aligned Examples.source3
  /\ exists steps : list (string * list bool),
       subseq (map fst steps)
              (effective_dims Examples.target2 (Some ["presentation"%string]))
       /\ Examples.source3_aligned = select_masks Examples.source3 steps.
Proof.
  apply (subset_only_removes Examples.source3 Examples.target2
                             (Some ["presentation"%string])).
  reflexivity.
Defined.

Lemma subset_length_mismatch_witness :
  subset Examples.source3 Examples.target_uncovered
         (Some (@nil string ++ "presentation"%string :: []))
    = Raise AssertionError
  /\ (@nil string = [] -> @nil string = [] ->
      "presentation"%string = "presentation"%string ->
      forall (C : Type) (N : Numeric C)
             (apply : Assembly Z -> Assembly Z -> result (SplitAssembly C)),
        Similarity_call (SimilarityWith apply)
                        Examples.source3 Examples.target_uncovered
        = Raise AssertionError).
Proof.
  apply (subset_length_mismatch_raises
           Examples.source3 Examples.target_uncovered [] []
           "presentation"%string Examples.source3 Examples.source3_covered).
  - reflexivity.
  - reflexivity.
  - vm_compute. lia.
Defined.

Lemma subset_aligns_witness :
  let masks := present_masks Examples.source3 Examples.target2
                 (level_names Examples.target2 "presentation"%string) in
  axis_len Examples.source3_aligned "presentation"%string
  = axis_len Examples.target2 "presentation"%string
  /\ masks <> []
  /\ Examples.source3_aligned
     = select_mask Examples.source3 "presentation"%string
                   (intersect_masks masks)
  /\ forall i, nth_error (intersect_masks masks) i = Some true
               <-> entry_in_target Examples.source3 Examples.target2
                     (level_names Examples.target2 "presentation"%string) i.
Proof.
  apply (subset_aligns_to_target Examples.source3 Examples.target2
                                 "presentation"%string).
  - intros name Hin _. simpl in Hin.
    destruct Hin as [<-|[<-|[]]]; reflexivity.
  - reflexivity.
Defined.

(** C1, as stated, fails: source and target share the ['presentation']
    dimension and the image id [1], yet [subset] returns no tensor, the
    target holding a presentation that the source does not cover. *)
Lemma subset_uncovered_target_raises :
  mem "presentation"%string (dims Examples.source3) = true
  /\ mem "presentation"%string (dims Examples.target_uncovered) = true
  /\ (exists v, coord_values Examples.source3 "image_id"%string
                = Ok (map LInt [1; 2; 3]%Z)
                /\ coord_values Examples.target_uncovered "image_id"%string
                   = Ok (map LInt [1; 4]%Z)
                /\ In v (map LInt [1; 2; 3]%Z) /\ In v (map LInt [1; 4]%Z))
  /\ ~ (exists r, subset Examples.source3 Examples.target_uncovered
                         (Some ["presentation"%string]) = Ok r).
Proof.
  repeat split; try reflexivity.
  - exists (LInt 1). repeat split; simpl; auto.
  - intros [r H]. vm_compute in H. discriminate.
Qed.

(** ** [Similarity.__call__] *)

Section CallTheorems.
Context {V C : Type} `{Numeric C}.
Variable apply_method : Assembly V -> Assembly V -> result (SplitAssembly C).


(** The base class leaves [apply] unimplemented. *)
Lemma SimilarityBase_not_implemented (source target : Assembly V)
      (aligned sorted_source sorted_target : Assembly V) :
  subset source target (Some ["presentation"%string]) = Ok aligned ->
  sortby aligned "image_id" = Ok sorted_source ->
  sortby target "image_id" = Ok sorted_target ->
  Similarity_call (SimilarityBase (C := C)) source target
  = Raise NotImplementedError.
Proof.
  intros Ha Hs Ht. unfold Similarity_call, SimilarityBase, SimilarityWith,
    Similarity_align, Similarity_sort. simpl.
  rewrite Ha. simpl. rewrite Hs. simpl. rewrite Ht. reflexivity.
Qed.
End CallTheorems.

(** ** Scores *)

Section ScoreTheorems.
Context {C : Type} `{Numeric C}.

(** The base class [Score] leaves [get_center] unimplemented. *)
Lemma Score_base_not_implemented (values_assembly : SplitAssembly C) :
  Score_init ScoreBase values_assembly "split" = Raise NotImplementedError.
Proof. reflexivity. Qed.

End ScoreTheorems.



(** ** Ceiling normalisation *)

Section CeilScoreTheorems.
Import Brainscore.
Context {C : Type} `{Numeric C}.

Lemma np_where_from_absent (x : label) (l : list label) (k : nat) :
  ~ In x l -> np_where_from k (map (label_eqb x) l) = [].
Proof.
  revert k. induction l as [|y l IH]; intros k Hin; simpl; [reflexivity|].
  destruct (label_eqb x y) eqn:E.
  - apply label_eqb_eq in E. subst. exfalso. apply Hin. left. reflexivity.
  - apply IH. intros Hx. apply Hin. right. exact Hx.
Qed.

Lemma np_where_from_unique (x : label) (l : list label) (k : nat) :
  NoDup l -> In x l ->
  exists i, np_where_from k (map (label_eqb x) l) = [k + i]
            /\ i < List.length l
            /\ forall cs : list C, lookup_cell x l cs = nth_error cs i.
Proof.
  revert k. induction l as [|y l IH]; intros k Hnd Hin; [destruct Hin|].
  inversion Hnd as [|? ? Hy Hnd']; subst. simpl.
  destruct (label_eqb x y) eqn:E.
  - apply label_eqb_eq in E. subst y.
    rewrite np_where_from_absent by exact Hy.
    exists 0. rewrite Nat.add_0_r. split; [reflexivity|].
    split; [simpl; lia|]. intros [|c cs]; reflexivity.
  - destruct Hin as [->|Hin].
    + rewrite (proj2 (label_eqb_eq x x) eq_refl) in E. discriminate.
    + destruct (IH (S k) Hnd' Hin) as (i & Hw & Hlt & Hcs).
      exists (S i). rewrite Hw. split; [f_equal; lia|].
      split; [simpl; lia|]. intros [|c cs]; [reflexivity | apply Hcs].
Qed.

(** Selecting a split that the score holds once gives its cell. *)
Lemma sel_split_lookup (s : Score C) (split : label) :
  dim s = "split"%string -> NoDup (coord s) ->
  List.length (coord s) = List.length (cells s) ->
  In split (coord s) ->
  exists c, sel_split s split = Ok c
            /\ lookup_cell split (coord s) (cells s) = Some c.
Proof.
  intros Hdim Hnd Hlen Hin. unfold sel_split, split_values_of.
  rewrite Hdim. simpl. unfold positions_of, np_where.
  destruct (np_where_from_unique split (coord s) 0 Hnd Hin)
    as (i & -> & Hlt & Hcs).
  simpl. rewrite Hcs.
  destruct (nth_error (cells s) i) as [c|] eqn:E; [eauto|].
  apply nth_error_None in E. lia.
Qed.

Lemma mapM_Forall2 {A B : Type} (f : A -> result B) (P : A -> B -> Prop)
      (l : list A) :
  (forall x, In x l -> exists y, f x = Ok y /\ P x y) ->
  exists ys, mapM f l = Ok ys /\ Forall2 P l ys.
Proof.
  induction l as [|x l IH]; intros Hall; simpl.
  - exists []. split; [reflexivity | constructor].
  - destruct (Hall x (or_introl eq_refl)) as (y & Hy & HP).
    destruct IH as (ys & Hys & HF); [intros; apply Hall; right; assumption|].
    exists (y :: ys). rewrite Hy. simpl. rewrite Hys. simpl.
    split; [reflexivity | constructor; assumption].
Qed.

Lemma Forall2_weaken {A B : Type} (P Q : A -> B -> Prop)
      (l : list A) (l' : list B) :
  (forall x y, P x y -> Q x y) -> Forall2 P l l' -> Forall2 Q l l'.
Proof. intros HPQ HF. induction HF; constructor; auto. Qed.

Lemma Forall2_map_snd {A B D : Type} (P : A -> D -> Prop)
      (l : list A) (l' : list (B * D)) :
  Forall2 (fun x kv => P x (snd kv)) l l' -> Forall2 P l (map snd l').
Proof. intros HF. induction HF; simpl; constructor; auto. Qed.

Lemma Forall2_fst_eq {A B : Type} (P : A -> A * B -> Prop)
      (l : list A) (l' : list (A * B)) :
  (forall x kv, P x kv -> fst kv = x) ->
  Forall2 P l l' -> map fst l' = l.
Proof.
  intros HP HF. induction HF as [|x kv l l' Hx _ IH]; simpl;
    [reflexivity|]. rewrite (HP _ _ Hx), IH. reflexivity.
Qed.

Lemma set_eqb_true (xs ys : list label) :
  (forall x, In x xs <-> In x ys) -> set_eqb xs ys = true.
Proof.
  intros Heq. unfold set_eqb. apply andb_true_intro.
  split; apply forallb_forall; intros x Hx; apply contains_In, Heq, Hx.
Qed.

Lemma get_attr_set_attr_eq (s v : Score C) (key : string) :
  get_attr (set_attr s key v) key = Some v.
Proof.
  unfold get_attr, set_attr. simpl. rewrite String.eqb_refl. reflexivity.
Qed.

Lemma get_attr_set_attr_ne (s v : Score C) (key key' : string) :
  key <> key' ->
  get_attr (set_attr s key v) key' = get_attr s key'.
Proof.
  intros Hne. unfold get_attr, set_attr. simpl.
  apply String.eqb_neq in Hne. rewrite Hne. f_equal.
  induction (attrs s) as [|[k w] l IH]; simpl; [reflexivity|].
  destruct (String.eqb k key) eqn:E1; simpl.
  - apply String.eqb_eq in E1. subst k. rewrite Hne. exact IH.
  - destruct (String.eqb k key'); [reflexivity | exact IH].
Qed.

(** C2.  When the raw per-split values of [score] and of [ceiling] carry
    the same set of split identifiers (each identifier once), [ceil_score]
    computes, for each split of the ceiling, that split's raw score
    divided by the square root of that same split's ceiling value, hands
    these per-split values to the metric's aggregation, and returns the
    aggregate with the score it was given under the raw-values attribute
    and the ceiling under the ['ceiling'] attribute. *)
Theorem ceil_score_spec (aggregate : Score C -> result (Score C))
        (score ceiling score_raw ceiling_raw : Score C) :
  raw score = Ok score_raw ->
  raw ceiling = Ok ceiling_raw ->
  dim score_raw = "split"%string ->
  dim ceiling_raw = "split"%string ->
  NoDup (coord score_raw) ->
  NoDup (coord ceiling_raw) ->
  List.length (coord score_raw) = List.length (cells score_raw) ->
  List.length (coord ceiling_raw) = List.length (cells ceiling_raw) ->
  (forall split, In split (coord score_raw)
                 <-> In split (coord ceiling_raw)) ->
  exists ceiled : list C,
    Forall2 (fun split v =>
               exists s c,
                 lookup_cell split (coord score_raw) (cells score_raw)
                 = Some s
                 /\ lookup_cell split (coord ceiling_raw)
                                (cells ceiling_raw) = Some c
                 /\ v = ndiv s (nsqrt c))
            (coord ceiling_raw) ceiled
    /\ let per_split := MkScore "split" (coord ceiling_raw) ceiled [] in
       ceil_score aggregate score ceiling
       = (aggregated <- aggregate per_split ;;
          Ok (set_attr (set_attr (set_attr aggregated RAW_VALUES_KEY
                                           per_split)
                                 RAW_VALUES_KEY score)
                       "ceiling" ceiling))
       /\ forall r,
            ceil_score aggregate score ceiling = Ok r ->
            exists aggregated,
              aggregate per_split = Ok aggregated
              /\ dim r = dim aggregated
              /\ coord r = coord aggregated
              /\ cells r = cells aggregated
              /\ get_attr r RAW_VALUES_KEY = Some score
              /\ get_attr r "ceiling" = Some ceiling.
Proof.
  intros Hsr Hcr Hds Hdc Hnds Hndc Hls Hlc Hset.
  destruct (mapM_Forall2 (ceil_split score_raw ceiling_raw)
              (fun split (kv : label * C) =>
                 fst kv = split
                 /\ exists s c,
                      lookup_cell split (coord score_raw) (cells score_raw)
                      = Some s
                      /\ lookup_cell split (coord ceiling_raw)
                                     (cells ceiling_raw) = Some c
                      /\ snd kv = ndiv s (nsqrt c))
              (coord ceiling_raw)) as (kvs & Hkvs & HF).
  { intros split Hin. unfold ceil_split.
    destruct (sel_split_lookup score_raw split Hds Hnds Hls
                               (proj2 (Hset split) Hin)) as (s & -> & Hs).
    destruct (sel_split_lookup ceiling_raw split Hdc Hndc Hlc Hin)
      as (c & -> & Hc).
    simpl. eexists. split; [reflexivity|]. simpl. eauto 6. }
  assert (Hfst : map fst kvs = coord ceiling_raw).
  { apply Forall2_fst_eq with (P := fun split kv => fst kv = split).
    - auto.
    - eapply Forall2_weaken; [|exact HF]. intros x kv [Hk _]. exact Hk. }
  exists (map snd kvs). split.
  { apply Forall2_map_snd. eapply Forall2_weaken; [|exact HF].
    intros x kv [_ Hk]. exact Hk. }
  assert (Heq : ceil_score aggregate score ceiling
                = (aggregated <- aggregate
                                   (MkScore "split" (coord ceiling_raw)
                                            (map snd kvs) []) ;;
                   Ok (set_attr
                         (set_attr
                            (set_attr aggregated RAW_VALUES_KEY
                                      (MkScore "split" (coord ceiling_raw)
                                               (map snd kvs) []))
                            RAW_VALUES_KEY score)
                         "ceiling" ceiling))).
  { unfold ceil_score. rewrite Hsr. simpl.
    unfold split_values_of at 1. rewrite Hds. simpl.
    rewrite Hcr. simpl. unfold split_values_of. rewrite Hdc. simpl.
    rewrite (set_eqb_true _ _ Hset). simpl. rewrite Hkvs. simpl.
    unfold merge, apply_aggregate. rewrite Hfst.
    destruct (aggregate _); reflexivity. }
  cbv zeta. split; [exact Heq|].
  intros r Hr. rewrite Heq in Hr.
  apply bind_ok_inv in Hr as (aggregated & Hagg & Hr).
  injection Hr as <-. exists aggregated.
  split; [exact Hagg|]. split; [reflexivity|].
  split; [reflexivity|]. split; [reflexivity|]. split.
  - rewrite get_attr_set_attr_ne by discriminate.
    apply get_attr_set_attr_eq.
  - apply get_attr_set_attr_eq.
Qed.

(** Split identifiers that differ are fatal. *)
Lemma ceil_score_split_mismatch (aggregate : Score C -> result (Score C))
      (score ceiling score_raw ceiling_raw : Score C) :
  raw score = Ok score_raw ->
  raw ceiling = Ok ceiling_raw ->
  dim score_raw = "split"%string ->
  dim ceiling_raw = "split"%string ->
  set_eqb (coord score_raw) (coord ceiling_raw) = false ->
  ceil_score aggregate score ceiling = Raise AssertionError.
Proof.
  intros Hsr Hcr Hds Hdc Hne. unfold ceil_score. rewrite Hsr. simpl.
  unfold split_values_of at 1. rewrite Hds. simpl.
  rewrite Hcr. simpl. unfold split_values_of. rewrite Hdc. simpl.
  rewrite Hne. reflexivity.
Qed.
End CeilScoreTheorems.

(** ** The parametric protocol *)

Section ParametricTheorems.
Context {V C W : Type} `{Numeric C}.
Variable fit_values : Assembly V -> Assembly V -> W -> result W.
Variable predict_values : Assembly V -> W -> result (ndarray V).

(** [fit] records the target's neuroid ids once its checks have passed,
    whether [fit_values] then returns or raises. *)
Lemma fit_records (self : ParametricCVSimilarity W)
      (train_source train_target : Assembly V) (ids : list label) :
  fit_checks train_source train_target = Ok ids ->
  _target_neuroid_ids (snd (fit fit_values self train_source train_target))
  = Some ids.
Proof.
  intros Hc. unfold fit. rewrite Hc. simpl.
  destruct (fit_values train_source train_target (regression self));
    reflexivity.
Qed.

(** A [fit] whose checks fail leaves the instance as it was. *)
Lemma fit_rejected (self : ParametricCVSimilarity W)
      (train_source train_target : Assembly V) (e : exn) :
  fit_checks train_source train_target = Raise e ->
  fit fit_values self train_source train_target = (Raise e, self).
Proof. intros Hc. unfold fit. rewrite Hc. reflexivity. Qed.

Lemma fit_checks_neuroid_ids (train_source train_target : Assembly V)
      (ids : list label) :
  fit_checks train_source train_target = Ok ids ->
  coord_values train_target "neuroid_id" = Ok ids.
Proof. unfold fit_checks. intros Hc. inv_ok Hc. exact Hc. Qed.

Lemma modify_coord_levels (self : ParametricCVSimilarity W)
      (ids : list label) (ls ls' : list level) :
  _target_neuroid_ids self = Some ids ->
  mapM (modify_coord self) ls = Ok ls' ->
  match find is_neuroid_id ls' with
  | Some l' => level_values l' = ids
  | None => find is_neuroid_id ls = None
  end.
Proof.
  intros Hids Hm. apply mapM_ok_inv in Hm.
  induction Hm as [|l l' ls ls' Hl _ IH]; simpl; [reflexivity|].
  unfold modify_coord in Hl.
  destruct (is_neuroid_id l) eqn:E.
  - rewrite Hids in Hl. injection Hl as <-.
    unfold is_neuroid_id in E |- *. simpl. rewrite E. reflexivity.
  - injection Hl as <-. rewrite E. exact IH.
Qed.

Lemma find_some_existsb (ls : list level) (l : level) :
  find is_neuroid_id ls = Some l -> existsb is_neuroid_id ls = true.
Proof.
  induction ls as [|x ls IH]; simpl; [discriminate|].
  destruct (is_neuroid_id x); [reflexivity | exact IH].
Qed.

(** C9.  [predict] returns a tensor whose ['neuroid_id'] coordinate is
    the ['neuroid_id'] of the [train_target] of the latest [fit] that got
    to record it, whatever ids the test source carries and whatever an
    earlier [fit] had recorded: each such [fit] overwrites the recorded
    ids. *)
Theorem predict_attaches_recorded_ids (self : ParametricCVSimilarity W)
        (train_source train_target : Assembly V) (ids : list label) :
  fit_checks train_source train_target = Ok ids ->
  let fitted := snd (fit fit_values self train_source train_target) in
  _target_neuroid_ids fitted = Some ids
  /\ coord_values train_target "neuroid_id" = Ok ids
  /\ forall (test_source r : Assembly V),
       hasattr test_source "neuroid_id" = true ->
       predict predict_values fitted test_source = Ok r ->
       coord_values r "neuroid_id" = Ok ids.
Proof.
  intros Hc fitted.
  assert (Hids : _target_neuroid_ids fitted = Some ids)
    by (apply fit_records; exact Hc).
  split; [exact Hids|]. split; [eapply fit_checks_neuroid_ids; exact Hc|].
  clearbody fitted. intros test_source r Hhas Hp.
  unfold predict in Hp.
  apply bind_ok_inv in Hp as (u & Hdims & Hp).
  apply bind_ok_inv in Hp as (predicted & _ & Hp).
  apply bind_ok_inv in Hp as (coords & Hcoords & Hp).
  apply assert_ok_inv in Hdims. unfold dims_eqb in Hdims.
  destruct (list_eq_dec string_dec (dims test_source) presentation_neuroid)
    as [Hd|]; [clear Hdims | discriminate].
  unfold dims, presentation_neuroid in Hd.
  destruct (axes test_source) as [|ax1 [|ax2 [|ax3 rest]]] eqn:Haxes;
    try discriminate.
  simpl in Hd. injection Hd as Hn1 Hn2.
  simpl in Hcoords.
  apply bind_ok_inv in Hcoords as (a1 & Ha1 & Hcoords).
  apply bind_ok_inv in Hcoords as (a2s & Ha2 & Hcoords).
  apply bind_ok_inv in Ha2 as (a2 & Ha2 & Hnil).
  injection Hnil as <-. injection Hcoords as <-.
  apply bind_ok_inv in Ha1 as (ls1 & Hls1 & Ha1). injection Ha1 as <-.
  apply bind_ok_inv in Ha2 as (ls2 & Hls2 & Ha2). injection Ha2 as <-.
  pose proof (modify_coord_levels _ _ _ _ Hids Hls1) as H1.
  pose proof (modify_coord_levels _ _ _ _ Hids Hls2) as H2.
  assert (Hfind : forall levels2,
             (existsb is_neuroid_id ls2 = true -> levels2 = ls2) ->
             match find is_neuroid_id (ls1 ++ levels2 ++ []) with
             | Some l => Ok (level_values l)
             | None => Raise KeyError
             end = Ok ids).
  { intros levels2 Hl2. rewrite find_app_level.
    destruct (find is_neuroid_id ls1) as [l1|]; [congruence|].
    destruct (find is_neuroid_id ls2) as [l2|] eqn:E2.
    - rewrite (Hl2 (find_some_existsb _ _ E2)), app_nil_r, E2. congruence.
    - exfalso. unfold hasattr, find_level, all_levels in Hhas.
      rewrite Haxes in Hhas. simpl in Hhas.
      rewrite app_nil_r, find_app_level in Hhas.
      fold is_neuroid_id in Hhas. rewrite H1, H2 in Hhas. discriminate. }
  unfold coord_values, find_level, all_levels.
  fold is_neuroid_id.
  destruct (Nat.eqb _ 1).
  - apply bind_ok_inv in Hp as (res & Hres & Hp). injection Hp as <-.
    unfold NeuroidAssembly in Hres.
    destruct (sizes_ok 0 _ predicted); [|discriminate].
    injection Hres as <-. simpl.
    unfold restack at 1. simpl. rewrite Hn1. simpl.
    apply Hfind. intros Hex. unfold restack. simpl. rewrite Hn2. simpl.
    fold is_neuroid_id. rewrite Hex. reflexivity.
  - unfold NeuroidAssembly in Hp.
    destruct (sizes_ok 0 _ predicted); [|discriminate].
    injection Hp as <-. simpl. apply Hfind. reflexivity.
Qed.
End ParametricTheorems.

(** [zip] compares the common prefix only: arrays of one length pass the
    check exactly when they are equal. *)
Lemma zip_all_equal_same_length (xs ys : list label) :
  List.length xs = List.length ys ->
  (zip_all_equal xs ys = true <-> xs = ys).
Proof.
  revert ys. induction xs as [|x xs IH]; intros [|y ys] Hlen;
    simpl in *; try discriminate.
  - split; reflexivity.
  - injection Hlen as Hlen. rewrite andb_true_iff, label_eqb_eq, (IH ys Hlen).
    split; [intros [-> ->]; reflexivity | intros E; injection E; auto].
Qed.

(** A shorter array that is a prefix of the other passes the check. *)
Lemma zip_all_equal_prefix (xs rest : list label) :
  zip_all_equal (xs ++ rest) xs = true /\ zip_all_equal xs (xs ++ rest) = true.
Proof.
  induction xs as [|x xs [IH1 IH2]]; simpl.
  - split; [destruct rest|]; reflexivity.
  - rewrite (proj2 (label_eqb_eq x x) eq_refl), IH1, IH2. split; reflexivity.
Qed.

Section CompareTheorems.
Context {V C : Type} `{Numeric C}.
Variable correlation : ndarray V -> ndarray V -> result (C * C).


(** Arrays of image ids, or of neuroid ids, of one length that differ are
    fatal. *)
Lemma compare_prediction_mismatch (prediction target : Assembly V)
      (prediction_images target_images prediction_ids target_ids : list label) :
  coord_values prediction "image_id" = Ok prediction_images ->
  coord_values target "image_id" = Ok target_images ->
  coord_values prediction "neuroid_id" = Ok prediction_ids ->
  coord_values target "neuroid_id" = Ok target_ids ->
  List.length prediction_images = List.length target_images ->
  List.length prediction_ids = List.length target_ids ->
  prediction_images <> target_images \/ prediction_ids <> target_ids ->
  compare_prediction prediction target "neuroid_id" correlation
  = Raise AssertionError.
Proof.
  intros Hpi Hti Hpn Htn Hli Hln Hne. unfold compare_prediction.
  rewrite Hpi, Hti. simpl.
  destruct (zip_all_equal prediction_images target_images) eqn:Ei; simpl;
    [|reflexivity].
  rewrite Hpn, Htn. simpl.
  destruct (zip_all_equal prediction_ids target_ids) eqn:En; simpl;
    [|reflexivity].
  apply zip_all_equal_same_length in Ei; [|exact Hli].
  apply zip_all_equal_same_length in En; [|exact Hln].
  destruct Hne; contradiction.
Qed.
End CompareTheorems.

(** C4, at a prediction that carries one neuroid more than the target:
    the neuroid ids of prediction and target differ, the check of
    [compare_prediction] passes all the same ([zip] stops after the
    target's two ids), and the median over the target's two neuroids is
    returned. *)
Theorem compare_prediction_extra_neuroid :
  forall (C : Type) (N : Numeric C) (corr : ndarray Z -> ndarray Z -> C * C),
    coord_values Examples.prediction23 "neuroid_id"
    = Ok (Examples.ints [1; 2; 3]%Z)
    /\ coord_values Examples.target22 "neuroid_id" = Ok (Examples.ints [1; 2]%Z)
    /\ compare_prediction Examples.prediction23 Examples.target22
                          "neuroid_id" (fun t p => Ok (corr t p))
       = Ok (np_median
               [fst (corr (Array [Scalar 1%Z; Scalar 4%Z])
                          (Array [Scalar 1%Z; Scalar 4%Z]));
                fst (corr (Array [Scalar 2%Z; Scalar 5%Z])
                          (Array [Scalar 2%Z; Scalar 5%Z]))]).
Proof.
  intros C N corr. repeat split.
Qed.

(** *** The parametric theorems at example tensors *)

Lemma predict_attaches_witness :
  let fitted :=
    snd (fit Examples.fit_nothing (ParametricCVSimilarity_init tt)
             Examples.source3 Examples.target3) in
  _target_neuroid_ids fitted = Some (Examples.ints [7; 8]%Z)
  /\ coord_values Examples.target3 "neuroid_id" = Ok (Examples.ints [7; 8]%Z)
  /\ forall (test_source r : Assembly Z),
       hasattr test_source "neuroid_id" = true ->
       predict Examples.predict_source fitted test_source = Ok r ->
       coord_values r "neuroid_id" = Ok (Examples.ints [7; 8]%Z).
Proof.
  apply (predict_attaches_recorded_ids
           Examples.fit_nothing Examples.predict_source
           (ParametricCVSimilarity_init tt)
           Examples.source3 Examples.target3 (Examples.ints [7; 8]%Z)).
  reflexivity.
Defined.

(** [predict] on the source itself, after that [fit]: the ids 10 and 20 of
    the source give way to the recorded 7 and 8; after a second [fit], on
    the source as its own target, to 10 and 20 again. *)
Example predict_after_fit :
  let fitted :=
    snd (fit Examples.fit_nothing (ParametricCVSimilarity_init tt)
             Examples.source3 Examples.target3) in
  let refitted :=
    snd (fit Examples.fit_nothing fitted Examples.source3 Examples.source3) in
  (r <- predict Examples.predict_source fitted Examples.source3 ;;
   coord_values r "neuroid_id") = Ok (Examples.ints [7; 8]%Z)
  /\ (r <- predict Examples.predict_source refitted Examples.source3 ;;
      coord_values r "neuroid_id") = Ok (Examples.ints [10; 20]%Z).
Proof. split; reflexivity. Qed.

Lemma ceil_score_witness :
  exists ceiled : list R,
    Forall2 (fun split v =>
               exists s c,
                 Brainscore.lookup_cell split
                   (Brainscore.coord Examples.raw_scores)
                   (Brainscore.cells Examples.raw_scores) = Some s
                 /\ Brainscore.lookup_cell split
                      (Brainscore.coord Examples.raw_ceilings)
                      (Brainscore.cells Examples.raw_ceilings) = Some c
                 /\ v = ndiv s (nsqrt c))
            (Brainscore.coord Examples.raw_ceilings) ceiled
    /\ let per_split :=
         Brainscore.MkScore "split" (Brainscore.coord Examples.raw_ceilings)
                            ceiled [] in
       Brainscore.ceil_score Examples.mean_aggregate Examples.example_score
                             Examples.example_ceiling
       = (aggregated <- Examples.mean_aggregate per_split ;;
          Ok (Brainscore.set_attr
                (Brainscore.set_attr
                   (Brainscore.set_attr aggregated Brainscore.RAW_VALUES_KEY
                                        per_split)
                   Brainscore.RAW_VALUES_KEY Examples.example_score)
                "ceiling" Examples.example_ceiling))
       /\ forall r,
            Brainscore.ceil_score Examples.mean_aggregate
                                  Examples.example_score
                                  Examples.example_ceiling = Ok r ->
            exists aggregated,
              Examples.mean_aggregate per_split = Ok aggregated
              /\ Brainscore.dim r = Brainscore.dim aggregated
              /\ Brainscore.coord r = Brainscore.coord aggregated
              /\ Brainscore.cells r = Brainscore.cells aggregated
              /\ Brainscore.get_attr r Brainscore.RAW_VALUES_KEY
                 = Some Examples.example_score
              /\ Brainscore.get_attr r "ceiling"
                 = Some Examples.example_ceiling.
Proof.
  apply (ceil_score_spec Examples.mean_aggregate
           Examples.example_score Examples.example_ceiling
           Examples.raw_scores Examples.raw_ceilings).
  - reflexivity.
  - reflexivity.
  - reflexivity.
  - reflexivity.
  - repeat constructor; simpl; intuition discriminate.
  - repeat constructor; simpl; intuition discriminate.
  - reflexivity.
  - reflexivity.
  - intros split. simpl. tauto.
Defined.

(** ** The checks of [cross_apply] *)

Lemma tuple_eqb_eq (t1 t2 : tuple) : tuple_eqb t1 t2 = true <-> t1 = t2.
Proof.
  revert t2. induction t1 as [|x t1 IH]; intros [|y t2]; simpl;
    try (split; [discriminate | discriminate]).
  - split; reflexivity.
  - rewrite andb_true_iff, label_eqb_eq, IH.
    split; [intros [-> ->]; reflexivity | intros E; injection E; auto].
Qed.

Lemma tuple_eqb_refl (t : tuple) : tuple_eqb t t = true.
Proof. apply tuple_eqb_eq. reflexivity. Qed.

Lemma map2_tuple_eqb_same (l : list tuple) :
  py_all (map2 tuple_eqb l l) = true.
Proof.
  induction l as [|t l IH]; simpl; [reflexivity|].
  rewrite tuple_eqb_refl. exact IH.
Qed.

Lemma position_tuple_mem (t : tuple) (l : list tuple) :
  tuple_mem t l = true ->
  exists i, position t l = Some i /\ nth_error l i = Some t.
Proof.
  unfold tuple_mem. induction l as [|x l IH]; simpl; [discriminate|].
  destruct (tuple_eqb t x) eqn:E; simpl.
  - intros _. apply tuple_eqb_eq in E. subst x. exists 0. auto.
  - intros Hm. destruct (IH Hm) as (i & -> & Hn). exists (S i). auto.
Qed.

(** Reindexing an index by labels it holds gives back these labels. *)
Lemma reindex_index (idx joined : list tuple) :
  (forall t, In t joined -> tuple_mem t idx = true) ->
  da_values (reindex (MkDataArray idx idx) joined) = joined.
Proof.
  unfold reindex. simpl.
  induction joined as [|t joined IH]; intros Hall; simpl; [reflexivity|].
  destruct (position_tuple_mem t idx (Hall t (or_introl eq_refl)))
    as (i & -> & ->).
  simpl. f_equal. apply IH. intros t' Ht'. apply Hall. right. exact Ht'.
Qed.

Lemma tuples_eqb_eq (l1 l2 : list tuple) : tuples_eqb l1 l2 = true -> l1 = l2.
Proof.
  revert l2. induction l1 as [|x l1 IH]; intros [|y l2]; simpl;
    try discriminate; [reflexivity|].
  rewrite andb_true_iff, tuple_eqb_eq. intros [-> Hl]. f_equal. auto.
Qed.

(** Two indexes never compare unequal: after the alignment that [==]
    starts with, both operands hold the labels they have in common. *)
Lemma xr_equal_indexes (idx1 idx2 : list tuple) :
  xr_equal (MkDataArray idx1 idx1) (MkDataArray idx2 idx2) = Raise ValueError
  \/ exists eq, xr_equal (MkDataArray idx1 idx1) (MkDataArray idx2 idx2)
                = Ok eq /\ py_all eq = true.
Proof.
  unfold xr_equal, xr_align_inner. cbn [da_index da_values].
  destruct (tuples_eqb idx1 idx2) eqn:E.
  - right. apply tuples_eqb_eq in E. subst idx2. cbn [bind fst snd da_values].
    eexists. split; [reflexivity | apply map2_tuple_eqb_same].
  - destruct (has_duplicates idx1 || has_duplicates idx2); [left; reflexivity|].
    right. cbn [bind fst snd]. eexists. split; [reflexivity|].
    rewrite !reindex_index.
    + apply map2_tuple_eqb_same.
    + intros t Ht. apply filter_In in Ht. apply Ht.
    + intros t Ht. apply filter_In in Ht. destruct Ht as [Ht _].
      unfold tuple_mem. apply existsb_exists. exists t.
      split; [exact Ht | apply tuple_eqb_refl].
Qed.

(** The first assertion of [cross_apply] cannot fail: on the dimension
    itself, the comparison either raises in the alignment or holds. *)
Lemma assert_all_equal_dim {V : Type} (source target : Assembly V)
      (dim : string) (axs axt : axis) :
  find_axis source dim = Some axs ->
  find_axis target dim = Some axt ->
  assert_all_equal source target dim = Ok tt
  \/ assert_all_equal source target dim = Raise ValueError.
Proof.
  intros Hs Ht. unfold assert_all_equal, getitem. rewrite Hs, Ht. simpl.
  destruct (xr_equal_indexes (index_tuples axs) (index_tuples axt))
    as [->|(eq & -> & Hall)]; simpl; [right; reflexivity|].
  rewrite Hall. left. reflexivity.
Qed.

(** C7, at two slices that hold the same presentations in opposite orders:
    the image ids and the object names differ at each position, both
    assertions of [cross_apply] pass (the comparison aligns its operands on
    their index first), and [cross_apply] goes on to generate the splits
    and returns a result. *)
Theorem cross_apply_misordered_passes :
  coord_values Examples.source_ordered "image_id" = Ok (Examples.ints [1; 2]%Z)
  /\ coord_values Examples.target_reversed "image_id"
     = Ok (Examples.ints [2; 1]%Z)
  /\ coord_values Examples.source_ordered "object_name"
     = Ok (Examples.strs ["a"; "b"]%string)
  /\ coord_values Examples.target_reversed "object_name"
     = Ok (Examples.strs ["b"; "a"]%string)
  /\ cross_apply_checks Examples.source_ordered Examples.target_reversed
     = Ok tt
  /\ cross_apply Examples.one_split Examples.constant_split tt
                 Examples.source_ordered Examples.target_reversed
     = (Ok (MkSimilarityAssembly
              [("split"%string, Coord1 "split" [[LInt 0]])]
              (MkSplitAssembly [0] [1%Z])),
        tt).
Proof. repeat split. Qed.

(** ** Adjacent decomposition *)



Lemma insert_sorted_perm {A : Type} (leb : A -> A -> bool) (x : A)
      (l : list A) :
  Permutation (insert_sorted leb x l) (x :: l).
Proof.
  induction l as [|y l IH]; simpl; [reflexivity|].
  destruct (leb x y); [reflexivity|].
  rewrite IH. apply perm_swap.
Qed.

(** The sort only reorders. *)
Lemma stable_sort_perm {A : Type} (leb : A -> A -> bool) (l : list A) :
  Permutation (stable_sort leb l) l.
Proof.
  unfold stable_sort. induction l as [|x l IH]; simpl; [reflexivity|].
  rewrite insert_sorted_perm. constructor. exact IH.
Qed.

Lemma dedup_In (t : tuple) (l : list tuple) : In t (dedup l) <-> In t l.
Proof.
  induction l as [|x l IH]; simpl; [reflexivity|].
  rewrite filter_In, IH. split.
  - intros [E|[Hin _]]; auto.
  - intros [E|Hin]; [auto|].
    destruct (tuple_eqb x t) eqn:E.
    + left. apply tuple_eqb_eq. exact E.
    + right. auto.
Qed.


(** [np.unique] lists every value of the array, each once. *)
Lemma np_unique_In (t : tuple) (l : list tuple) :
  In t (np_unique l) <-> In t l.
Proof.
  unfold np_unique. split; intros Hin.
  - apply dedup_In. eapply Permutation_in; [apply stable_sort_perm|exact Hin].
  - eapply Permutation_in; [symmetry; apply stable_sort_perm|].
    apply dedup_In. exact Hin.
Qed.



Lemma combinations_names (choices : list (string * list tuple))
      (c : list (string * tuple)) :
  In c (combinations choices) -> map fst c = map fst choices.
Proof.
  revert c. induction choices as [|[d vs] choices IH]; intros c; simpl.
  - intros [<-|[]]. reflexivity.
  - intros Hin. apply in_flat_map in Hin as (v & _ & Hin).
    apply in_map_iff in Hin as (c' & <- & Hc'). simpl. f_equal. auto.
Qed.


Section ApplyTheorems.
Context {V C Self : Type}.
Variable cross_apply_method :
  Self -> Assembly V -> Assembly V -> result (SimilarityAssembly C) * Self.
Variable cell_eqb : C -> C -> bool.


Lemma adjacent_selections_names (assembly : Assembly V)
      (adj : list (string * tuple)) :
  In adj (adjacent_selections similarity_dims assembly) ->
  map fst adj = adjacent_names assembly.
Proof.
  unfold adjacent_selections, adjacent_names. intros Hin.
  rewrite (combinations_names _ _ Hin), map_map. reflexivity.
Qed.

End ApplyTheorems.

(** *** The merge of labelled results *)

Lemma lookup_app_l {A : Type} (key : string) (d1 d2 : list (string * A)) :
  In key (map fst d1) -> lookup key (d1 ++ d2) = lookup key d1.
Proof.
  induction d1 as [|[k v] d1 IH]; simpl; [intros []|].
  destruct (String.eqb k key) eqn:E; [reflexivity|].
  intros [Hk|Hin]; [|exact (IH Hin)].
  subst. rewrite String.eqb_refl in E. discriminate.
Qed.

Lemma lookup_app_r {A : Type} (key : string) (d1 d2 : list (string * A)) :
  ~ In key (map fst d1) -> lookup key (d1 ++ d2) = lookup key d2.
Proof.
  induction d1 as [|[k v] d1 IH]; simpl; [reflexivity|].
  intros Hn. destruct (String.eqb k key) eqn:E.
  - apply String.eqb_eq in E. exfalso. apply Hn. left. exact E.
  - apply IH. intros Hin. apply Hn. right. exact Hin.
Qed.



Lemma In_lookup {A : Type} (key : string) (pos : list (string * A)) (v : A) :
  NoDup (map fst pos) -> In (key, v) pos -> lookup key pos = Some v.
Proof.
  induction pos as [|[k w] pos IH]; simpl; intros Hnd; [intros []|].
  inversion Hnd as [|? ? Hk Hnd']; subst.
  intros [E|Hin].
  - injection E as -> ->. rewrite String.eqb_refl. reflexivity.
  - destruct (String.eqb k key) eqn:E; [|auto].
    apply String.eqb_eq in E. subst. exfalso. apply Hk.
    apply in_map_iff. exists (key, v). auto.
Qed.







Section MergeTheorems.
Context {C : Type}.
Variable cell_eqb : C -> C -> bool.


Variables (assembly_dims names1 names2 : list string) (n : nat).
Variable pairs : list (list (string * tuple) * list (string * tuple)).
Variable sims : list (SimilarityAssembly C).

Hypothesis Hlabelled : Forall2 (labelled assembly_dims n) pairs sims.
Hypothesis Hnames :
  forall adj, In adj pairs ->
              map fst (fst adj) = names1 /\ map fst (snd adj) = names2.
Hypothesis Hdistinct : NoDup (names1 ++ names2).
Hypothesis Hsplit : ~ In "split"%string (names1 ++ names2).




End MergeTheorems.





Section CoverTheorems.
Context {C : Type}.
Variable cell_eqb : C -> C -> bool.
Variables (assembly_dims : list string) (n : nat).
Variables choices1 choices2 : list (string * list tuple).
Variable sims : list (SimilarityAssembly C).

Local Abbreviation pairs :=
  (list_prod (combinations choices1) (combinations choices2)).

Hypothesis Hlabelled : Forall2 (labelled assembly_dims n) pairs sims.
Hypothesis Hdistinct : NoDup (map fst choices1 ++ map fst choices2).
Hypothesis Hsplit : ~ In "split"%string (map fst choices1 ++ map fst choices2).
Hypothesis Hvalues : Forall (fun ch => NoDup (snd ch)) (choices1 ++ choices2).



End CoverTheorems.


(** *** [apply] at example tensors *)


(** The results of [cross_apply] for these tensors are labelled: the names
    of the adjacent dimensions are distinct, and each result carries the
    labels of its pair. *)
Example apply_layers_bins_labelled :
  let pairs :=
    list_prod (adjacent_selections similarity_dims Examples.source_layers)
              (adjacent_selections similarity_dims Examples.target_bins) in
  NoDup (adjacent_names Examples.source_layers
         ++ adjacent_names Examples.target_bins)
  /\ ~ In "split"%string (adjacent_names Examples.source_layers
                          ++ adjacent_names Examples.target_bins)
  /\ exists similarities,
       cross_apply_pairs Examples.cross_apply_once tt Examples.source_layers
                         Examples.target_bins pairs = (Ok similarities, tt)
       /\ Forall2 (labelled (dims Examples.source_layers
                             ++ dims Examples.target_bins
                             ++ ["split"%string]) 1) pairs similarities.
Proof.
  split; [|split].
  - vm_compute. repeat constructor; simpl; intuition discriminate.
  - vm_compute. intuition discriminate.
  - eexists. split; [vm_compute; reflexivity|].
    vm_compute. repeat constructor.
Qed.


(** ** Sorting by a coordinate *)

Lemma label_leb_total (a b : label) :
  label_leb a b = true \/ label_leb b a = true.
Proof.
  destruct a as [x|x], b as [y|y]; simpl; auto.
  - destruct (Z.leb_spec x y); [left; reflexivity|].
    right. apply Z.leb_le. lia.
  - apply String.leb_total.
Qed.

Section SortedInsert.
Context {A : Type}.
Variable leb : A -> A -> bool.
Hypothesis leb_total : forall x y, leb x y = true \/ leb y x = true.

Local Abbreviation le := (fun x y : A => leb x y = true).

Lemma insert_sorted_HdRel (x y : A) (l : list A) :
  le y x -> HdRel le y l -> HdRel le y (insert_sorted leb x l).
Proof.
  intros Hyx Hl. destruct l as [|z l]; simpl; [constructor; exact Hyx|].
  destruct (leb x z); constructor; [exact Hyx|].
  inversion Hl; assumption.
Qed.

Lemma insert_sorted_Sorted (x : A) (l : list A) :
  Sorted le l -> Sorted le (insert_sorted leb x l).
Proof.
  induction 1 as [|y l Hl IH Hy]; simpl; [repeat constructor|].
  destruct (leb x y) eqn:E.
  - constructor; [constructor; assumption | constructor; exact E].
  - constructor; [exact IH|]. apply insert_sorted_HdRel; [|exact Hy].
    destruct (leb_total x y) as [H|H]; [congruence | exact H].
Qed.

(** The sort puts the elements in ascending order. *)
Lemma stable_sort_Sorted (l : list A) : Sorted le (stable_sort leb l).
Proof.
  unfold stable_sort. induction l as [|x l IH]; simpl; [constructor|].
  apply insert_sorted_Sorted. exact IH.
Qed.
End SortedInsert.

Lemma in_combine_seq {A : Type} (l : list A) (start : nat) (v : A) (i : nat) :
  In (v, i) (combine l (seq start (List.length l))) ->
  start <= i /\ nth_error l (i - start) = Some v.
Proof.
  revert start. induction l as [|x l IH]; intros start; simpl; [intros []|].
  intros [E|Hin].
  - injection E as -> ->. rewrite Nat.sub_diag. split; [lia | reflexivity].
  - destruct (IH (S start) Hin) as [Hle Hn]. split; [lia|].
    replace (i - start) with (S (i - S start)) by lia. exact Hn.
Qed.

Lemma take_pairs {A : Type} (l : list A) (ps : list (A * nat)) :
  (forall v i, In (v, i) ps -> nth_error l i = Some v) ->
  take l (map snd ps) = Ok (map fst ps).
Proof.
  unfold take. induction ps as [|[v i] ps IH]; intros Hall; simpl;
    [reflexivity|].
  rewrite (Hall v i (or_introl eq_refl)). simpl.
  rewrite IH; [reflexivity|]. intros; apply Hall; right; assumption.
Qed.

Lemma map_fst_combine_length {A B : Type} (l : list A) (l' : list B) :
  List.length l = List.length l' -> map fst (combine l l') = l.
Proof.
  revert l'. induction l as [|x l IH]; intros [|y l']; simpl;
    try discriminate; [reflexivity|].
  intros E. injection E as E. f_equal. auto.
Qed.

Lemma Sorted_map_fst {A B : Type} (R : A -> A -> Prop) (ps : list (A * B)) :
  Sorted (fun x y => R (fst x) (fst y)) ps -> Sorted R (map fst ps).
Proof.
  induction 1 as [|p ps _ IH Hp]; simpl; constructor; [exact IH|].
  destruct Hp; simpl; constructor; assumption.
Qed.

(** Taking the keys in the order of [argsort] gives them in ascending
    order, each as often as before. *)
Lemma take_argsort (keys : list label) :
  exists sorted,
    take keys (argsort keys) = Ok sorted
    /\ Sorted (fun x y => label_leb x y = true) sorted
    /\ Permutation sorted keys.
Proof.
  unfold argsort.
  set (leb := fun x y : label * nat => label_leb (fst x) (fst y)).
  set (ps := combine keys (seq 0 (List.length keys))).
  exists (map fst (stable_sort leb ps)). split; [|split].
  - apply take_pairs. intros v i Hin.
    apply (Permutation_in _ (stable_sort_perm leb ps)) in Hin.
    apply in_combine_seq in Hin as [_ Hn]. rewrite Nat.sub_0_r in Hn.
    exact Hn.
  - apply Sorted_map_fst with (R := fun x y => label_leb x y = true).
    apply (stable_sort_Sorted leb).
    intros x y. apply label_leb_total.
  - rewrite (Permutation_map fst (stable_sort_perm leb ps)).
    unfold ps. rewrite map_fst_combine_length; [reflexivity|].
    rewrite length_seq. reflexivity.
Qed.

Section SortByProps.
Context {V : Type}.

Lemma take_levels_find (idx : list nat) (name : string)
      (ls ls' : list level) :
  Forall2 (fun l l' => take_level idx l = Ok l') ls ls' ->
  match find (fun l => String.eqb (level_name l) name) ls with
  | Some l =>
      exists l', find (fun l => String.eqb (level_name l) name) ls' = Some l'
                 /\ take (level_values l) idx = Ok (level_values l')
  | None => find (fun l => String.eqb (level_name l) name) ls' = None
  end.
Proof.
  induction 1 as [|l l' ls ls' Hl _ IH]; simpl; [reflexivity|].
  unfold take_level in Hl. apply bind_ok_inv in Hl as (vals & Hvals & Hl).
  injection Hl as <-. simpl.
  destruct (String.eqb (level_name l) name); [|exact IH].
  exists (Level (level_name l) vals). auto.
Qed.

(** After [isel] along the dimension of a coordinate, the coordinate holds
    its former labels at the selected positions. *)
Lemma isel_coord_values (a r : Assembly V) (dim name : string)
      (idx : list nat) (l : level) :
  isel a dim idx = Ok r ->
  level_dim a name = Some dim ->
  find_level a name = Some l ->
  exists vals, coord_values r name = Ok vals
               /\ take (level_values l) idx = Ok vals.
Proof.
  unfold isel. intros Hr. apply bind_ok_inv in Hr as (axes' & Haxes & Hr).
  apply bind_ok_inv in Hr as (data' & _ & Hr). injection Hr as <-.
  unfold coord_values, level_dim, find_level, all_levels. simpl.
  apply mapM_ok_inv in Haxes.
  induction Haxes as [|ax ax' axs axs' Hax _ IH]; simpl; [discriminate|].
  rewrite !find_app_level.
  unfold take_axis_levels in Hax.
  destruct (existsb (fun l0 => String.eqb (level_name l0) name) (levels ax))
    eqn:E.
  - simpl. intros Hd. injection Hd as Hd. rewrite Hd, String.eqb_refl in Hax.
    apply bind_ok_inv in Hax as (ls' & Hls & Hax). injection Hax as <-.
    apply mapM_ok_inv in Hls. simpl.
    pose proof (take_levels_find idx name _ _ Hls) as Hfind.
    apply find_existsb_some in E as [l0 E]. rewrite E in Hfind |- *.
    destruct Hfind as (l' & -> & Htake).
    intros Hl. injection Hl as <-. eauto.
  - intros Hd Hl. apply find_existsb_none in E. rewrite E in Hl.
    assert (E' : find (fun l0 => String.eqb (level_name l0) name) (levels ax')
                 = None).
    { destruct (String.eqb (dim_name ax) dim).
      - apply bind_ok_inv in Hax as (ls' & Hls & Hax). injection Hax as <-.
        apply mapM_ok_inv in Hls. simpl.
        pose proof (take_levels_find idx name _ _ Hls) as Hfind.
        rewrite E in Hfind. exact Hfind.
      - injection Hax as <-. exact E. }
    rewrite E'. apply IH; assumption.
Qed.

(** Whenever [sortby] returns, the coordinate it sorted by is in ascending
    order and holds the labels it held before. *)
Lemma sortby_sorted (a r : Assembly V) (name : string) (keys : list label) :
  coord_values a name = Ok keys ->
  sortby a name = Ok r ->
  exists sorted,
    coord_values r name = Ok sorted
    /\ Sorted (fun x y => label_leb x y = true) sorted
    /\ Permutation sorted keys.
Proof.
  unfold sortby, coord_values at 1. intros Hk Hs.
  destruct (find_level a name) as [l|] eqn:El; [|discriminate].
  injection Hk as <-.
  destruct (level_dim a name) as [dim|] eqn:Ed; [|discriminate].
  destruct (isel_coord_values _ _ _ _ _ _ Hs Ed El) as (vals & Hv & Ht).
  destruct (take_argsort (level_values l)) as (sorted & Ht' & Hsorted & Hperm).
  rewrite Ht in Ht'. injection Ht' as ->. eauto.
Qed.
End SortByProps.

(** * Further properties *)

(** ** Selections that return *)

Lemma mapM_ok_map {A B : Type} (f : A -> result B) (g : A -> B) (l : list A) :
  (forall x, In x l -> f x = Ok (g x)) -> mapM f l = Ok (map g l).
Proof.
  induction l as [|x l IH]; intros Hall; simpl; [reflexivity|].
  rewrite (Hall x (or_introl eq_refl)). simpl.
  rewrite IH; [reflexivity|]. intros y Hy. apply Hall. right. exact Hy.
Qed.

Lemma mapM_ok_exists {A B : Type} (f : A -> result B) (l : list A) :
  (forall x, In x l -> exists y, f x = Ok y) -> exists ys, mapM f l = Ok ys.
Proof.
  induction l as [|x l IH]; intros Hall; simpl; [eauto|].
  destruct (Hall x (or_introl eq_refl)) as [y ->]. simpl.
  destruct IH as [ys ->]; [intros z Hz; apply Hall; right; exact Hz|].
  simpl. eauto.
Qed.

(** Indices in range are taken. *)
Lemma take_in_range {A : Type} (xs : list A) (idx : list nat) :
  Forall (fun i => i < List.length xs) idx -> exists ys, take xs idx = Ok ys.
Proof.
  intros Hall. unfold take. apply mapM_ok_exists. intros i Hi.
  rewrite Forall_forall in Hall. specialize (Hall i Hi).
  destruct (nth_error xs i) as [x|] eqn:E; [eauto|].
  apply nth_error_None in E. lia.
Qed.

Lemma take_length {A : Type} (xs : list A) (idx : list nat) (ys : list A) :
  take xs idx = Ok ys -> List.length ys = List.length idx.
Proof.
  unfold take. intros H. apply mapM_ok_inv in H.
  induction H; simpl; auto.
Qed.

Lemma take_np_where_ok {A : Type} (xs : list A) (m : list bool) :
  List.length m <= List.length xs -> take xs (np_where m) = Ok (compress m xs).
Proof.
  intros Hlen. destruct (take_in_range xs (np_where m)) as [ys Hys].
  - eapply Forall_impl; [|apply np_where_in_range]. simpl. intros; lia.
  - rewrite Hys. f_equal. apply take_np_where. exact Hys.
Qed.

Lemma has_size_take_axis {V : Type} (a : ndarray V) :
  forall (k n : nat) (idx : list nat),
    has_size k n a = true -> Forall (fun i => i < n) idx ->
    exists a', take_axis k idx a = Ok a'.
Proof.
  induction a as [v|items IH] using ndarray_nested_ind; intros k n idx Hs Hidx.
  - simpl in Hs. discriminate.
  - destruct k as [|k]; simpl in Hs |- *.
    + apply Nat.eqb_eq in Hs. subst n.
      destruct (take_in_range items idx Hidx) as [ys ->]. simpl. eauto.
    + destruct (mapM_ok_exists (take_axis k idx) items) as [ys ->];
        [|simpl; eauto].
      intros x Hx. rewrite Forall_forall in IH.
      rewrite forallb_forall in Hs. eapply IH; eauto.
Qed.

Lemma take_axis_np_where_ok {V : Type} (a : ndarray V) (k n : nat)
      (m : list bool) :
  has_size k n a = true -> List.length m <= n ->
  take_axis k (np_where m) a = Ok (compress_axis k m a).
Proof.
  intros Hs Hlen.
  destruct (has_size_take_axis a k n (np_where m) Hs) as [a' Ha'].
  - eapply Forall_impl; [|apply np_where_in_range]. simpl. intros; lia.
  - rewrite Ha'. f_equal. eapply take_axis_np_where. exact Ha'.
Qed.

(** ** Well-formed tensors *)

Lemma mem_In (s : string) (l : list string) : mem s l = true <-> In s l.
Proof.
  unfold mem. rewrite existsb_exists. split.
  - intros (x & Hx & E). apply String.eqb_eq in E. subst. exact Hx.
  - intros H. exists s. split; [exact H | apply String.eqb_refl].
Qed.

Lemma distinct_NoDup (l : list string) : distinct l = true <-> NoDup l.
Proof.
  induction l as [|x l IH]; simpl.
  - split; [constructor | reflexivity].
  - rewrite andb_true_iff, negb_true_iff, IH. split.
    + intros [Hx Hl]. constructor; [|exact Hl].
      intros Hin. apply mem_In in Hin. congruence.
    + intros Hnd. inversion Hnd as [|? ? Hx Hl]; subst. split; [|exact Hl].
      destruct (mem x l) eqn:E; [|reflexivity].
      apply mem_In in E. contradiction.
Qed.

Lemma NoDup_map_eq {A B : Type} (f : A -> B) (l : list A) (x y : A) :
  NoDup (map f l) -> In x l -> In y l -> f x = f y -> x = y.
Proof.
  induction l as [|z l IH]; simpl; intros Hnd Hx Hy E; [destruct Hx|].
  inversion Hnd as [|? ? Hz Hl]; subst.
  destruct Hx as [->|Hx], Hy as [->|Hy]; auto.
  - exfalso. apply Hz. rewrite E. apply in_map. exact Hy.
  - exfalso. apply Hz. rewrite <- E. apply in_map. exact Hx.
Qed.

Lemma compress_length {A B : Type} (m : list bool) (xs : list A) (ys : list B) :
  List.length xs = List.length ys ->
  List.length (compress m xs) = List.length (compress m ys).
Proof.
  revert xs ys. induction m as [|b m IH]; intros [|x xs] [|y ys] E;
    simpl in *; try discriminate; try reflexivity.
  injection E as E. destruct b; simpl; [f_equal|]; apply IH; exact E.
Qed.

Lemma compress_In {A : Type} (m : list bool) (xs : list A) (x : A) :
  In x (compress m xs) -> In x xs.
Proof.
  revert xs. induction m as [|b m IH]; intros [|y xs]; simpl; try tauto.
  destruct b; simpl; [intros [E|H]; auto | auto].
Qed.

Lemma has_size_compress_same {V A : Type} (a : ndarray V) :
  forall (k n : nat) (m : list bool) (xs : list A),
    has_size k n a = true -> List.length xs = n ->
    has_size k (List.length (compress m xs)) (compress_axis k m a) = true.
Proof.
  induction a as [v|items IH] using ndarray_nested_ind; intros k n m xs Hs Hn.
  - simpl in Hs. discriminate.
  - destruct k as [|k]; simpl in Hs |- *.
    + apply Nat.eqb_eq in Hs. apply Nat.eqb_eq.
      apply compress_length. congruence.
    + rewrite forallb_forall in Hs |- *. intros x Hx.
      apply in_map_iff in Hx as (y & <- & Hy).
      rewrite Forall_forall in IH. eapply IH; eauto.
Qed.

Lemma has_size_compress_other {V : Type} (a : ndarray V) :
  forall (j k n : nat) (m : list bool),
    j <> k -> has_size j n a = true ->
    has_size j n (compress_axis k m a) = true.
Proof.
  induction a as [v|items IH] using ndarray_nested_ind; intros j k n m Hjk Hs.
  - simpl in Hs. discriminate.
  - rewrite Forall_forall in IH.
    destruct j as [|j], k as [|k]; simpl in Hs |- *; try congruence.
    + rewrite length_map. exact Hs.
    + rewrite forallb_forall in Hs |- *. intros x Hx.
      apply Hs. eapply compress_In. exact Hx.
    + rewrite forallb_forall in Hs |- *. intros x Hx.
      apply in_map_iff in Hx as (y & <- & Hy).
      apply IH; [exact Hy | lia | apply Hs; exact Hy].
Qed.

Lemma sizes_ok_nth {V : Type} (values : ndarray V) (axs : list axis) :
  forall (k0 j : nat) (ax : axis) (l : level),
    sizes_ok k0 axs values = true ->
    nth_error axs j = Some ax -> In l (levels ax) ->
    has_size (k0 + j) (List.length (level_values l)) values = true.
Proof.
  induction axs as [|ax0 axs IH]; intros k0 j ax l Hs Hj Hl.
  - destruct j; discriminate.
  - simpl in Hs. apply andb_true_iff in Hs as [H0 Hrest].
    destruct j as [|j]; simpl in Hj.
    + injection Hj as ->. rewrite Nat.add_0_r.
      rewrite forallb_forall in H0. apply H0. exact Hl.
    + replace (k0 + S j) with (S k0 + j) by lia. eapply IH; eauto.
Qed.

Section WellFormed.
Context {V : Type}.
Implicit Types (a : Assembly V) (dim : string) (ax : axis).

Lemma well_formed_inv a :
  well_formed a = true ->
  NoDup (dims a) /\ NoDup (map level_name (all_levels a))
  /\ forallb level_lengths_ok (axes a) = true
  /\ sizes_ok 0 (axes a) (data a) = true.
Proof.
  unfold well_formed. rewrite !andb_true_iff, !distinct_NoDup. tauto.
Qed.

Lemma find_axis_index a dim ax :
  find_axis a dim = Some ax ->
  In ax (axes a) /\ dim_name ax = dim
  /\ exists k, index_of dim (dims a) = Some k /\ nth_error (axes a) k = Some ax.
Proof.
  unfold find_axis, dims.
  induction (axes a) as [|ax0 axs IH]; simpl; [discriminate|].
  destruct (String.eqb (dim_name ax0) dim) eqn:E.
  - intros H. injection H as ->. apply String.eqb_eq in E.
    split; [auto|]. split; [exact E|]. exists 0. auto.
  - intros H. destruct (IH H) as (Hin & Hn & k & Hk & Hnth).
    split; [auto|]. split; [exact Hn|]. exists (S k). rewrite Hk. auto.
Qed.

Lemma find_axis_None a dim :
  find_axis a dim = None ->
  index_of dim (dims a) = None
  /\ forall ax, In ax (axes a) -> String.eqb (dim_name ax) dim = false.
Proof.
  unfold find_axis, dims.
  induction (axes a) as [|ax0 axs IH]; simpl; [intros _; split; tauto|].
  destruct (String.eqb (dim_name ax0) dim) eqn:E; [discriminate|].
  intros H. destruct (IH H) as [Hi Hall]. rewrite Hi. split; [reflexivity|].
  intros ax [<-|Hin]; auto.
Qed.

Lemma find_axis_mem a dim :
  mem dim (dims a) = true -> exists ax, find_axis a dim = Some ax.
Proof.
  intros Hm. destruct (find_axis a dim) as [ax|] eqn:E; [eauto|].
  apply find_axis_None in E as [_ Hall].
  apply mem_In in Hm. unfold dims in Hm.
  apply in_map_iff in Hm as (ax & Hn & Hin).
  specialize (Hall ax Hin). rewrite Hn, String.eqb_refl in Hall. discriminate.
Qed.


(** The coordinates of a dimension of a well-formed tensor have one
    length, which the data has along the dimension. *)
Lemma well_formed_axis a dim ax :
  well_formed a = true -> find_axis a dim = Some ax ->
  levels ax <> []
  /\ (forall l, In l (levels ax) ->
                List.length (level_values l) = axis_length ax)
  /\ (forall ax', In ax' (axes a) -> dim_name ax' = dim -> ax' = ax)
  /\ exists k, index_of dim (dims a) = Some k
               /\ nth_error (axes a) k = Some ax
               /\ has_size k (axis_length ax) (data a) = true.
Proof.
  intros Hwf Hax. apply well_formed_inv in Hwf as (Hnd & _ & Hlen & Hsz).
  destruct (find_axis_index _ _ _ Hax) as (Hin & Hn & k & Hk & Hnth).
  rewrite forallb_forall in Hlen. specialize (Hlen ax Hin).
  unfold level_lengths_ok in Hlen.
  apply andb_true_iff in Hlen as [Hne Hlen].
  rewrite forallb_forall in Hlen.
  assert (Hne' : levels ax <> []).
  { intros E. rewrite E in Hne. discriminate. }
  split; [exact Hne'|]. split.
  - intros l Hl. apply Nat.eqb_eq. apply Hlen. exact Hl.
  - split.
    + intros ax' Hin' Hn'. apply (NoDup_map_eq dim_name (axes a)); auto.
      congruence.
    + exists k. split; [exact Hk|]. split; [exact Hnth|].
      destruct (levels ax) as [|l0 ls] eqn:El; [congruence|].
      pose proof (sizes_ok_nth _ _ 0 k ax l0 Hsz Hnth) as Hs.
      rewrite El in Hs. specialize (Hs (or_introl eq_refl)).
      unfold axis_length. rewrite El. exact Hs.
Qed.

(** On a well-formed tensor the selection by a mask no longer than the
    dimension returns. *)
Lemma isel_np_where_ok a dim ax (m : list bool) :
  well_formed a = true -> find_axis a dim = Some ax ->
  List.length m <= axis_length ax ->
  isel a dim (np_where m) = Ok (select_mask a dim m).
Proof.
  intros Hwf Hax Hm.
  destruct (well_formed_axis _ _ _ Hwf Hax)
    as (_ & Hlen & Huniq & k & Hk & _ & Hsz).
  unfold isel, select_mask.
  rewrite (mapM_ok_map _ (compress_axis_levels dim m)).
  - simpl. rewrite Hk.
    rewrite (take_axis_np_where_ok _ _ _ _ Hsz Hm). reflexivity.
  - intros ax' Hin. unfold take_axis_levels, compress_axis_levels.
    destruct (String.eqb (dim_name ax') dim) eqn:E; [|reflexivity].
    apply String.eqb_eq in E. rewrite (Huniq ax' Hin E) in *.
    rewrite (mapM_ok_map _ (compress_level m)); [reflexivity|].
    intros l Hl. unfold take_level, compress_level.
    rewrite take_np_where_ok; [reflexivity|]. rewrite (Hlen l Hl). exact Hm.
Qed.

(** Indices in range are selected. *)
Lemma isel_in_range a dim ax (idx : list nat) :
  well_formed a = true -> find_axis a dim = Some ax ->
  Forall (fun i => i < axis_length ax) idx ->
  exists r, isel a dim idx = Ok r.
Proof.
  intros Hwf Hax Hidx.
  destruct (well_formed_axis _ _ _ Hwf Hax)
    as (_ & Hlen & Huniq & k & Hk & _ & Hsz).
  unfold isel.
  destruct (mapM_ok_exists (take_axis_levels dim idx) (axes a)) as [axes' ->].
  - intros ax' Hin. unfold take_axis_levels.
    destruct (String.eqb (dim_name ax') dim) eqn:E; [|eauto].
    apply String.eqb_eq in E. rewrite (Huniq ax' Hin E) in *.
    destruct (mapM_ok_exists (take_level idx) (levels ax)) as [ls ->];
      [|simpl; eauto].
    intros l Hl. unfold take_level.
    destruct (take_in_range (level_values l) idx) as [ys ->]; [|simpl; eauto].
    rewrite (Hlen l Hl). exact Hidx.
  - simpl. rewrite Hk.
    destruct (has_size_take_axis _ _ _ _ Hsz Hidx) as [d ->]. simpl. eauto.
Qed.
End WellFormed.

(** *** Selecting keeps a tensor well-formed *)

Lemma index_of_Some (s : string) (l : list string) (k : nat) :
  index_of s l = Some k -> nth_error l k = Some s.
Proof.
  revert k. induction l as [|x l IH]; intros k; simpl; [discriminate|].
  destruct (String.eqb x s) eqn:E.
  - intros H. injection H as <-. apply String.eqb_eq in E. subst. reflexivity.
  - destruct (index_of s l) as [k'|]; simpl; [|discriminate].
    intros H. injection H as <-. simpl. apply IH. reflexivity.
Qed.

Lemma index_of_position (axs : list axis) (dim : string) (k j : nat) (ax : axis) :
  NoDup (map dim_name axs) ->
  index_of dim (map dim_name axs) = Some k ->
  nth_error axs j = Some ax ->
  (dim_name ax = dim <-> j = k).
Proof.
  intros Hnd Hk Hj. apply index_of_Some in Hk.
  assert (Hj' : nth_error (map dim_name axs) j = Some (dim_name ax))
    by (rewrite nth_error_map, Hj; reflexivity).
  split.
  - intros E. rewrite E in Hj'.
    apply (proj1 (NoDup_nth_error _) Hnd).
    + apply nth_error_Some. congruence.
    + congruence.
  - intros ->. congruence.
Qed.

Lemma existsb_compress_levels (name : string) (m : list bool)
      (ls : list level) :
  existsb (fun l => String.eqb (level_name l) name) (map (compress_level m) ls)
  = existsb (fun l => String.eqb (level_name l) name) ls.
Proof. induction ls as [|l ls IH]; simpl; [reflexivity | rewrite IH; reflexivity]. Qed.

Section SelectWellFormed.
Context {V : Type}.
Implicit Types (a : Assembly V) (dim : string) (ax : axis).

Lemma level_names_compress_axis_levels dim (m : list bool) ax :
  map level_name (levels (compress_axis_levels dim m ax))
  = map level_name (levels ax).
Proof.
  unfold compress_axis_levels.
  destruct (String.eqb (dim_name ax) dim); [|reflexivity].
  simpl. rewrite map_map. reflexivity.
Qed.

Lemma level_names_select_mask a dim (m : list bool) :
  map level_name (all_levels (select_mask a dim m))
  = map level_name (all_levels a).
Proof.
  unfold all_levels, select_mask. simpl.
  induction (axes a) as [|ax axs IH]; simpl; [reflexivity|].
  rewrite !map_app, IH, level_names_compress_axis_levels. reflexivity.
Qed.

Lemma level_lengths_ok_compress dim (m : list bool) ax :
  level_lengths_ok ax = true ->
  level_lengths_ok (compress_axis_levels dim m ax) = true.
Proof.
  unfold compress_axis_levels.
  destruct (String.eqb (dim_name ax) dim); [|auto].
  unfold level_lengths_ok, axis_length. simpl. rewrite length_map.
  intros H. apply andb_true_iff in H as [Hne Hl]. rewrite Hne. simpl.
  rewrite forallb_forall in Hl |- *. intros l' Hl'.
  apply in_map_iff in Hl' as (l & <- & Hin). specialize (Hl l Hin).
  apply Nat.eqb_eq in Hl. apply Nat.eqb_eq.
  destruct (levels ax) as [|l0 ls]; [destruct Hin|]. simpl.
  apply compress_length. exact Hl.
Qed.

Lemma sizes_ok_select (values : ndarray V) dim (m : list bool) (k : nat)
      (axs : list axis) :
  forall k0,
    sizes_ok k0 axs values = true ->
    (forall j ax, nth_error axs j = Some ax ->
                  (dim_name ax = dim <-> k0 + j = k)) ->
    sizes_ok k0 (map (compress_axis_levels dim m) axs)
             (compress_axis k m values) = true.
Proof.
  induction axs as [|ax0 axs IH]; intros k0 Hs Hpos; simpl; [reflexivity|].
  simpl in Hs. apply andb_true_iff in Hs as [H0 Hrest].
  apply andb_true_iff. split.
  - pose proof (Hpos 0 ax0 eq_refl) as H00. rewrite Nat.add_0_r in H00.
    rewrite forallb_forall in H0 |- *. unfold compress_axis_levels.
    destruct (String.eqb (dim_name ax0) dim) eqn:E.
    + apply String.eqb_eq in E. apply H00 in E. subst k0.
      simpl. intros l' Hl'. apply in_map_iff in Hl' as (l & <- & Hl).
      simpl. eapply has_size_compress_same; [apply H0; exact Hl | reflexivity].
    + intros l Hl. apply has_size_compress_other; [|apply H0; exact Hl].
      intros ->. rewrite (proj2 H00 eq_refl), String.eqb_refl in E.
      discriminate.
  - apply IH; [exact Hrest|]. intros j ax Hj.
    rewrite (Hpos (S j) ax Hj). lia.
Qed.

Lemma well_formed_select_mask a dim (m : list bool) :
  well_formed a = true -> well_formed (select_mask a dim m) = true.
Proof.
  intros Hwf. pose proof (well_formed_inv _ Hwf) as (Hnd & Hnl & Hlen & Hsz).
  unfold well_formed.
  rewrite dims_select_mask, level_names_select_mask.
  rewrite (proj2 (distinct_NoDup _) Hnd), (proj2 (distinct_NoDup _) Hnl).
  simpl. apply andb_true_iff. split.
  - rewrite forallb_forall in Hlen |- *. intros ax' Hax'.
    apply in_map_iff in Hax' as (ax & <- & Hax).
    apply level_lengths_ok_compress. apply Hlen. exact Hax.
  - destruct (find_axis a dim) as [ax|] eqn:Eax.
    + destruct (find_axis_index _ _ _ Eax) as (_ & _ & k & Hk & _).
      rewrite Hk. apply (sizes_ok_select _ _ _ _ _ 0 Hsz).
      intros j ax' Hj. simpl.
      apply (index_of_position (axes a)); assumption.
    + apply find_axis_None in Eax as [Hk Hall]. rewrite Hk.
      replace (map (compress_axis_levels dim m) (axes a)) with (axes a);
        [exact Hsz|].
      rewrite <- (map_id (axes a)) at 1. apply map_ext_in.
      intros ax Hax. unfold compress_axis_levels.
      rewrite (Hall ax Hax). reflexivity.
Qed.

Lemma find_axis_select_mask a dim (m : list bool) (d : string) :
  find_axis (select_mask a dim m) d
  = option_map (compress_axis_levels dim m) (find_axis a d).
Proof.
  unfold find_axis, select_mask. simpl.
  induction (axes a) as [|ax axs IH]; simpl; [reflexivity|].
  rewrite dim_name_compress_axis_levels.
  destruct (String.eqb (dim_name ax) d); [reflexivity | exact IH].
Qed.

Lemma level_dim_select_mask a dim (m : list bool) (name : string) :
  level_dim (select_mask a dim m) name = level_dim a name.
Proof.
  unfold level_dim, select_mask. simpl.
  induction (axes a) as [|ax axs IH]; simpl; [reflexivity|].
  assert (E : existsb (fun l => String.eqb (level_name l) name)
                      (levels (compress_axis_levels dim m ax))
              = existsb (fun l => String.eqb (level_name l) name) (levels ax)).
  { unfold compress_axis_levels.
    destruct (String.eqb (dim_name ax) dim); [|reflexivity].
    simpl. apply existsb_compress_levels. }
  rewrite E.
  destruct (existsb _ (levels ax)); [|exact IH].
  simpl. rewrite dim_name_compress_axis_levels. reflexivity.
Qed.

(** The level that a name denotes lies along the dimension that
    [level_dim] gives for the name. *)
Lemma find_level_axis a (name : string) (l : level) :
  find_level a name = Some l ->
  exists ax, In ax (axes a) /\ In l (levels ax)
             /\ level_dim a name = Some (dim_name ax).
Proof.
  unfold find_level, level_dim, all_levels.
  induction (axes a) as [|ax axs IH]; simpl; [discriminate|].
  rewrite find_app_level.
  destruct (existsb (fun l0 => String.eqb (level_name l0) name) (levels ax))
    eqn:E.
  - apply find_existsb_some in E as [l0 E]. rewrite E.
    intros H. injection H as <-. exists ax. split; [auto|].
    split; [|reflexivity]. apply find_some in E. apply E.
  - apply find_existsb_none in E. rewrite E. intros H.
    destruct (IH H) as (ax' & Hin & Hl & Hd). exists ax'. auto.
Qed.

(** A coordinate along a dimension is as long as the dimension. *)
Lemma well_formed_level_length a dim ax (name : string) (l : level) :
  well_formed a = true -> find_axis a dim = Some ax ->
  find_level a name = Some l -> level_dim a name = Some dim ->
  List.length (level_values l) = axis_length ax.
Proof.
  intros Hwf Hax Hl Hd.
  destruct (well_formed_axis _ _ _ Hwf Hax) as (_ & Hlen & Huniq & _).
  destruct (find_level_axis _ _ _ Hl) as (ax' & Hin & Hl' & Hd').
  rewrite Hd in Hd'. injection Hd' as Hd'.
  pose proof (Huniq ax' Hin (eq_sym Hd')) as E. subst ax'.
  apply Hlen. exact Hl'.
Qed.
End SelectWellFormed.

(** ** [subset] on well-formed tensors *)

Lemma NoDup_app_disjoint {A : Type} (l1 l2 : list A) (x : A) :
  NoDup (l1 ++ l2) -> In x l1 -> In x l2 -> False.
Proof.
  induction l1 as [|y l1 IH]; simpl; intros Hnd H1 H2; [destruct H1|].
  inversion Hnd as [|? ? Hy Hl]; subst.
  destruct H1 as [->|H1]; [|exact (IH Hl H1 H2)].
  apply Hy. apply in_or_app. right. exact H2.
Qed.

Lemma NoDup_flat_map_owner {A B D : Type} (f : B -> D) (g : A -> list B)
      (l : list A) (x y : A) (z z' : B) :
  NoDup (map f (flat_map g l)) ->
  In x l -> In y l -> In z (g x) -> In z' (g y) -> f z = f z' ->
  x = y.
Proof.
  intros Hnd Hx Hy Hz Hz' E. revert Hnd Hx Hy.
  induction l as [|a l IH]; simpl; intros Hnd Hx Hy; [destruct Hx|].
  rewrite map_app in Hnd.
  destruct Hx as [->|Hx], Hy as [->|Hy]; auto.
  - exfalso. apply (NoDup_app_disjoint _ _ (f z) Hnd).
    + apply in_map. exact Hz.
    + rewrite E. apply in_map. apply in_flat_map. eauto.
  - exfalso. apply (NoDup_app_disjoint _ _ (f z') Hnd).
    + apply in_map. exact Hz'.
    + rewrite <- E. apply in_map. apply in_flat_map. eauto.
  - apply IH; auto. eapply NoDup_app_remove_l. exact Hnd.
Qed.

Section SubsetReturns.
Context {V U : Type}.
Implicit Types (source : Assembly V) (target : Assembly U) (dim : string).

(** The level loop returns on a well-formed source whose levels concerned
    lie along the subsetted dimension and are levels of the target. *)
Lemma subset_levels_ok target dim (lvls : list string) :
  forall source,
    well_formed source = true ->
    mem dim (dims source) = true ->
    (forall name, In name lvls -> hasattr source name = true ->
                  level_dim source name = Some dim) ->
    (forall name, In name lvls -> hasattr source name = true ->
                  hasattr target name = true) ->
    exists r, subset_levels target dim source lvls = Ok r.
Proof.
  induction lvls as [|name lvls IH]; intros source Hwf Hmem Hon Htar; simpl;
    [eauto|].
  unfold subset_level.
  destruct (hasattr source name) eqn:Ehas; simpl.
  - pose proof (Hon name (or_introl eq_refl) Ehas) as Hd.
    pose proof (Htar name (or_introl eq_refl) Ehas) as Ht.
    apply hasattr_find_level in Ehas as [sl Hsl].
    apply hasattr_find_level in Ht as [tl Htl].
    unfold coord_values. rewrite Htl, Hsl. simpl.
    destruct (find_axis_mem _ _ Hmem) as [ax Hax].
    rewrite (isel_np_where_ok _ _ ax); [|exact Hwf|exact Hax|].
    + simpl. apply IH.
      * apply well_formed_select_mask. exact Hwf.
      * rewrite dims_select_mask. exact Hmem.
      * intros n Hn. rewrite hasattr_select_mask, level_dim_select_mask.
        apply Hon. right. exact Hn.
      * intros n Hn. rewrite hasattr_select_mask. apply Htar. right. exact Hn.
    + rewrite length_map.
      rewrite (well_formed_level_length _ _ _ _ _ Hwf Hax Hsl Hd). lia.
  - apply IH; auto.
    + intros n Hn. apply Hon. right. exact Hn.
    + intros n Hn. apply Htar. right. exact Hn.
Qed.

(** The levels of a dimension of a well-formed tensor are coordinates of
    the tensor. *)
Lemma level_names_levels target dim (ax : axis) :
  well_formed target = true -> find_axis target dim = Some ax ->
  level_names target dim = map level_name (levels ax).
Proof.
  intros Hwf Hax.
  destruct (well_formed_axis _ _ _ Hwf Hax) as (Hne & _).
  unfold level_names. rewrite Hax.
  destruct (levels ax); [congruence | reflexivity].
Qed.

Lemma level_names_hasattr target dim (name : string) :
  well_formed target = true -> mem dim (dims target) = true ->
  In name (level_names target dim) -> hasattr target name = true.
Proof.
  intros Hwf Hmem Hin.
  destruct (find_axis_mem _ _ Hmem) as [ax Hax].
  rewrite (level_names_levels _ _ _ Hwf Hax) in Hin.
  apply in_map_iff in Hin as (l & Hn & Hl).
  destruct (find_axis_index _ _ _ Hax) as (Hinax & _).
  unfold hasattr, find_level.
  destruct (find _ (all_levels target)) eqn:E; [reflexivity|].
  eapply find_none in E.
  - rewrite Hn, String.eqb_refl in E. discriminate.
  - unfold all_levels. apply in_flat_map. eauto.
Qed.

(** What [subset] does for one dimension, as a total function. *)
Lemma subset_dim_characterised source target dim :
  well_formed source = true -> well_formed target = true ->
  (forall name, In name (level_names target dim) ->
                hasattr source name = true ->
                level_dim source name = Some dim) ->
  let selected :=
    select_mask source dim
      (intersect_masks (present_masks source target (level_names target dim)))
  in
  subset_dim target source dim
  = if mem dim (dims target) && mem dim (dims source)
       && existsb (hasattr source) (level_names target dim)
       && Nat.eqb (axis_len target dim) (axis_len selected dim)
    then Ok selected
    else Raise AssertionError.
Proof.
  intros Hwf Hwft Hon selected. unfold subset_dim.
  destruct (mem dim (dims target)) eqn:Emt; simpl; [|reflexivity].
  destruct (mem dim (dims source)) eqn:Ems; simpl; [|reflexivity].
  destruct (existsb (hasattr source) (level_names target dim)) eqn:Eex; simpl;
    [|reflexivity].
  destruct (subset_levels_ok target dim (level_names target dim) source)
    as [r Hr]; auto.
  { intros name Hin _. apply (level_names_hasattr _ dim); assumption. }
  rewrite Hr. simpl.
  destruct (subset_levels_masks _ _ _ _ _ Hon Hr) as [[Hnone _]|[_ ->]];
    [congruence|].
  fold selected. destruct (Nat.eqb _ _); reflexivity.
Qed.
End SubsetReturns.

(** *** Masks that keep everything *)

Lemma compress_all_true {A : Type} (m : list bool) (xs : list A) :
  Forall (fun b => b = true) m -> List.length xs <= List.length m ->
  compress m xs = xs.
Proof.
  revert xs. induction m as [|b m IH]; intros [|x xs] Hall Hlen; simpl in *;
    try reflexivity; [lia|].
  inversion Hall as [|? ? Hb Hm]; subst. f_equal. apply IH; [exact Hm | lia].
Qed.

Lemma compress_axis_all_true {V : Type} (a : ndarray V) :
  forall (k n : nat) (m : list bool),
    has_size k n a = true -> Forall (fun b => b = true) m ->
    n <= List.length m -> compress_axis k m a = a.
Proof.
  induction a as [v|items IH] using ndarray_nested_ind; intros k n m Hs Hm Hn.
  - reflexivity.
  - destruct k as [|k]; simpl in Hs |- *; f_equal.
    + apply Nat.eqb_eq in Hs. apply compress_all_true; [exact Hm | lia].
    + rewrite <- (map_id items) at 2. apply map_ext_in. intros x Hx.
      rewrite Forall_forall in IH. rewrite forallb_forall in Hs.
      eapply IH; eauto.
Qed.

Lemma mask_and_all_true (m1 m2 : list bool) :
  Forall (fun b => b = true) m1 -> Forall (fun b => b = true) m2 ->
  Forall (fun b => b = true) (mask_and m1 m2)
  /\ List.length (mask_and m1 m2) = Nat.min (List.length m1) (List.length m2).
Proof.
  revert m2. induction m1 as [|b m1 IH]; intros [|c m2] H1 H2; simpl;
    try (split; [constructor | reflexivity]).
  inversion H1 as [|? ? Hb H1']; inversion H2 as [|? ? Hc H2']; subst.
  destruct (IH m2 H1' H2') as [Ha Hl].
  split; [constructor; [reflexivity | exact Ha] | rewrite Hl; reflexivity].
Qed.

Lemma intersect_all_true (masks : list (list bool)) (n : nat) :
  masks <> [] ->
  (forall m, In m masks ->
             Forall (fun b => b = true) m /\ List.length m = n) ->
  Forall (fun b => b = true) (intersect_masks masks)
  /\ List.length (intersect_masks masks) = n.
Proof.
  destruct masks as [|m0 rest]; [congruence|]. intros _ Hall. simpl.
  assert (H0 : Forall (fun b => b = true) m0 /\ List.length m0 = n)
    by (apply Hall; left; reflexivity).
  assert (Hrest : forall m, In m rest ->
                            Forall (fun b => b = true) m /\ List.length m = n)
    by (intros m Hm; apply Hall; right; exact Hm).
  clear Hall. revert m0 H0.
  induction rest as [|m1 rest IH]; intros m0 H0; simpl; [exact H0|].
  apply IH.
  - intros m Hm. apply Hrest. right. exact Hm.
  - destruct H0 as [Ha0 Hl0].
    destruct (Hrest m1 (or_introl eq_refl)) as [Ha1 Hl1].
    destruct (mask_and_all_true m0 m1 Ha0 Ha1) as [Ha Hl].
    split; [exact Ha | rewrite Hl; lia].
Qed.


Section SelectAll.
Context {V : Type}.
Implicit Types (a : Assembly V) (dim : string) (ax : axis).

(** A mask that keeps every entry of the dimension leaves the tensor as
    it is. *)
Lemma select_mask_all_true a dim ax (m : list bool) :
  well_formed a = true -> find_axis a dim = Some ax ->
  Forall (fun b => b = true) m -> axis_length ax <= List.length m ->
  select_mask a dim m = a.
Proof.
  intros Hwf Hax Hm Hn.
  destruct (well_formed_axis _ _ _ Hwf Hax)
    as (_ & Hlen & Huniq & k & Hk & _ & Hsz).
  unfold select_mask. rewrite Hk.
  rewrite (compress_axis_all_true _ _ _ _ Hsz Hm Hn).
  destruct a as [axs sc d]. simpl in *. f_equal.
  rewrite <- (map_id axs) at 2. apply map_ext_in. intros ax' Hin.
  unfold compress_axis_levels.
  destruct (String.eqb (dim_name ax') dim) eqn:E; [|reflexivity].
  apply String.eqb_eq in E. rewrite (Huniq ax' Hin E) in *.
  destruct ax as [n ls]. simpl in *. f_equal.
  rewrite <- (map_id ls) at 2. apply map_ext_in. intros l Hl.
  destruct l as [ln lv]. unfold compress_level. simpl. f_equal.
  apply compress_all_true; [exact Hm|].
  specialize (Hlen _ Hl). simpl in Hlen. lia.
Qed.

(** In a well-formed tensor a level of a dimension is found along it. *)
Lemma level_dim_own a dim ax (name : string) :
  well_formed a = true -> find_axis a dim = Some ax ->
  In name (map level_name (levels ax)) -> level_dim a name = Some dim.
Proof.
  intros Hwf Hax Hin.
  destruct (well_formed_inv _ Hwf) as (_ & Hnl & _).
  destruct (find_axis_index _ _ _ Hax) as (Hinax & Hn & _).
  apply in_map_iff in Hin as (l & Hname & Hl).
  destruct (find_level a name) as [l'|] eqn:El.
  - destruct (find_level_axis _ _ _ El) as (ax' & Hin' & Hl' & Hd).
    unfold find_level in El. apply find_some in El as [_ El].
    apply String.eqb_eq in El.
    assert (E : ax = ax').
    { apply (NoDup_flat_map_owner level_name levels (axes a) ax ax' l l');
        auto. congruence. }
    subst ax'. congruence.
  - unfold find_level in El. eapply find_none in El.
    + rewrite Hname, String.eqb_refl in El. discriminate.
    + unfold all_levels. apply in_flat_map. eauto.
Qed.
End SelectAll.

(** *** What [subset] does on well-formed tensors *)

Lemma existsb_pointwise {A : Type} (f g : A -> bool) (l : list A) :
  (forall x, f x = g x) -> existsb f l = existsb g l.
Proof.
  intros E. induction l as [|x l IH]; simpl; [reflexivity|].
  rewrite E, IH. reflexivity.
Qed.

Section SelectMasks.
Context {V : Type}.

Lemma select_masks_invariants (steps : list (string * list bool)) :
  forall a : Assembly V,
    dims (select_masks a steps) = dims a
    /\ (forall name, hasattr (select_masks a steps) name = hasattr a name)
    /\ (well_formed a = true -> well_formed (select_masks a steps) = true).
Proof.
  unfold select_masks.
  induction steps as [|[d m] steps IH]; intros a; simpl; [auto|].
  destruct (IH (select_mask a d m)) as (Hd & Hh & Hw).
  rewrite Hd, dims_select_mask. split; [reflexivity|]. split.
  - intros name. rewrite Hh. apply hasattr_select_mask.
  - intros Hwf. apply Hw. apply well_formed_select_mask. exact Hwf.
Qed.
End SelectMasks.

Section SubsetTotal.
Context {V U : Type}.
Implicit Types (source r : Assembly V) (target : Assembly U) (dim : string).

(** A dimension that the target or the source lacks, or along which the
    source has none of the target's levels, makes [subset] raise an
    [AssertionError], also after dimensions that it has subsetted. *)
Theorem subset_missing_dimension_raises source target
        (pre post : list string) dim s1 :
  subset_dims_loop target source pre = Ok s1 ->
  mem dim (dims target) = false
  \/ mem dim (dims source) = false
  \/ existsb (hasattr source) (level_names target dim) = false ->
  subset source target (Some (pre ++ dim :: post)) = Raise AssertionError.
Proof.
  intros Hpre Hmiss.
  assert (Hloop : subset_dims_loop target source (pre ++ dim :: post)
                  = Raise AssertionError).
  { rewrite subset_dims_loop_app, Hpre. simpl.
    apply subset_dims_loop_removes in Hpre as (_ & steps & _ & ->).
    destruct (select_masks_invariants steps source) as (Hd & Hh & _).
    unfold subset_dim. rewrite Hd.
    rewrite (existsb_pointwise _ (hasattr source) _ Hh).
    destruct Hmiss as [->|[->| ->]]; simpl.
    - reflexivity.
    - destruct (mem dim (dims target)); reflexivity.
    - destruct (mem dim (dims target)); simpl; [|reflexivity].
      destruct (mem dim (dims source)); reflexivity. }
  unfold subset. destruct pre; exact Hloop.
Qed.

(** On well-formed tensors, [subset] along one dimension is the selection
    by the intersected membership masks when the selection is as long as
    the target's dimension, and an [AssertionError] otherwise: no index or
    key is ever missed.  The levels concerned lie along the subsetted
    dimension in the source. *)
Theorem subset_returns_or_asserts source target dim :
  well_formed source = true -> well_formed target = true ->
  (forall name, In name (level_names target dim) ->
                hasattr source name = true ->
                level_dim source name = Some dim) ->
  let selected :=
    select_mask source dim
      (intersect_masks (present_masks source target (level_names target dim)))
  in
  subset source target (Some [dim])
  = if mem dim (dims target) && mem dim (dims source)
       && existsb (hasattr source) (level_names target dim)
       && Nat.eqb (axis_len target dim) (axis_len selected dim)
    then Ok selected
    else Raise AssertionError.
Proof.
  intros Hwf Hwft Hon selected. unfold subset. simpl.
  rewrite (subset_dim_characterised _ _ _ Hwf Hwft Hon). fold selected.
  destruct (_ && _); reflexivity.
Qed.

(** [subset] keeps a tensor well-formed. *)
Lemma subset_keeps_well_formed source target
        (subset_dims : option (list string)) r :
  well_formed source = true ->
  subset source target subset_dims = Ok r ->
  well_formed r = true.
Proof.
  intros Hwf H. unfold subset in H.
  apply subset_dims_loop_removes in H as (_ & steps & _ & ->).
  apply select_masks_invariants. exact Hwf.
Qed.
End SubsetTotal.

Section SubsetMasks.
Context {V U : Type}.
Implicit Types (source : Assembly V) (target : Assembly U).

Lemma present_masks_nonempty source target (lvls : list string) :
  existsb (hasattr source) lvls = true ->
  (forall name, In name lvls -> hasattr source name = true ->
                hasattr target name = true) ->
  present_masks source target lvls <> [].
Proof.
  intros Hex Htar. apply existsb_exists in Hex as (name & Hin & Hs).
  pose proof (Htar name Hin Hs) as Ht.
  apply hasattr_find_level in Hs as [sl Hsl].
  apply hasattr_find_level in Ht as [tl Htl].
  intros E.
  assert (Hm : In (map (contains (level_values tl)) (level_values sl))
                  (present_masks source target lvls)).
  { apply In_present_masks. exists name, sl, tl. auto. }
  rewrite E in Hm. destruct Hm.
Qed.
End SubsetMasks.

Section SubsetSelf.
Context {V : Type}.
Implicit Types (a : Assembly V) (dim : string).

Lemma subset_dim_self a dim :
  well_formed a = true -> mem dim (dims a) = true ->
  subset_dim a a dim = Ok a.
Proof.
  intros Hwf Hmem. destruct (find_axis_mem _ _ Hmem) as [ax Hax].
  pose proof (level_names_levels _ _ _ Hwf Hax) as Hnames.
  assert (Hon : forall name, In name (level_names a dim) ->
                             level_dim a name = Some dim).
  { intros name Hin. rewrite Hnames in Hin.
    eapply level_dim_own; eauto. }
  assert (Hhas : forall name, In name (level_names a dim) ->
                              hasattr a name = true).
  { intros name Hin. eapply level_names_hasattr; eauto. }
  assert (Hex : existsb (hasattr a) (level_names a dim) = true).
  { destruct (well_formed_axis _ _ _ Hwf Hax) as (Hne & _).
    rewrite Hnames. destruct (levels ax) as [|l ls] eqn:El; [congruence|].
    simpl. rewrite Hhas; [reflexivity|].
    rewrite Hnames; try rewrite El; left; reflexivity. }
  rewrite subset_dim_characterised; auto.
  assert (Hsel : select_mask a dim
                   (intersect_masks
                      (present_masks a a (level_names a dim))) = a).
  { destruct (intersect_all_true
                (present_masks a a (level_names a dim)) (axis_length ax))
      as [Hall Hlen].
    - apply present_masks_nonempty; auto.
    - intros m Hm. apply In_present_masks in Hm
        as (name & sl & tl & Hin & Hsl & Htl & ->).
      rewrite Hsl in Htl. injection Htl as <-. split.
      + apply Forall_forall. intros b Hb.
        apply in_map_iff in Hb as (v & <- & Hv). apply contains_In. exact Hv.
      + rewrite length_map.
        eapply well_formed_level_length; eauto.
    - eapply select_mask_all_true; eauto. lia. }
  rewrite Hsel, Hmem, Hex, Nat.eqb_refl. reflexivity.
Qed.

(** Subsetting a well-formed tensor to itself, along all of its
    dimensions or along some of them, returns it unchanged. *)
Theorem subset_self a (subset_dims : option (list string)) :
  well_formed a = true ->
  (forall d, In d (effective_dims a subset_dims) -> In d (dims a)) ->
  subset a a subset_dims = Ok a.
Proof.
  intros Hwf Hin. unfold subset.
  fold (effective_dims a subset_dims).
  induction (effective_dims a subset_dims) as [|d ds IH]; simpl;
    [reflexivity|].
  rewrite subset_dim_self; [|exact Hwf|].
  - simpl. apply IH. intros d' Hd'. apply Hin. right. exact Hd'.
  - apply mem_In. apply Hin. left. reflexivity.
Qed.
End SubsetSelf.

Section SubsetAgain.
Context {V U : Type}.
Implicit Types (source r : Assembly V) (target : Assembly U) (dim : string).

End SubsetAgain.

(** ** Sorting well-formed tensors *)

Lemma np_where_from_repeat (n i : nat) :
  np_where_from i (repeat true n) = seq i n.
Proof.
  revert i. induction n as [|n IH]; intros i; simpl; [reflexivity|].
  rewrite IH. reflexivity.
Qed.

Lemma repeat_all_true (n : nat) : Forall (fun b => b = true) (repeat true n).
Proof. induction n; simpl; constructor; auto. Qed.

Lemma argsort_in_range (keys : list label) :
  Forall (fun i => i < List.length keys) (argsort keys).
Proof.
  unfold argsort. apply Forall_forall. intros i Hi.
  apply in_map_iff in Hi as ([v j] & <- & Hin). simpl.
  eapply Permutation_in in Hin; [|apply stable_sort_perm].
  apply in_combine_seq in Hin as [_ Hn]. rewrite Nat.sub_0_r in Hn.
  apply nth_error_Some. congruence.
Qed.

(** A stable sort leaves a sorted list as it is. *)
Lemma stable_sort_sorted {A : Type} (leb : A -> A -> bool) (l : list A) :
  Sorted (fun x y => leb x y = true) l -> stable_sort leb l = l.
Proof.
  unfold stable_sort. induction 1 as [|x l _ IH Hx]; simpl; [reflexivity|].
  rewrite IH. destruct Hx as [|y l' Hxy]; simpl; [reflexivity|].
  rewrite Hxy. reflexivity.
Qed.

Lemma Sorted_combine_fst {A B : Type} (R : A -> A -> Prop) (l : list A) :
  Sorted R l ->
  forall l' : list B,
    Sorted (fun p q => R (fst p) (fst q)) (combine l l').
Proof.
  induction 1 as [|x l _ IH Hx]; intros [|y l']; simpl; try constructor.
  - apply IH.
  - destruct Hx as [|z l0 Hxz]; simpl; [constructor|].
    destruct l' as [|y' l']; constructor. exact Hxz.
Qed.

Lemma map_snd_combine_length {A B : Type} (l : list A) (l' : list B) :
  List.length l = List.length l' -> map snd (combine l l') = l'.
Proof.
  revert l'. induction l as [|x l IH]; intros [|y l']; simpl;
    try discriminate; [reflexivity|].
  intros E. injection E as E. f_equal. auto.
Qed.

Lemma argsort_sorted (keys : list label) :
  Sorted (fun x y => label_leb x y = true) keys ->
  argsort keys = seq 0 (List.length keys).
Proof.
  intros Hs. unfold argsort. rewrite stable_sort_sorted.
  - apply map_snd_combine_length. rewrite length_seq. reflexivity.
  - apply (Sorted_combine_fst (fun x y => label_leb x y = true)). exact Hs.
Qed.

Section SortTotal.
Context {V : Type}.
Implicit Types (a r : Assembly V).

Lemma isel_dims a r (dim : string) (idx : list nat) :
  isel a dim idx = Ok r -> dims r = dims a.
Proof.
  unfold isel. intros H. apply bind_ok_inv in H as (axes' & Haxes & H).
  apply bind_ok_inv in H as (data' & _ & H). injection H as <-.
  unfold dims. simpl. apply mapM_ok_inv in Haxes.
  induction Haxes as [|ax ax' axs axs' Hax _ IH]; simpl; [reflexivity|].
  f_equal; [|exact IH]. unfold take_axis_levels in Hax.
  destruct (String.eqb (dim_name ax) dim).
  - apply bind_ok_inv in Hax as (ls & _ & Hax). injection Hax as <-.
    reflexivity.
  - injection Hax as <-. reflexivity.
Qed.

(** [sortby] returns on a well-formed tensor that has the coordinate. *)
Lemma sortby_returns a (name : string) :
  well_formed a = true -> hasattr a name = true ->
  exists r, sortby a name = Ok r /\ dims r = dims a.
Proof.
  intros Hwf Hh. apply hasattr_find_level in Hh as [l El].
  destruct (find_level_axis _ _ _ El) as (ax & Hin & Hl & Hd).
  assert (Hmem : mem (dim_name ax) (dims a) = true).
  { apply mem_In. unfold dims. apply in_map. exact Hin. }
  destruct (find_axis_mem _ _ Hmem) as [ax0 Hax0].
  destruct (isel_in_range a (dim_name ax) ax0 (argsort (level_values l)))
    as [r Hr]; auto.
  { rewrite <- (well_formed_level_length _ _ _ _ _ Hwf Hax0 El Hd).
    apply argsort_in_range. }
  exists r. split; [|eapply isel_dims; exact Hr].
  unfold sortby. rewrite El, Hd. exact Hr.
Qed.

(** [Similarity.sort] on a well-formed tensor: with an ['image_id']
    coordinate it returns, the coordinate then in ascending order and
    holding the ids it held, the dimensions as they were; without one it
    raises a [KeyError]. *)
Theorem Similarity_sort_returns_sorted a :
  well_formed a = true ->
  (forall keys,
      coord_values a "image_id" = Ok keys ->
      exists r sorted,
        Similarity_sort a = Ok r
        /\ coord_values r "image_id" = Ok sorted
        /\ Sorted (fun x y => label_leb x y = true) sorted
        /\ Permutation sorted keys
        /\ dims r = dims a)
  /\ (hasattr a "image_id" = false -> Similarity_sort a = Raise KeyError).
Proof.
  intros Hwf. split.
  - intros keys Hk.
    assert (Hh : hasattr a "image_id" = true).
    { unfold hasattr. unfold coord_values in Hk.
      destruct (find_level a "image_id"); [reflexivity | discriminate]. }
    destruct (sortby_returns _ _ Hwf Hh) as (r & Hsort & Hdims).
    destruct (sortby_sorted _ _ _ _ Hk Hsort) as (sorted & Hs & Hsd & Hp).
    exists r, sorted. repeat split; auto.
  - intros Hh. apply hasattr_false_find_level in Hh.
    unfold Similarity_sort, sortby. rewrite Hh. reflexivity.
Qed.

(** [Similarity.sort] leaves a well-formed tensor whose image ids are
    already in ascending order as it is, ties included. *)
Theorem Similarity_sort_sorted_unchanged a (keys : list label) :
  well_formed a = true ->
  coord_values a "image_id" = Ok keys ->
  Sorted (fun x y => label_leb x y = true) keys ->
  Similarity_sort a = Ok a.
Proof.
  intros Hwf Hk Hs. unfold coord_values in Hk.
  destruct (find_level a "image_id") as [l|] eqn:El; [|discriminate].
  injection Hk as <-.
  destruct (find_level_axis _ _ _ El) as (ax & Hin & Hl & Hd).
  assert (Hmem : mem (dim_name ax) (dims a) = true).
  { apply mem_In. unfold dims. apply in_map. exact Hin. }
  destruct (find_axis_mem _ _ Hmem) as [ax0 Hax0].
  pose proof (well_formed_level_length _ _ _ _ _ Hwf Hax0 El Hd) as Hlen.
  unfold Similarity_sort, sortby. rewrite El, Hd.
  rewrite (argsort_sorted _ Hs), Hlen.
  rewrite <- (np_where_from_repeat (axis_length ax0) 0).
  fold (np_where (repeat true (axis_length ax0))).
  rewrite (isel_np_where_ok _ _ ax0); auto.
  - f_equal. apply (select_mask_all_true _ _ ax0); auto.
    + apply repeat_all_true.
    + rewrite repeat_length. lia.
  - rewrite repeat_length. lia.
Qed.
End SortTotal.

(** ** [Similarity.__call__] on well-formed tensors *)

Section CallWellFormed.
Context {V C : Type} `{Numeric C}.
Variable apply_method : Assembly V -> Assembly V -> result (SplitAssembly C).


(** The base class cannot produce a score: every call raises, with a
    [NotImplementedError] once the alignment and both sorts have
    returned. *)
Theorem SimilarityBase_never_returns (source target : Assembly V) :
  (exists e, Similarity_call (SimilarityBase (C := C)) source target = Raise e)
  /\ forall aligned sorted_source sorted_target,
       subset source target (Some ["presentation"%string]) = Ok aligned ->
       sortby aligned "image_id" = Ok sorted_source ->
       sortby target "image_id" = Ok sorted_target ->
       Similarity_call (SimilarityBase (C := C)) source target
       = Raise NotImplementedError.
Proof.
  unfold Similarity_call, SimilarityBase, SimilarityWith, Similarity_align,
    Similarity_sort. simpl. split.
  - destruct (subset source target (Some ["presentation"%string]))
      as [aligned|e]; simpl; [|eauto].
    destruct (sortby aligned "image_id") as [ss|e]; simpl; [|eauto].
    destruct (sortby target "image_id") as [st|e]; simpl; eauto.
  - intros aligned ss st -> Hs Ht. simpl. rewrite Hs. simpl. rewrite Ht.
    reflexivity.
Qed.
End CallWellFormed.

(** ** The error of a score *)






(** ** The splits of [cross_apply] *)

Lemma lookup_dict_update {A : Type} (key : string) (d1 d2 : list (string * A)) :
  In key (map fst d2) -> lookup key (dict_update d1 d2) = lookup key d2.
Proof.
  intros Hin. unfold dict_update. apply lookup_app_r.
  intros H. apply in_map_iff in H as ([k v] & Hk & Hf). simpl in Hk. subst k.
  apply filter_In in Hf as [_ Hf]. simpl in Hf.
  apply negb_true_iff in Hf. apply mem_In in Hin. congruence.
Qed.

Section SplitTheorems.
Context {V C Self : Type}.
Variable split_strategy :
  nat -> list tuple -> result (list (list nat * list nat)).
Variable apply_split :
  Self -> Assembly V -> Assembly V -> Assembly V -> Assembly V -> result C * Self.

(** The loop numbers the splits in the order of the strategy, and each
    score is the outcome of [apply_split] on the four tensors of its
    split. *)
Lemma split_loop_scores (source target : Assembly V) (cv : Assembly tuple)
      (splits : list (list nat * list nat)) :
  forall (self self' : Self) (k : nat) (scores : list (nat * C)),
    split_loop apply_split self source target cv splits k
    = (Ok scores, self') ->
    map fst scores = seq k (List.length splits)
    /\ Forall2 (fun split score =>
                  exists train_source train_target test_source test_target
                         self1 self2,
                    split_tensors source target cv (fst split) (snd split)
                    = Ok (train_source, train_target, test_source, test_target)
                    /\ apply_split self1 train_source train_target
                                   test_source test_target
                       = (Ok score, self2))
               splits (map snd scores).
Proof.
  induction splits as [|[train test] splits IH]; intros self self' k scores H;
    simpl in H.
  - injection H as <- <-. split; [reflexivity | constructor].
  - destruct (split_tensors source target cv train test)
      as [[[[ts tt] es] et]|] eqn:Et; [|discriminate].
    destruct (apply_split self ts tt es et) as [[score|] self1] eqn:Ea;
      [|discriminate].
    destruct (split_loop apply_split self1 source target cv splits (S k))
      as [[rest|] self2] eqn:El; [|discriminate].
    injection H as <- <-. destruct (IH _ _ _ _ El) as [Hk Hf].
    simpl. rewrite Hk. split; [reflexivity|].
    constructor; [|exact Hf]. simpl. exists ts, tt, es, et, self, self1. auto.
Qed.

(** Whenever [cross_apply] returns, its result holds one value for each
    split that the strategy has generated, along a ['split'] coordinate
    that numbers the splits from zero. *)
Theorem cross_apply_one_value_per_split (self self' : Self)
        (source target : Assembly V) (similarity : SimilarityAssembly C) :
  cross_apply split_strategy apply_split self source target
  = (Ok similarity, self') ->
  exists cross_validation_values splits,
    cross_apply_splits split_strategy source target
    = Ok (cross_validation_values, splits)
    /\ split_coord (sim_splits similarity) = seq 0 (List.length splits)
    /\ List.length (split_values (sim_splits similarity))
       = List.length splits
    /\ lookup "split" (sim_coords similarity)
       = Some (Coord1 "split"
                      (map (fun k => [LInt (Z.of_nat k)])
                           (seq 0 (List.length splits)))).
Proof.
  unfold cross_apply. intros H.
  destruct (cross_apply_checks source target) as [[]|]; simpl in H;
    [|discriminate].
  destruct (cross_apply_splits split_strategy source target)
    as [[cv splits]|] eqn:Es; [|discriminate].
  destruct (split_loop apply_split self source target cv splits 0)
    as [[scores|] self1] eqn:El; [|discriminate].
  injection H as H <-. apply bind_ok_inv in H as (coords & Hc & H).
  injection H as <-. simpl.
  destruct (split_loop_scores _ _ _ _ _ _ _ _ El) as [Hk Hf].
  exists cv, splits. split; [reflexivity|]. split; [exact Hk|]. split.
  - rewrite <- (length_seq (List.length splits) 0), <- Hk, !length_map.
    reflexivity.
  - unfold cross_apply_coords in Hc.
    apply bind_ok_inv in Hc as (lens & _ & Hc).
    destruct (forallb _ _); [|discriminate]. injection Hc as <-.
    rewrite lookup_dict_update; [|left; reflexivity].
    simpl. rewrite <- Hk, map_map. reflexivity.
Qed.

(** With [apply_split] left unimplemented, [cross_apply] raises a
    [NotImplementedError] as soon as the tensors of its first split are
    formed. *)
Theorem cross_apply_not_implemented (self : Self)
        (source target : Assembly V) (cv : Assembly tuple)
        (train test : list nat) (rest : list (list nat * list nat))
        (tensors : Assembly V * Assembly V * Assembly V * Assembly V) :
  cross_apply_checks source target = Ok tt ->
  cross_apply_splits split_strategy source target
  = Ok (cv, (train, test) :: rest) ->
  split_tensors source target cv train test = Ok tensors ->
  cross_apply split_strategy
              (OuterCrossValidationSimilarity_apply_split (C := C))
              self source target
  = (Raise NotImplementedError, self).
Proof.
  intros Hc Hs Ht. unfold cross_apply. rewrite Hc. simpl. rewrite Hs.
  simpl. rewrite Ht. destruct tensors as [[[ts tt'] es] et]. reflexivity.
Qed.
End SplitTheorems.

Section NonparametricTheorems.
Context {V C Self : Type}.
Variable split_strategy :
  nat -> list tuple -> result (list (list nat * list nat)).
Variable compute : Self -> Assembly V -> Assembly V -> result C * Self.

(** What [cross_apply] returns for a [NonparametricCVSimilarity]: for each
    split, the outcome of [compute] on the source and the target
    restricted to the training labels of the split. *)
Theorem Nonparametric_cross_apply_values (self self' : Self)
        (source target : Assembly V) (similarity : SimilarityAssembly C) :
  cross_apply split_strategy (NonparametricCVSimilarity_apply_split compute)
              self source target
  = (Ok similarity, self') ->
  exists cross_validation_values splits,
    cross_apply_splits split_strategy source target
    = Ok (cross_validation_values, splits)
    /\ Forall2 (fun split value =>
                  exists train_values train_source train_target self1 self2,
                    isel cross_validation_values cross_validation_dim
                         (fst split) = Ok train_values
                    /\ subset source train_values None = Ok train_source
                    /\ subset target train_values None = Ok train_target
                    /\ compute self1 train_source train_target
                       = (Ok value, self2))
               splits (split_values (sim_splits similarity)).
Proof.
  unfold cross_apply. intros H.
  destruct (cross_apply_checks source target) as [[]|]; simpl in H;
    [|discriminate].
  destruct (cross_apply_splits split_strategy source target)
    as [[cv splits]|] eqn:Es; [|discriminate].
  destruct (split_loop _ self source target cv splits 0)
    as [[scores|] self1] eqn:El; [|discriminate].
  injection H as H <-. apply bind_ok_inv in H as (coords & _ & H).
  injection H as <-. simpl.
  destruct (split_loop_scores _ _ _ _ _ _ _ _ _ El) as [_ Hf].
  exists cv, splits. split; [reflexivity|].
  eapply Forall2_weaken; [|exact Hf].
  intros split value (ts & tt & es & et & s1 & s2 & Ht & Ha).
  unfold split_tensors in Ht. inv_ok Ht. injection Ht as <- <- <- <-.
  unfold NonparametricCVSimilarity_apply_split in Ha.
  exists x, x1, x2, s1, s2. auto.
Qed.
End NonparametricTheorems.


(** ** Edge cases of [apply] *)

Lemma combinations_empty_choice (choices : list (string * list tuple))
      (d : string) :
  In (d, []) choices -> combinations choices = [].
Proof.
  induction choices as [|[d' vs] choices IH]; simpl; [intros []|].
  intros [E|Hin].
  - injection E as -> ->. reflexivity.
  - rewrite (IH Hin). simpl.
    induction vs as [|v vs IHv]; simpl; [reflexivity | exact IHv].
Qed.

Lemma list_prod_nil_r {A B : Type} (l : list A) : list_prod l (@nil B) = [].
Proof. induction l as [|x l IH]; simpl; [reflexivity | exact IH]. Qed.

Lemma filter_none {A : Type} (f : A -> bool) (l : list A) :
  (forall x, In x l -> f x = false) -> filter f l = [].
Proof.
  induction l as [|x l IH]; intros Hall; simpl; [reflexivity|].
  rewrite (Hall x (or_introl eq_refl)). apply IH.
  intros y Hy. apply Hall. right. exact Hy.
Qed.

Section ApplyEdges.
Context {V C Self : Type}.
Variable cross_apply_method :
  Self -> Assembly V -> Assembly V -> result (SimilarityAssembly C) * Self.
Variable cell_eqb : C -> C -> bool.

Lemma adjacent_selections_none (assembly : Assembly V) :
  (forall d, In d (dims assembly) -> In d similarity_dims) ->
  adjacent_selections similarity_dims assembly = [[]].
Proof.
  intros Hall. unfold adjacent_selections. rewrite filter_none; [reflexivity|].
  intros ax Hax. apply negb_false_iff. apply mem_In. apply Hall.
  unfold dims. apply in_map. exact Hax.
Qed.

(** Results of [cross_apply] that differ in their number of splits make
    [apply] raise an [AssertionError]: nothing is merged. *)
Theorem apply_shape_mismatch_raises (self self1 : Self)
        (source target : Assembly V)
        (first similarity : SimilarityAssembly C)
        (rest : list (SimilarityAssembly C)) :
  cross_apply_pairs cross_apply_method self source target
    (list_prod (adjacent_selections similarity_dims source)
               (adjacent_selections similarity_dims target))
  = (Ok (first :: rest), self1) ->
  In similarity rest -> shape similarity <> shape first ->
  OuterCrossValidationSimilarity_apply cross_apply_method cell_eqb
                                       self source target
  = (Raise AssertionError, self1).
Proof.
  intros Hp Hin Hne. unfold OuterCrossValidationSimilarity_apply.
  rewrite Hp.
  assert (E : forallb (fun s => Nat.eqb (shape s) (shape first)) rest = false).
  { destruct (forallb _ rest) eqn:E; [|reflexivity].
    rewrite forallb_forall in E. specialize (E similarity Hin).
    apply Nat.eqb_eq in E. contradiction. }
  rewrite E. reflexivity.
Qed.

(** Tensors that have the similarity dimensions only are handed to
    [cross_apply] as they are, in one call, and its one result is what
    [apply] expands and merges. *)
Theorem apply_without_adjacent_dimensions (self : Self)
        (source target : Assembly V) :
  (forall d, In d (dims source) -> In d similarity_dims) ->
  (forall d, In d (dims target) -> In d similarity_dims) ->
  OuterCrossValidationSimilarity_apply cross_apply_method cell_eqb
                                       self source target
  = match cross_apply_method self source target with
    | (Ok similarity, self1) =>
        (merge cell_eqb
               [expand similarity
                       (dims source ++ dims target ++ ["split"%string])],
         self1)
    | (Raise e, self1) => (Raise e, self1)
    end.
Proof.
  intros Hs Ht. unfold OuterCrossValidationSimilarity_apply.
  rewrite (adjacent_selections_none _ Hs), (adjacent_selections_none _ Ht).
  simpl. unfold cross_apply_pair. simpl.
  destruct (cross_apply_method self source target) as [[similarity|e] self1];
    reflexivity.
Qed.

(** An adjacent dimension without entries leaves nothing to compare:
    [cross_apply] is not called, and the merge of no result has no
    variable to return (a [KeyError]). *)
Theorem apply_empty_adjacent_dimension (self : Self)
        (source target : Assembly V) (ax : axis) :
  In ax (axes source) \/ In ax (axes target) ->
  mem (dim_name ax) similarity_dims = false ->
  axis_length ax = 0 ->
  OuterCrossValidationSimilarity_apply cross_apply_method cell_eqb
                                       self source target
  = (Raise KeyError, self).
Proof.
  intros Hin Hadj Hlen.
  assert (Hnone : forall a : Assembly V,
             In ax (axes a) ->
             adjacent_selections similarity_dims a = []).
  { intros a Ha. unfold adjacent_selections.
    apply (combinations_empty_choice _ (dim_name ax)).
    apply in_map_iff. exists ax. split.
    - unfold index_tuples. rewrite Hlen. reflexivity.
    - apply filter_In. split; [exact Ha|]. rewrite Hadj. reflexivity. }
  unfold OuterCrossValidationSimilarity_apply.
  destruct Hin as [Hin|Hin]; rewrite (Hnone _ Hin); simpl;
    [|rewrite list_prod_nil_r; simpl]; reflexivity.
Qed.
End ApplyEdges.

(** ** The parametric protocol, further *)

Lemma mapM_raise {A B : Type} (f : A -> result B) (l : list A) (x : A) :
  In x l -> (exists e, f x = Raise e) -> exists e, mapM f l = Raise e.
Proof.
  induction l as [|y l IH]; simpl; intros Hin Hx; [destruct Hin|].
  destruct (f y) as [b|e] eqn:Ey; simpl; [|eauto].
  destruct Hin as [->|Hin].
  - destruct Hx as [e Hx]. congruence.
  - destruct (IH Hin Hx) as [e ->]. simpl. eauto.
Qed.

Lemma np_where_from_nonempty {A : Type} (f : A -> bool) (l : list A) (k : nat) :
  np_where_from k (map f l) <> [] -> exists x, In x l /\ f x = true.
Proof.
  revert k. induction l as [|y l IH]; simpl; intros k H; [congruence|].
  destruct (f y) eqn:E; [exists y; auto|].
  destruct (IH _ H) as (x & Hx & Hf). exists x. auto.
Qed.

Section ParametricFurther.
Context {V C W : Type} `{Numeric C}.
Variable fit_values : Assembly V -> Assembly V -> W -> result W.
Variable predict_values : Assembly V -> W -> result (ndarray V).

(** A [predict] before any [fit] finds no neuroid ids recorded: on a test
    source with a ['neuroid_id'] coordinate it raises. *)
Theorem predict_before_fit_raises (w : W) (test_source : Assembly V) :
  hasattr test_source "neuroid_id" = true ->
  exists e,
    predict predict_values (ParametricCVSimilarity_init w) test_source
    = Raise e.
Proof.
  intros Hh. unfold predict.
  destruct (assert (dims_eqb (dims test_source) presentation_neuroid));
    simpl; [|eauto].
  destruct (predict_values test_source _); simpl; [|eauto].
  apply hasattr_find_level in Hh as [l Hl].
  destruct (find_level_axis _ _ _ Hl) as (ax & Hin & Hlin & _).
  unfold find_level in Hl. apply find_some in Hl as [_ Hname].
  destruct (mapM_raise
              (fun ax => ls <- mapM (modify_coord (ParametricCVSimilarity_init w))
                                    (levels ax) ;;
                         Ok (Axis (dim_name ax) ls))
              (axes test_source) ax Hin) as [e He].
  - destruct (mapM_raise (modify_coord (ParametricCVSimilarity_init w))
                         (levels ax) l Hlin) as [e He].
    + unfold modify_coord, is_neuroid_id. rewrite Hname. simpl. eauto.
    + rewrite He. simpl. eauto.
  - rewrite He. simpl. eauto.
Qed.

(** The check of [fit] on the image ids compares the ids as far as both
    arrays reach: train tensors of which one holds further presentations
    pass it, and the neuroid ids of the target are recorded. *)
Theorem fit_accepts_longer_source (self : ParametricCVSimilarity W)
        (train_source train_target : Assembly V)
        (image_ids further neuroid_ids : list label) :
  dims train_source = presentation_neuroid ->
  dims train_target = presentation_neuroid ->
  coord_values train_source "image_id" = Ok (image_ids ++ further) ->
  coord_values train_target "image_id" = Ok image_ids ->
  coord_values train_target "neuroid_id" = Ok neuroid_ids ->
  fit_checks train_source train_target = Ok neuroid_ids
  /\ _target_neuroid_ids (snd (fit fit_values self train_source train_target))
     = Some neuroid_ids.
Proof.
  intros Hds Hdt Hs Ht Hn.
  assert (Hc : fit_checks train_source train_target = Ok neuroid_ids).
  { unfold fit_checks, dims_eqb. rewrite Hds, Hdt.
    destruct (list_eq_dec string_dec presentation_neuroid presentation_neuroid);
      [|congruence].
    simpl. rewrite Hs, Ht. simpl.
    rewrite (proj1 (zip_all_equal_prefix image_ids further)). simpl.
    exact Hn. }
  split; [exact Hc|]. unfold fit. rewrite Hc.
  destruct (fit_values _ _ _); reflexivity.
Qed.

Lemma modify_coord_find (self : ParametricCVSimilarity W) (name : string)
      (ls ls' : list level) :
  name <> "neuroid_id"%string ->
  mapM (modify_coord self) ls = Ok ls' ->
  find (fun l => String.eqb (level_name l) name) ls'
  = find (fun l => String.eqb (level_name l) name) ls.
Proof.
  intros Hname Hm. apply mapM_ok_inv in Hm.
  induction Hm as [|l l' ls ls' Hl _ IH]; simpl; [reflexivity|].
  unfold modify_coord, is_neuroid_id in Hl.
  destruct (String.eqb (level_name l) "neuroid_id") eqn:E.
  - destruct (_target_neuroid_ids self); [|discriminate].
    injection Hl as <-. simpl. apply String.eqb_eq in E. rewrite E.
    destruct (String.eqb "neuroid_id" name) eqn:E'; [|exact IH].
    apply String.eqb_eq in E'. congruence.
  - injection Hl as <-. rewrite IH. reflexivity.
Qed.

Lemma restack_find (name : string) (ax : axis) :
  name <> "neuroid_id"%string ->
  dim_name (restack ax) = dim_name ax
  /\ find (fun l => String.eqb (level_name l) name) (levels (restack ax))
     = find (fun l => String.eqb (level_name l) name) (levels ax).
Proof.
  intros Hname. unfold restack.
  destruct (String.eqb (dim_name ax) "neuroid"); [|auto].
  destruct (existsb is_neuroid_id (levels ax)); [auto|].
  cbn [dim_name levels find level_name]. split; [reflexivity|].
  destruct (String.eqb "neuroid_id" name) eqn:E; [|reflexivity].
  apply String.eqb_eq in E. congruence.
Qed.

Lemma find_flat_map_levels (name : string) (axs axs' : list axis) :
  Forall2 (fun ax ax' =>
             find (fun l => String.eqb (level_name l) name) (levels ax')
             = find (fun l => String.eqb (level_name l) name) (levels ax))
          axs axs' ->
  find (fun l => String.eqb (level_name l) name) (flat_map levels axs')
  = find (fun l => String.eqb (level_name l) name) (flat_map levels axs).
Proof.
  induction 1 as [|ax ax' axs axs' Hax _ IH]; simpl; [reflexivity|].
  rewrite !find_app_level, Hax, IH. reflexivity.
Qed.

(** [predict] relabels the neuroids and nothing else: the tensor it
    returns has the dimensions, the scalar coordinates and every
    coordinate other than ['neuroid_id'] of the test source, and the
    values that [predict_values] gives. *)
Theorem predict_keeps_source_coordinates (self : ParametricCVSimilarity W)
        (test_source r : Assembly V) :
  predict predict_values self test_source = Ok r ->
  dims r = dims test_source
  /\ scalar_coords r = scalar_coords test_source
  /\ predict_values test_source (regression self) = Ok (data r)
  /\ forall name, name <> "neuroid_id"%string ->
                  coord_values r name = coord_values test_source name.
Proof.
  unfold predict. intros Hp.
  apply bind_ok_inv in Hp as (u & _ & Hp).
  apply bind_ok_inv in Hp as (predicted & Hpred & Hp).
  apply bind_ok_inv in Hp as (coords & Hcoords & Hp).
  apply mapM_ok_inv in Hcoords.
  assert (Hnames : map dim_name coords = dims test_source).
  { unfold dims. clear -Hcoords.
    induction Hcoords as [|ax ax' axs axs' Hax _ IH]; simpl; [reflexivity|].
    apply bind_ok_inv in Hax as (ls & _ & Hax). injection Hax as <-.
    simpl. f_equal. exact IH. }
  assert (Hfind : forall name, name <> "neuroid_id"%string ->
             Forall2 (fun ax ax' =>
                        find (fun l => String.eqb (level_name l) name)
                             (levels ax')
                        = find (fun l => String.eqb (level_name l) name)
                               (levels ax))
                     (axes test_source) coords).
  { intros name Hname. eapply Forall2_weaken; [|exact Hcoords].
    intros ax ax' Hax. simpl in Hax.
    apply bind_ok_inv in Hax as (ls & Hls & Hax). injection Hax as <-.
    simpl. eapply modify_coord_find; eauto. }
  assert (Hres : forall res,
             NeuroidAssembly predicted coords (scalar_coords test_source)
             = Ok res ->
             res = MkAssembly coords (scalar_coords test_source) predicted).
  { intros res Hres. unfold NeuroidAssembly in Hres.
    destruct (sizes_ok 0 coords predicted); [|discriminate].
    injection Hres as <-. reflexivity. }
  destruct (Nat.eqb _ 1).
  - apply bind_ok_inv in Hp as (res & Hr & Hp). injection Hp as <-.
    apply Hres in Hr. subst res. simpl.
    split; [|split; [reflexivity|split; [exact Hpred|]]].
    + rewrite <- Hnames. unfold dims. simpl. rewrite map_map.
      apply map_ext. intros ax. unfold restack.
      destruct (String.eqb (dim_name ax) "neuroid"); [|reflexivity].
      destruct (existsb is_neuroid_id (levels ax)); reflexivity.
    + intros name Hname. unfold coord_values, find_level, all_levels. simpl.
      rewrite (find_flat_map_levels name (axes test_source)
                                    (map restack coords)); [reflexivity|].
      specialize (Hfind name Hname). clear -Hfind Hname.
      induction Hfind as [|ax ax' axs axs' Hax _ IH]; simpl; constructor;
        [|exact IH].
      rewrite (proj2 (restack_find name ax' Hname)). exact Hax.
  - apply Hres in Hp. subst r. simpl.
    split; [exact Hnames|]. split; [reflexivity|]. split; [exact Hpred|].
    intros name Hname. unfold coord_values, find_level, all_levels. simpl.
    rewrite (find_flat_map_levels name (axes test_source) coords);
      [reflexivity|]. apply Hfind. exact Hname.
Qed.
End ParametricFurther.

Lemma Forall2_In_exists {A B : Type} (R : A -> B -> Prop) (l : list A)
      (l' : list B) (x : A) :
  Forall2 R l l' -> In x l -> exists y, In y l' /\ R x y.
Proof.
  induction 1 as [|a b l l' Hab _ IH]; simpl; [intros []|].
  intros [->|Hin]; [eauto|].
  destruct (IH Hin) as (y & Hy & Hr). eauto.
Qed.

Section CompareFurther.
Context {V C : Type} `{Numeric C}.
Variable correlation : ndarray V -> ndarray V -> result (C * C).

(** [compare_prediction] returns only when the prediction holds every id
    that the target holds along the compared coordinate: an id that the
    prediction lacks cannot be selected. *)
Theorem compare_prediction_covers_target (prediction target : Assembly V)
        (axis_name : string) (m : C) :
  compare_prediction prediction target axis_name correlation = Ok m ->
  exists prediction_ids target_ids,
    coord_values prediction axis_name = Ok prediction_ids
    /\ coord_values target axis_name = Ok target_ids
    /\ forall i, In i target_ids -> In i prediction_ids.
Proof.
  unfold compare_prediction. intros Hc.
  apply bind_ok_inv in Hc as (pi & _ & Hc).
  apply bind_ok_inv in Hc as (ti & _ & Hc).
  apply bind_ok_inv in Hc as (u1 & _ & Hc).
  apply bind_ok_inv in Hc as (pids & Hp & Hc).
  apply bind_ok_inv in Hc as (tids & Ht & Hc).
  apply bind_ok_inv in Hc as (u2 & _ & Hc).
  apply bind_ok_inv in Hc as (rs & Hrs & _).
  exists pids, tids. split; [exact Hp|]. split; [exact Ht|].
  apply mapM_ok_inv in Hrs. intros i Hi.
  destruct (Forall2_In_exists _ _ _ _ Hrs Hi) as (r & _ & Hr).
  apply bind_ok_inv in Hr as (ta & _ & Hr).
  apply bind_ok_inv in Hr as (pa & Hpa & _).
  unfold sel_squeeze in Hpa. rewrite Hp in Hpa. simpl in Hpa.
  destruct (level_dim prediction axis_name); [|discriminate].
  destruct (positions_of i pids) eqn:Epos; [discriminate|].
  unfold positions_of, np_where in Epos.
  destruct (np_where_from_nonempty (label_eqb i) pids 0) as (v & Hv & E).
  - rewrite Epos. discriminate.
  - apply label_eqb_eq in E. subst v. exact Hv.
Qed.
End CompareFurther.


(** ** The number of runs of [apply] *)

Lemma combinations_length (choices : list (string * list tuple)) :
  List.length (combinations choices)
  = fold_right Nat.mul 1 (map (fun c => List.length (snd c)) choices).
Proof.
  induction choices as [|[d vs] choices IH]; simpl; [reflexivity|].
  rewrite (flat_map_constant_length (c := List.length (combinations choices))).
  - rewrite IH. reflexivity.
  - intros v _. apply length_map.
Qed.

Section ApplyCount.
Context {V C Self : Type}.
Variable cross_apply_method :
  Self -> Assembly V -> Assembly V -> result (SimilarityAssembly C) * Self.

Lemma cross_apply_pairs_length (source target : Assembly V)
      (pairs : list (list (string * tuple) * list (string * tuple))) :
  forall (self self' : Self) (similarities : list (SimilarityAssembly C)),
    cross_apply_pairs cross_apply_method self source target pairs
    = (Ok similarities, self') ->
    List.length similarities = List.length pairs.
Proof.
  induction pairs as [|adj pairs IH]; intros self self' sims Hp; simpl in Hp.
  - injection Hp as <- <-. reflexivity.
  - destruct (cross_apply_pair cross_apply_method self source target adj)
      as [[sim|] self1]; [|discriminate].
    destruct (cross_apply_pairs cross_apply_method self1 source target pairs)
      as [[sims'|] self2] eqn:Er; [|discriminate].
    injection Hp as <- <-. simpl. f_equal. eapply IH. exact Er.
Qed.

(** The results that [apply] merges are as many as the distinct labels
    along the adjacent dimensions of the source and of the target
    multiply to. *)
Theorem apply_number_of_results (self self' : Self)
        (source target : Assembly V)
        (similarities : list (SimilarityAssembly C)) :
  let distinct_labels := fun a : Assembly V =>
    map (fun ax => List.length (np_unique (index_tuples ax)))
        (filter (fun ax => negb (mem (dim_name ax) similarity_dims))
                (axes a)) in
  cross_apply_pairs cross_apply_method self source target
    (list_prod (adjacent_selections similarity_dims source)
               (adjacent_selections similarity_dims target))
  = (Ok similarities, self') ->
  List.length similarities
  = fold_right Nat.mul 1 (distinct_labels source)
    * fold_right Nat.mul 1 (distinct_labels target).
Proof.
  intros distinct_labels Hp.
  rewrite (cross_apply_pairs_length _ _ _ _ _ _ Hp), length_prod.
  unfold adjacent_selections. rewrite !combinations_length, !map_map.
  reflexivity.
Qed.
End ApplyCount.

(** ** The further properties at example tensors *)

Lemma subset_missing_dimension_witness :
  subset Examples.source3 Examples.target2
         (Some (@nil string ++ "layer"%string :: []))
  = Raise AssertionError.
Proof.
  apply (subset_missing_dimension_raises
           Examples.source3 Examples.target2 [] [] "layer"%string
           Examples.source3).
  - reflexivity.
  - left. reflexivity.
Defined.

Lemma subset_returns_or_asserts_witness :
  let selected :=
    select_mask Examples.source3 "presentation"%string
      (intersect_masks
         (present_masks Examples.source3 Examples.target2
            (level_names Examples.target2 "presentation"%string))) in
  subset Examples.source3 Examples.target2 (Some ["presentation"%string])
  = if mem "presentation"%string (dims Examples.target2)
       && mem "presentation"%string (dims Examples.source3)
       && existsb (hasattr Examples.source3)
                  (level_names Examples.target2 "presentation"%string)
       && Nat.eqb (axis_len Examples.target2 "presentation"%string)
                  (axis_len selected "presentation"%string)
    then Ok selected
    else Raise AssertionError.
Proof.
  apply (subset_returns_or_asserts Examples.source3 Examples.target2
                                   "presentation"%string).
  - reflexivity.
  - reflexivity.
  - intros name Hin _. simpl in Hin.
    destruct Hin as [<-|[<-|[]]]; reflexivity.
Defined.

Lemma subset_self_witness :
  subset Examples.source3 Examples.source3 None = Ok Examples.source3.
Proof.
  apply (subset_self Examples.source3 None).
  - reflexivity.
  - intros d Hd. exact Hd.
Defined.


Lemma Similarity_sort_returns_sorted_witness :
  (forall keys,
      coord_values Examples.target2 "image_id" = Ok keys ->
      exists r sorted,
        Similarity_sort Examples.target2 = Ok r
        /\ coord_values r "image_id" = Ok sorted
        /\ Sorted (fun x y => label_leb x y = true) sorted
        /\ Permutation sorted keys
        /\ dims r = dims Examples.target2)
  /\ (hasattr Examples.target2 "image_id" = false ->
      Similarity_sort Examples.target2 = Raise KeyError).
Proof.
  apply (Similarity_sort_returns_sorted Examples.target2). reflexivity.
Defined.

Lemma Similarity_sort_sorted_unchanged_witness :
  Similarity_sort Examples.source3 = Ok Examples.source3.
Proof.
  apply (Similarity_sort_sorted_unchanged Examples.source3
                                          (Examples.ints [1; 2; 3]%Z)).
  - reflexivity.
  - reflexivity.
  - repeat constructor.
Defined.



Lemma cross_apply_one_value_per_split_witness :
  let similarity :=
    MkSimilarityAssembly [("split"%string, Coord1 "split" [[LInt 0]])]
                         (MkSplitAssembly [0] [1%Z]) in
  exists cross_validation_values splits,
    cross_apply_splits Examples.one_split Examples.source_ordered
                       Examples.target_reversed
    = Ok (cross_validation_values, splits)
    /\ split_coord (sim_splits similarity) = seq 0 (List.length splits)
    /\ List.length (split_values (sim_splits similarity))
       = List.length splits
    /\ lookup "split" (sim_coords similarity)
       = Some (Coord1 "split"
                      (map (fun k => [LInt (Z.of_nat k)])
                           (seq 0 (List.length splits)))).
Proof.
  apply (cross_apply_one_value_per_split
           Examples.one_split Examples.constant_split tt tt
           Examples.source_ordered Examples.target_reversed).
  reflexivity.
Defined.

Lemma cross_apply_not_implemented_witness :
  cross_apply Examples.one_split
              (OuterCrossValidationSimilarity_apply_split (C := Z))
              tt Examples.source_ordered Examples.target_reversed
  = (Raise NotImplementedError, tt).
Proof.
  eapply (cross_apply_not_implemented
            Examples.one_split tt
            Examples.source_ordered Examples.target_reversed);
    reflexivity.
Defined.

Lemma Nonparametric_cross_apply_values_witness :
  let similarity :=
    MkSimilarityAssembly [("split"%string, Coord1 "split" [[LInt 0]])]
                         (MkSplitAssembly [0] [231%Z]) in
  exists cross_validation_values splits,
    cross_apply_splits Examples.one_split Examples.source_ordered
                       Examples.target_reversed
    = Ok (cross_validation_values, splits)
    /\ Forall2 (fun split value =>
                  exists train_values train_source train_target self1 self2,
                    isel cross_validation_values cross_validation_dim
                         (fst split) = Ok train_values
                    /\ subset Examples.source_ordered train_values None
                       = Ok train_source
                    /\ subset Examples.target_reversed train_values None
                       = Ok train_target
                    /\ Examples.first_values_compute self1 train_source
                                                     train_target
                       = (Ok value, self2))
               splits (split_values (sim_splits similarity)).
Proof.
  apply (Nonparametric_cross_apply_values
           Examples.one_split Examples.first_values_compute tt tt
           Examples.source_ordered Examples.target_reversed).
  reflexivity.
Defined.


Lemma apply_shape_mismatch_witness :
  OuterCrossValidationSimilarity_apply Examples.cross_apply_uneven Z.eqb tt
    Examples.source_ordered Examples.target_bins
  = (Raise AssertionError, tt).
Proof.
  eapply (apply_shape_mismatch_raises
            Examples.cross_apply_uneven Z.eqb tt tt
            Examples.source_ordered Examples.target_bins).
  - reflexivity.
  - left. reflexivity.
  - vm_compute. discriminate.
Defined.

Lemma apply_without_adjacent_dimensions_witness :
  OuterCrossValidationSimilarity_apply Examples.cross_apply_once Z.eqb tt
    Examples.source_ordered Examples.target_reversed
  = match Examples.cross_apply_once tt Examples.source_ordered
                                    Examples.target_reversed with
    | (Ok similarity, self1) =>
        (merge Z.eqb
               [expand similarity
                       (dims Examples.source_ordered
                        ++ dims Examples.target_reversed
                        ++ ["split"%string])],
         self1)
    | (Raise e, self1) => (Raise e, self1)
    end.
Proof.
  apply (apply_without_adjacent_dimensions
           Examples.cross_apply_once Z.eqb tt
           Examples.source_ordered Examples.target_reversed);
    intros d Hd; exact Hd.
Defined.

Lemma apply_empty_adjacent_dimension_witness :
  OuterCrossValidationSimilarity_apply Examples.cross_apply_once Z.eqb tt
    Examples.source_no_layers Examples.target_bins
  = (Raise KeyError, tt).
Proof.
  apply (apply_empty_adjacent_dimension
           Examples.cross_apply_once Z.eqb tt
           Examples.source_no_layers Examples.target_bins
           (Axis "layer" [Level "layer" []])).
  - left. simpl. auto.
  - reflexivity.
  - reflexivity.
Defined.

Lemma apply_number_of_results_witness :
  exists similarities,
    cross_apply_pairs Examples.cross_apply_once tt
      Examples.source_layers Examples.target_bins
      (list_prod (adjacent_selections similarity_dims Examples.source_layers)
                 (adjacent_selections similarity_dims Examples.target_bins))
    = (Ok similarities, tt)
    /\ List.length similarities = 2 * 2.
Proof.
  eexists. split; [reflexivity|].
  match goal with
  | |- List.length ?s = _ =>
      exact (apply_number_of_results
               Examples.cross_apply_once tt tt
               Examples.source_layers Examples.target_bins s eq_refl)
  end.
Defined.

Lemma predict_before_fit_witness :
  exists e,
    predict Examples.predict_source (ParametricCVSimilarity_init tt)
            Examples.source3
    = Raise e.
Proof.
  apply (predict_before_fit_raises Examples.predict_source tt
                                   Examples.source3).
  reflexivity.
Defined.

Lemma fit_accepts_longer_source_witness :
  fit_checks Examples.source3 Examples.target22 = Ok (Examples.ints [1; 2]%Z)
  /\ _target_neuroid_ids
       (snd (fit Examples.fit_nothing (ParametricCVSimilarity_init tt)
                 Examples.source3 Examples.target22))
     = Some (Examples.ints [1; 2]%Z).
Proof.
  apply (fit_accepts_longer_source
           Examples.fit_nothing (ParametricCVSimilarity_init tt)
           Examples.source3 Examples.target22
           (Examples.ints [1; 2]%Z) (Examples.ints [3]%Z)
           (Examples.ints [1; 2]%Z));
    reflexivity.
Defined.

Lemma predict_keeps_source_coordinates_witness :
  let fitted := MkParametric (Some (Examples.ints [7; 8]%Z)) tt in
  exists r,
    predict Examples.predict_source fitted Examples.source3 = Ok r
    /\ dims r = dims Examples.source3
    /\ scalar_coords r = scalar_coords Examples.source3
    /\ Examples.predict_source Examples.source3 (regression fitted)
       = Ok (data r)
    /\ forall name, name <> "neuroid_id"%string ->
                    coord_values r name = coord_values Examples.source3 name.
Proof.
  intros fitted. eexists. split; [reflexivity|].
  match goal with
  | |- dims ?r = _ /\ _ =>
      apply (predict_keeps_source_coordinates
               Examples.predict_source fitted Examples.source3 r);
      reflexivity
  end.
Defined.

Lemma compare_prediction_covers_target_witness :
  exists prediction_ids target_ids,
    coord_values Examples.prediction23 "neuroid_id" = Ok prediction_ids
    /\ coord_values Examples.target22 "neuroid_id" = Ok target_ids
    /\ forall i, In i target_ids -> In i prediction_ids.
Proof.
  apply (compare_prediction_covers_target
           (fun _ _ : ndarray Z => Ok (0%R, 0%R))
           Examples.prediction23 Examples.target22 "neuroid_id"
           (np_median [0%R; 0%R])).
  reflexivity.
Defined.

Lemma compare_prediction_mismatch_witness :
  compare_prediction Examples.target22 Examples.source_ordered "neuroid_id"
                     (fun _ _ : ndarray Z => Ok (0%R, 0%R))
  = Raise AssertionError.
Proof.
  apply (compare_prediction_mismatch
           (fun _ _ : ndarray Z => Ok (0%R, 0%R))
           Examples.target22 Examples.source_ordered
           (Examples.ints [1; 2]%Z) (Examples.ints [1; 2]%Z)
           (Examples.ints [1; 2]%Z) (Examples.ints [10; 20]%Z));
    try reflexivity.
  right. discriminate.
Defined.


Lemma ceil_score_split_mismatch_witness :
  Brainscore.ceil_score Examples.mean_aggregate Examples.example_score
                        Examples.ceiling_other
  = Raise AssertionError.
Proof.
  apply (ceil_score_split_mismatch
           Examples.mean_aggregate Examples.example_score
           Examples.ceiling_other
           Examples.raw_scores Examples.raw_ceilings_other);
    reflexivity.
Defined.

Lemma assert_all_equal_dim_witness :
  assert_all_equal Examples.source_ordered Examples.target_reversed
                   "presentation"
  = Ok tt
  \/ assert_all_equal Examples.source_ordered Examples.target_reversed
                      "presentation"
     = Raise ValueError.
Proof.
  eapply (assert_all_equal_dim Examples.source_ordered
                               Examples.target_reversed "presentation");
    reflexivity.
Defined.


(** ** Alignment and sorting together *)









(** ** The stratification coordinate *)

Section Stratification.
Context {V C Self : Type}.
Variable split_strategy :
  nat -> list tuple -> result (list (list nat * list nat)).
Variable apply_split :
  Self -> Assembly V -> Assembly V -> Assembly V -> Assembly V -> result C * Self.

Lemma getitem_missing (a : Assembly V) (name : string) :
  mem name (dims a) = false -> hasattr a name = false ->
  getitem a name = Raise KeyError.
Proof.
  intros Hm Hh. unfold getitem.
  destruct (find_axis a name) as [ax|] eqn:E.
  - apply find_axis_index in E as (Hin & Hn & _).
    assert (Hm' : mem name (dims a) = true).
    { apply mem_In. unfold dims. rewrite <- Hn. apply in_map. exact Hin. }
    congruence.
  - rewrite (hasattr_false_find_level _ _ Hh). reflexivity.
Qed.

Lemma getitem_raises_KeyError (a : Assembly V) (name : string) (e : exn) :
  getitem a name = Raise e -> e = KeyError.
Proof.
  unfold getitem. destruct (find_axis a name); [discriminate|].
  destruct (find_level a name); [|congruence].
  destruct (axis_of a name); congruence.
Qed.

(** [cross_apply] needs the ['object_name'] coordinate of both tensors:
    once the presentations have been compared, a tensor without it makes
    the call raise a [KeyError], before any split is generated. *)
Theorem cross_apply_missing_stratification (self : Self)
        (source target : Assembly V) :
  assert_all_equal source target cross_validation_dim = Ok tt ->
  (mem stratification_coord (dims source) = false
   /\ hasattr source stratification_coord = false)
  \/ (mem stratification_coord (dims target) = false
      /\ hasattr target stratification_coord = false) ->
  cross_apply split_strategy apply_split self source target
  = (Raise KeyError, self).
Proof.
  intros Hc Hmiss. unfold cross_apply, cross_apply_checks. rewrite Hc.
  cbn [bind]. unfold assert_all_equal at 1.
  destruct Hmiss as [[Hm Hh]|[Hm Hh]].
  - rewrite (getitem_missing _ _ Hm Hh). reflexivity.
  - rewrite (getitem_missing target _ Hm Hh).
    destruct (getitem source stratification_coord) as [s|e] eqn:Es;
      [reflexivity|].
    apply getitem_raises_KeyError in Es. subst e. reflexivity.
Qed.
End Stratification.

Lemma cross_apply_missing_stratification_witness :
  cross_apply Examples.one_split Examples.constant_split tt
              Examples.prediction23 Examples.target22
  = (Raise KeyError, tt).
Proof.
  apply (cross_apply_missing_stratification
           Examples.one_split Examples.constant_split tt
           Examples.prediction23 Examples.target22).
  - reflexivity.
  - left. split; reflexivity.
Defined.
